(** * feeless-wallet: the wallet-action relay and the credential store

    A shallow embedding of
      - [public/background.js]        (the background dispatcher and, from
                                       line 72, the content script),
      - [src/components/WalletActionModalContext.tsx] (the approval panel),
      - [src/utils/storage.ts]        (the credential store),
      - [src/components/LoginScreen.tsx], [src/App.tsx] and the mint screen
                                      (the forms that use them),
    together with the parts of the JavaScript platform these files call
    ([Number.isInteger], [String], [parseInt], [JSON.stringify],
    [JSON.parse], [localStorage], timers and runtime messages). *)

From stdpp Require Import gmap strings list.
From Stdlib Require Import ZArith NArith Lia.
From Stdlib Require Decimal.

Set Warnings "-register-all".
Local Open Scope Z_scope.

(** * JavaScript values *)

Module Js.

(** A JavaScript string is a sequence of UTF-16 code units. *)
Abbreviation jsstring := (list N).

(** The code units of a source-text literal. *)
Definition js (s : string) : jsstring :=
  Ascii.N_of_ascii <$> String.list_ascii_of_string s.

(** Numbers.  The relay looks at a number only through [Number.isInteger]
    and [String]; a finite number with an integral value is kept by that
    value, a finite number with a fractional part by its [String]
    rendering, which identifies it. *)
Inductive number :=
  | Int (z : Z)
  | Frac (shown : jsstring)
  | NaN
  | Infinity (negative : bool).

Inductive value :=
  | Undefined
  | Null
  | Bool (b : bool)
  | Num (n : number)
  | Str (s : jsstring)
  | Arr (items : list value)
  | Obj (props : list (jsstring * value)).

(** Completion of a call: a value, or a thrown exception.  The
    exceptions are the two of the language that the code can run into,
    the [DOMException] named QuotaExceededError of [localStorage.setItem],
    and an [Error] with its message. *)
Inductive exn :=
  | TypeError
  | SyntaxError
  | QuotaExceededError
  | Error (message : jsstring).

Inductive completion (A : Type) :=
  | Return (a : A)
  | Throw (e : exn).
Arguments Return {A} a.
Arguments Throw {A} e.

#[global] Instance completion_bind : MBind completion :=
  fun A B (k : A → completion B) (c : completion A) =>
    match c with
    | Return a => k a
    | Throw e => Throw e
    end.

(** [ToBoolean] *)
Definition truthy (v : value) : bool :=
  match v with
  | Undefined | Null => false
  | Bool b => b
  | Num (Int z) => negb (z =? 0)
  | Num NaN => false
  | Num (Frac _) | Num (Infinity _) => true
  | Str s => negb (bool_decide (s = []))
  | Arr _ | Obj _ => true
  end.

(** [v === "literal"] *)
Definition is_str (v : value) (s : jsstring) : bool :=
  match v with
  | Str t => bool_decide (t = s)
  | _ => false
  end.

Fixpoint assoc (k : jsstring) (props : list (jsstring * value)) : value :=
  match props with
  | [] => Undefined
  | (k', v) :: rest => if bool_decide (k' = k) then v else assoc k rest
  end.

(** [v.k] for a data property [k] that no prototype defines: reading it
    off [undefined] or [null] throws, off any other primitive or an array
    it is [undefined]. *)
Definition prop (v : value) (k : jsstring) : completion value :=
  match v with
  | Undefined | Null => Throw TypeError
  | Obj props => Return (assoc k props)
  | _ => Return Undefined
  end.

(** [Number.isInteger(v)] *)
Definition Number_isInteger (v : value) : bool :=
  match v with
  | Num (Int _) => true
  | _ => false
  end.

(** ** Binary64 and [Number::toString] on integral values *)

(** The double nearest to the positive integer [y], ties to even
    (below the overflow threshold). *)
Definition round53 (y : Z) : Z :=
  let b := Z.log2 y in
  if b <? 53 then y
  else
    let sh := b - 52 in
    let q := Z.shiftr y sh in
    let r := y - Z.shiftl q sh in
    let half := Z.shiftl 1 (sh - 1) in
    let q' := if (half <? r) || ((r =? half) && Z.odd q) then q + 1 else q in
    Z.shiftl q' sh.

(** The integers a number can have as its value. *)
Definition is_double (z : Z) : Prop :=
  round53 (Z.abs z) = Z.abs z ∧ Z.abs z < 2 ^ 1024.

(** [Number.isSafeInteger] *)
Definition is_safe (z : Z) : Prop := Z.abs z ≤ 2 ^ 53 - 1.

(** Among the multiples of [10^j], the one that reads back as [z], the
    closest to [z] first and on a tie the one with the even quotient. *)
Definition candidate (z : Z) (j : nat) : option Z :=
  let p := 10 ^ Z.of_nat j in
  let lo := (z / p) * p in
  let hi := lo + p in
  let lo_first :=
    (z - lo <? hi - z) || ((z - lo =? hi - z) && Z.even (z / p)) in
  let a := if lo_first then lo else hi in
  let b := if lo_first then hi else lo in
  if (0 <? a) && (round53 a =? z) then Some a
  else if (0 <? b) && (round53 b =? z) then Some b
  else None.

Fixpoint shorten (fuel : nat) (j : nat) (z best : Z) : Z :=
  match fuel with
  | O => best
  | S fuel' =>
      match candidate z j with
      | Some y => shorten fuel' (S j) z y
      | None => best
      end
  end.

(** [s * 10^(n-k)] of [Number::toString]: the integer with the fewest
    significant digits that reads back as the double [z > 0]. *)
Definition shortest (z : Z) : Z :=
  shorten (S (Z.to_nat (Z.log2 z))) 1 z z.

Fixpoint uint_units (d : Decimal.uint) : jsstring :=
  match d with
  | Decimal.Nil => []
  | Decimal.D0 d => 48%N :: uint_units d
  | Decimal.D1 d => 49%N :: uint_units d
  | Decimal.D2 d => 50%N :: uint_units d
  | Decimal.D3 d => 51%N :: uint_units d
  | Decimal.D4 d => 52%N :: uint_units d
  | Decimal.D5 d => 53%N :: uint_units d
  | Decimal.D6 d => 54%N :: uint_units d
  | Decimal.D7 d => 55%N :: uint_units d
  | Decimal.D8 d => 56%N :: uint_units d
  | Decimal.D9 d => 57%N :: uint_units d
  end.

(** The decimal digits of a non-negative integer. *)
Definition digits (y : Z) : jsstring := uint_units (N.to_uint (Z.to_N y)).

Fixpoint strip_zeros (rev_digits : jsstring) : jsstring :=
  match rev_digits with
  | 48%N :: rest => strip_zeros rest
  | _ => rev_digits
  end.

(** Exponential notation, for values from [10^21] on. *)
Definition exponential (y : Z) : jsstring :=
  let ds := digits y in
  let e := Z.of_nat (length ds) - 1 in
  match rev (strip_zeros (rev ds)) with
  | [] => []
  | [d] => d :: js "e+" ++ digits e
  | d :: more => d :: js "." ++ more ++ js "e+" ++ digits e
  end.

Definition Number_toString_pos (z : Z) : jsstring :=
  let y := shortest z in
  if y <? 10 ^ 21 then digits y else exponential y.

Definition Number_toString (n : number) : jsstring :=
  match n with
  | Int z =>
      if z =? 0 then js "0"
      else if z <? 0 then js "-" ++ Number_toString_pos (- z)
      else Number_toString_pos z
  | Frac shown => shown
  | NaN => js "NaN"
  | Infinity negative => if negative then js "-Infinity" else js "Infinity"
  end.

(** [String(v)] for the values a message or an action carries. *)
Fixpoint String_ (v : value) : jsstring :=
  match v with
  | Undefined => js "undefined"
  | Null => js "null"
  | Bool b => if b then js "true" else js "false"
  | Num n => Number_toString n
  | Str s => s
  | Arr items =>
      (fix join (l : list value) : jsstring :=
         match l with
         | [] => []
         | [x] => match x with Undefined | Null => [] | _ => String_ x end
         | x :: rest =>
             (match x with Undefined | Null => [] | _ => String_ x end)
               ++ js "," ++ join rest
         end) items
  | Obj _ => js "[object Object]"
  end.

(** The plain decimal numeral of an integer. *)
Definition decimal (n : Z) : jsstring :=
  if n <? 0 then js "-" ++ digits (- n) else digits n.

(** ** Runtime messages *)

(** A message object, by the properties the extension reads and writes;
    an absent property is [Undefined]. *)
Record message := {
  type : value;
  method : value;
  payload : value;
  requestId : value;
  id : value;
  result : value;
  error : value;
}.

End Js.

(** * The credential store: [src/utils/storage.ts] *)

Module Storage.
Import Js.

(** ** [JSON.stringify] of a credentials record *)

Record WalletCredentials := {
  privateKey : jsstring;
  wsNode : jsstring;
  httpNode : jsstring;
}.

Definition hex_digit (n : N) : N :=
  (if n <? 10 then 48 + n else 87 + n)%N.

(** [UnicodeEscape]: a backslash, [u] and four lowercase hex digits. *)
Definition unicode_escape (c : N) : jsstring :=
  [92; 117; hex_digit (c / 4096 mod 16); hex_digit (c / 256 mod 16);
   hex_digit (c / 16 mod 16); hex_digit (c mod 16)]%N.

Definition is_lead (c : N) : bool := ((55296 <=? c) && (c <=? 56319))%N.
Definition is_trail (c : N) : bool := ((56320 <=? c) && (c <=? 57343))%N.

(** One code point of [QuoteJSONString] that is a single code unit. *)
Definition escape_unit (c : N) : jsstring :=
  (if c =? 8 then [92; 98]
   else if c =? 9 then [92; 116]
   else if c =? 10 then [92; 110]
   else if c =? 12 then [92; 102]
   else if c =? 13 then [92; 114]
   else if c =? 34 then [92; 34]
   else if c =? 92 then [92; 92]
   else if (c <? 32) || is_lead c || is_trail c then unicode_escape c
   else [c])%N.

(** The body of [QuoteJSONString]: a surrogate pair goes out as it is, a
    lone surrogate escaped. *)
Fixpoint quote_units (s : jsstring) : jsstring :=
  match s with
  | [] => []
  | c :: rest =>
      match rest with
      | d :: rest' =>
          if is_lead c && is_trail d then c :: d :: quote_units rest'
          else escape_unit c ++ quote_units rest
      | [] => escape_unit c
      end
  end.

Definition QuoteJSONString (s : jsstring) : jsstring :=
  34%N :: quote_units s ++ [34%N].

(** [JSON.stringify(credentials)]: the three own properties in the order
    of the interface, without white space. *)
Definition JSON_stringify (credentials : WalletCredentials) : jsstring :=
  js "{" ++ QuoteJSONString (js "privateKey") ++ js ":"
         ++ QuoteJSONString (privateKey credentials)
  ++ js "," ++ QuoteJSONString (js "wsNode") ++ js ":"
         ++ QuoteJSONString (wsNode credentials)
  ++ js "," ++ QuoteJSONString (js "httpNode") ++ js ":"
         ++ QuoteJSONString (httpNode credentials)
  ++ js "}".

(** ** [JSON.parse] *)

(** The value [JSON.parse] builds.  A number is kept as the literal that
    denotes it. *)
Inductive json :=
  | JNull
  | JBool (b : bool)
  | JNumber (literal : jsstring)
  | JString (s : jsstring)
  | JArray (items : list json)
  | JObject (members : list (jsstring * json)).

Definition is_ws (c : N) : bool :=
  ((c =? 32) || (c =? 9) || (c =? 10) || (c =? 13))%N.

Fixpoint skip_ws (s : jsstring) : jsstring :=
  match s with
  | c :: rest => if is_ws c then skip_ws rest else s
  | [] => []
  end.

Definition hex_value (c : N) : option N :=
  (if (48 <=? c) && (c <=? 57) then Some (c - 48)
   else if (97 <=? c) && (c <=? 102) then Some (c - 87)
   else if (65 <=? c) && (c <=? 70) then Some (c - 55)
   else None)%N.

Definition simple_escape (e : N) : option N :=
  (if e =? 34 then Some 34
   else if e =? 92 then Some 92
   else if e =? 47 then Some 47
   else if e =? 98 then Some 8
   else if e =? 102 then Some 12
   else if e =? 110 then Some 10
   else if e =? 114 then Some 13
   else if e =? 116 then Some 9
   else None)%N.

Definition push (c : N) (r : option (jsstring * jsstring)) :
    option (jsstring * jsstring) :=
  match r with
  | Some (str, rest) => Some (c :: str, rest)
  | None => None
  end.

(** The characters of a string literal, after its opening quote. *)
Fixpoint parse_chars (s : jsstring) : option (jsstring * jsstring) :=
  match s with
  | [] => None
  | c :: r =>
      if (c =? 34)%N then Some ([], r)
      else if (c =? 92)%N then
        match r with
        | [] => None
        | e :: r2 =>
            if (e =? 117)%N then
              match r2 with
              | h1 :: h2 :: h3 :: h4 :: r3 =>
                  match hex_value h1, hex_value h2, hex_value h3, hex_value h4 with
                  | Some a, Some b, Some c, Some d =>
                      push (a * 4096 + b * 256 + c * 16 + d)%N (parse_chars r3)
                  | _, _, _, _ => None
                  end
              | _ => None
              end
            else
              match simple_escape e with
              | Some u => push u (parse_chars r2)
              | None => None
              end
        end
      else if (c <? 32)%N then None
      else push c (parse_chars r)
  end.

Definition is_digit (c : N) : bool := ((48 <=? c) && (c <=? 57))%N.

Fixpoint take_digits (s : jsstring) : jsstring * jsstring :=
  match s with
  | c :: rest =>
      if is_digit c then let '(ds, r) := take_digits rest in (c :: ds, r)
      else ([], s)
  | [] => ([], [])
  end.

(** The parts of a number literal after its integer part: a fraction of
    a dot and digits, an exponent of [e] or [E], a sign and digits. *)
Definition parse_fraction (s : jsstring) : option (jsstring * jsstring) :=
  match s with
  | c :: r =>
      if (c =? 46)%N then
        match take_digits r with
        | ([], _) => None
        | (ds, r') => Some (c :: ds, r')
        end
      else Some ([], s)
  | [] => Some ([], s)
  end.

Definition parse_exponent (s : jsstring) : option (jsstring * jsstring) :=
  match s with
  | c :: r =>
      if (c =? 101)%N || (c =? 69)%N then
        let '(sg, r1) :=
          match r with
          | g :: r0 =>
              if (g =? 43)%N || (g =? 45)%N then ([g], r0) else ([], r)
          | [] => ([], r)
          end in
        match take_digits r1 with
        | ([], _) => None
        | (ds, r2) => Some (c :: sg ++ ds, r2)
        end
      else Some ([], s)
  | [] => Some ([], s)
  end.

(** A number literal: an optional minus, an integer part without a
    leading zero (or the single digit zero), an optional fraction and an
    optional exponent. *)
Definition parse_number (s : jsstring) : option (jsstring * jsstring) :=
  let '(sign, s1) :=
    match s with
    | c :: r => if (c =? 45)%N then ([c], r) else ([], s)
    | [] => ([], s)
    end in
  let '(int, s2) := take_digits s1 in
  match int with
  | [] => None
  | d :: more =>
      if (d =? 48)%N && negb (bool_decide (more = [])) then None
      else
        match parse_fraction s2 with
        | None => None
        | Some (fr, s3) =>
            match parse_exponent s3 with
            | None => None
            | Some (ex, s4) => Some (sign ++ int ++ fr ++ ex, s4)
            end
        end
  end.

Fixpoint strip_prefix (p s : jsstring) : option jsstring :=
  match p, s with
  | [], _ => Some s
  | a :: p', b :: s' => if (a =? b)%N then strip_prefix p' s' else None
  | _ :: _, [] => None
  end.

(** [CreateDataProperty]: a repeated name keeps its place and takes the
    later value. *)
Fixpoint set_member (members : list (jsstring * json)) (k : jsstring) (v : json) :
    list (jsstring * json) :=
  match members with
  | [] => [(k, v)]
  | (k', v') :: rest =>
      if bool_decide (k' = k) then (k, v) :: rest
      else (k', v') :: set_member rest k v
  end.

Fixpoint parse_value (fuel : nat) (s : jsstring) : option (json * jsstring) :=
  match fuel with
  | O => None
  | S f =>
      match skip_ws s with
      | [] => None
      | c :: r =>
          if (c =? 34)%N then
            match parse_chars r with
            | Some (str, r') => Some (JString str, r')
            | None => None
            end
          else if (c =? 123)%N then
            match skip_ws r with
            | d :: r' =>
                if (d =? 125)%N then Some (JObject [], r')
                else parse_members f r []
            | [] => None
            end
          else if (c =? 91)%N then
            match skip_ws r with
            | d :: r' =>
                if (d =? 93)%N then Some (JArray [], r')
                else parse_elements f r []
            | [] => None
            end
          else if (c =? 110)%N then
            match strip_prefix (js "ull") r with
            | Some r' => Some (JNull, r')
            | None => None
            end
          else if (c =? 116)%N then
            match strip_prefix (js "rue") r with
            | Some r' => Some (JBool true, r')
            | None => None
            end
          else if (c =? 102)%N then
            match strip_prefix (js "alse") r with
            | Some r' => Some (JBool false, r')
            | None => None
            end
          else
            match parse_number (c :: r) with
            | Some (lit, r') => Some (JNumber lit, r')
            | None => None
            end
      end
  end
with parse_members (fuel : nat) (s : jsstring) (acc : list (jsstring * json)) :
    option (json * jsstring) :=
  match fuel with
  | O => None
  | S f =>
      match skip_ws s with
      | c :: r =>
          if (c =? 34)%N then
            match parse_chars r with
            | Some (k, r1) =>
                match skip_ws r1 with
                | colon :: r2 =>
                    if (colon =? 58)%N then
                      match parse_value f r2 with
                      | Some (v, r3) =>
                          match skip_ws r3 with
                          | d :: r4 =>
                              if (d =? 44)%N then
                                parse_members f r4 (set_member acc k v)
                              else if (d =? 125)%N then
                                Some (JObject (set_member acc k v), r4)
                              else None
                          | [] => None
                          end
                      | None => None
                      end
                    else None
                | [] => None
                end
            | None => None
            end
          else None
      | [] => None
      end
  end
with parse_elements (fuel : nat) (s : jsstring) (acc : list json) :
    option (json * jsstring) :=
  match fuel with
  | O => None
  | S f =>
      match parse_value f s with
      | Some (v, r1) =>
          match skip_ws r1 with
          | d :: r2 =>
              if (d =? 44)%N then parse_elements f r2 (acc ++ [v])
              else if (d =? 93)%N then Some (JArray (acc ++ [v]), r2)
              else None
          | [] => None
          end
      | None => None
      end
  end.

(** [JSON.parse(text)]: one value, white space around it, nothing else;
    anything else is a [SyntaxError].  The length of the text is fuel
    enough for any value it holds. *)
Definition JSON_parse (text : jsstring) : completion json :=
  match parse_value (S (length text)) text with
  | Some (v, rest) =>
      match skip_ws rest with
      | [] => Return v
      | _ :: _ => Throw SyntaxError
      end
  | None => Throw SyntaxError
  end.

(** The parsers use up input, and a parse that succeeds with some fuel
    succeeds with any fuel that is at least what it used up. *)
Definition enough {A} (parse : nat → jsstring → option (A * jsstring))
    (f : nat) : Prop :=
  ∀ s v r, parse f s = Some (v, r) →
    (length r < length s)%nat
    ∧ ∀ f', (length s - length r ≤ f')%nat → parse f' s = Some (v, r).

(** ** [localStorage] and the three operations *)

(** [localStorage]: a map from names to strings; [getItem] of an absent
    name is [null]. *)
Abbreviation storage := (gmap jsstring jsstring).

(** What the area holds, in code units of its names and values. *)
Definition usage (localStorage : storage) : N :=
  map_fold (fun k v n => n + N.of_nat (length k) + N.of_nat (length v))%N 0%N
    localStorage.

(** [localStorage.setItem(k, v)]: the user agent keeps the area within a
    quota, here [quota] code units, and throws a QuotaExceededError,
    leaving the area as it is, when the new item would take it beyond. *)
Definition setItem (quota : N) (k v : jsstring) (localStorage : storage) :
    completion storage :=
  if (usage (<[k := v]> localStorage) <=? quota)%N
  then Return (<[k := v]> localStorage)
  else Throw QuotaExceededError.

Definition saveWalletCredentials (quota : N) (credentials : WalletCredentials)
    (localStorage : storage) : completion storage :=
  setItem quota (js "wallet_credentials") (JSON_stringify credentials)
    localStorage.

Definition getWalletCredentials (localStorage : storage) : completion json :=
  match localStorage !! js "wallet_credentials" with
  | None => Return JNull
  | Some stored =>
      if negb (truthy (Str stored)) then Return JNull
      else
        match JSON_parse stored with
        | Return v => Return v
        | Throw _ => Return JNull
        end
  end.

Definition clearWalletCredentials (localStorage : storage) : storage :=
  delete (js "wallet_credentials") localStorage.

(** A credentials record as the object it is. *)
Definition credentials_object (c : WalletCredentials) : json :=
  JObject [(js "privateKey", JString (privateKey c));
           (js "wsNode", JString (wsNode c));
           (js "httpNode", JString (httpNode c))].

(** The store after a call of [saveWalletCredentials], whether the call
    returned or threw. *)
Definition after_save (quota : N) (c : WalletCredentials)
    (localStorage : storage) : storage :=
  match saveWalletCredentials quota c localStorage with
  | Return saved => saved
  | Throw _ => localStorage
  end.

(** C10 as stated: right after [saveWalletCredentials(c)],
    [getWalletCredentials] returns [c]. *)
Definition reads_back (quota : N) (c : WalletCredentials)
    (localStorage : storage) : Prop :=
  getWalletCredentials (after_save quota c localStorage)
  = Return (credentials_object c).

(** The store with [c] under the key, as [setItem] leaves it when it
    takes the item. *)
Definition with_credentials (c : WalletCredentials) (localStorage : storage) :
    storage :=
  <[js "wallet_credentials" := JSON_stringify c]> localStorage.

(** A quota of 5 Mi code units, and a private key of that length. *)
Definition five_mebi : N := 5242880.

Definition oversized : WalletCredentials :=
  {| privateKey := repeat 97%N (N.to_nat five_mebi);
     wsNode := js "ws://localhost:6061";
     httpNode := js "http://localhost:8000" |}.

Definition earlier : WalletCredentials :=
  {| privateKey := js "5f3a"; wsNode := js "ws://localhost:6061";
     httpNode := js "http://localhost:8000" |}.

End Storage.

(** * The background dispatcher: [public/background.js] *)

Module Background.
Import Js.

(** A registered [handlePanelResponse] closure: the [requestId] it
    compares with and the [sendResponse] it answers through.  Every
    incoming message has a [sendResponse] of its own, named by a number. *)
Record listener := {
  l_requestId : jsstring;
  l_sendResponse : nat;
}.

(** A pending [setTimeout] callback. *)
Record timer := {
  due : Z;
  t_listener : listener;
}.

Record state := {
  listeners : list listener;
  timers : list timer;
  now : Z;
}.

Definition startup : state := {| listeners := []; timers := []; now := 0 |}.

Inductive effect :=
  | console_log (m : message)
  | sendResponse (caller : nat) (response : message)
  | runtime_sendMessage (m : message).

(** Effects are logged with the time at which they happen. *)
Abbreviation log := (list (Z * effect)).

Definition addListener (l : listener) (st : state) : state :=
  {| listeners := listeners st ++ [l]; timers := timers st; now := now st |}.

Definition same_closure (l l' : listener) : bool :=
  Nat.eqb (l_sendResponse l) (l_sendResponse l').

Definition removeListener (l : listener) (st : state) : state :=
  {| listeners := filter (fun l' => same_closure l l' = false) (listeners st);
     timers := timers st; now := now st |}.

Definition setTimeout (l : listener) (delay : Z) (st : state) : state :=
  {| listeners := listeners st;
     timers := timers st ++ [{| due := now st + delay; t_listener := l |}];
     now := now st |}.

Definition supported (m : message) : bool :=
  is_str (method m) (js "getPublicKey")
  || is_str (method m) (js "signMessage")
  || is_str (method m) (js "signIn")
  || is_str (method m) (js "send")
  || is_str (method m) (js "mintToken")
  || is_str (method m) (js "alive").

(** [!message.payload || !Number.isInteger(message.payload.nonce)] *)
Definition nonce_invalid (m : message) : bool :=
  if truthy (payload m) then
    match prop (payload m) (js "nonce") with
    | Return nonce => negb (Number_isInteger nonce)
    | Throw _ => true
    end
  else true.

Definition nonce_error : message :=
  {| type := Undefined; method := Undefined; payload := Undefined;
     requestId := Undefined; id := Undefined; result := Undefined;
     error := Str (js "Nonce must be an integer") |}.

Definition timeout_error : message :=
  {| type := Undefined; method := Undefined; payload := Undefined;
     requestId := Undefined; id := Undefined; result := Undefined;
     error := Str (js "Timeout waiting for user response") |}.

Definition reqMsg (m : message) (rid : jsstring) : message :=
  {| type := Str (js "feeless-wallet-panel-request"); method := method m;
     payload := payload m; requestId := Str rid; id := Undefined;
     result := Undefined; error := Undefined |}.

(** The listener of line 18.  [caller] names the [sendResponse] of this
    message and [random] is what
    [Math.random().toString(36).slice(2)] evaluates to. *)
Definition onMessage (m : message) (caller : nat) (random : jsstring)
    (st : state) : state * log :=
  if supported m then
    let h := {| l_requestId := random; l_sendResponse := caller |} in
    let st1 := addListener h st in
    if is_str (method m) (js "signIn") && nonce_invalid m then
      (removeListener h st1,
       [(now st, console_log m); (now st, sendResponse caller nonce_error)])
    else
      (setTimeout h 12000 st1,
       [(now st, console_log m);
        (now st, runtime_sendMessage (reqMsg m random))])
  else (st, []).

Definition forwarded (responseMessage : message) : message :=
  {| type := Undefined; method := Undefined; payload := Undefined;
     requestId := Undefined; id := Undefined;
     result := result responseMessage; error := error responseMessage |}.

Definition matches (responseMessage : message) (rid : jsstring) : bool :=
  is_str (type responseMessage) (js "feeless-wallet-panel-response")
  && is_str (requestId responseMessage) rid.

(** The closure of line 31. *)
Definition handlePanelResponse (h : listener) (responseMessage : message)
    (st : state) : state * log :=
  if matches responseMessage (l_requestId h) then
    (removeListener h st,
     [(now st, sendResponse (l_sendResponse h) (forwarded responseMessage))])
  else (st, []).

(** The callback of line 63; it runs at the time it is due. *)
Definition onTimeout (t : timer) (st : state) : state * log :=
  (removeListener (t_listener t) st,
   [(due t, sendResponse (l_sendResponse (t_listener t)) timeout_error)]).

(** One message goes to every listener registered when it arrives: the
    listener of line 18 first, then the closures in the order in which
    they were added. *)
Fixpoint notify (hs : list listener) (m : message) (st : state) : state * log :=
  match hs with
  | [] => (st, [])
  | h :: hs' =>
      let '(st1, out1) := handlePanelResponse h m st in
      let '(st2, out2) := notify hs' m st1 in
      (st2, out1 ++ out2)
  end.

Definition deliver (m : message) (caller : nat) (random : jsstring)
    (st : state) : state * log :=
  let registered := listeners st in
  let '(st1, out1) := onMessage m caller random st in
  let '(st2, out2) := notify registered m st1 in
  (st2, out1 ++ out2).

Fixpoint fire (ts : list timer) (st : state) : state * log :=
  match ts with
  | [] => (st, [])
  | t :: ts' =>
      let '(st1, out1) := onTimeout t st in
      let '(st2, out2) := fire ts' st1 in
      (st2, out1 ++ out2)
  end.

(** Time passes: the callbacks that fall due run, the earliest first. *)
Definition elapse (ms : N) (st : state) : state * log :=
  let now' := now st + Z.of_N ms in
  let ready := filter (fun t => due t <=? now') (timers st) in
  let later := filter (fun t => negb (due t <=? now')) (timers st) in
  let '(st1, out) :=
    fire ready {| listeners := listeners st; timers := later; now := now st |} in
  ({| listeners := listeners st1; timers := timers st1; now := now' |}, out).

Inductive event :=
  | Message (m : message) (caller : nat) (random : jsstring)
  | Elapse (ms : N).

Definition dispatch (ev : event) (st : state) : state * log :=
  match ev with
  | Message m caller random => deliver m caller random st
  | Elapse ms => elapse ms st
  end.

Fixpoint trace (evs : list event) (st : state) : state * log :=
  match evs with
  | [] => (st, [])
  | ev :: evs' =>
      let '(st1, out1) := dispatch ev st in
      let '(st2, out2) := trace evs' st1 in
      (st2, out1 ++ out2)
  end.

(** What a caller gets through its [sendResponse], with the times. *)
Fixpoint responses_to (caller : nat) (l : log) : list (Z * message) :=
  match l with
  | [] => []
  | (t, sendResponse c r) :: l' =>
      if Nat.eqb c caller then (t, r) :: responses_to caller l'
      else responses_to caller l'
  | _ :: l' => responses_to caller l'
  end.

Fixpoint broadcasts (l : log) : list message :=
  match l with
  | [] => []
  | (_, runtime_sendMessage m) :: l' => m :: broadcasts l'
  | _ :: l' => broadcasts l'
  end.

(** ** The statements about the dispatcher *)

(** What the content script sends: [{method, payload}]. *)
Definition request (meth : jsstring) (p : value) : message :=
  {| type := Undefined; method := Str meth; payload := p;
     requestId := Undefined; id := Undefined; result := Undefined;
     error := Undefined |}.

(** What the panel sends back. *)
Definition panel_answer (rid : jsstring) (res err : value) : message :=
  {| type := Str (js "feeless-wallet-panel-response"); method := Undefined;
     payload := Undefined; requestId := Str rid; id := Undefined;
     result := res; error := err |}.

(** The dispatcher holds nothing of [caller]: no closure and no timer. *)
Definition quiet (caller : nat) (st : state) : Prop :=
  filter (fun l => l_sendResponse l = caller) (listeners st) = []
  ∧ filter (fun t => l_sendResponse (t_listener t) = caller) (timers st) = [].

(** The first answer a caller is due after its request went out at time
    [t] with identifier [rid]: the first matching panel response, or the
    timeout at the deadline. *)
Fixpoint first_answer (rid : jsstring) (deadline t : Z) (evs : list event) :
    option (Z * message) :=
  match evs with
  | [] => None
  | Message m _ _ :: evs' =>
      if matches m rid then Some (t, forwarded m)
      else first_answer rid deadline t evs'
  | Elapse ms :: evs' =>
      if deadline <=? t + Z.of_N ms then Some (deadline, timeout_error)
      else first_answer rid deadline (t + Z.of_N ms) evs'
  end.

Fixpoint elapsed (evs : list event) : Z :=
  match evs with
  | [] => 0
  | Message _ _ _ :: evs' => elapsed evs'
  | Elapse ms :: evs' => Z.of_N ms + elapsed evs'
  end.

(** No panel response for [rid] is among the events. *)
Definition silent (rid : jsstring) (evs : list event) : bool :=
  forallb (fun ev => match ev with
                     | Message m _ _ => negb (matches m rid)
                     | Elapse _ => true
                     end) evs.

(** No closure and no later message uses the caller's [sendResponse]. *)
Definition fresh (caller : nat) (st : state) (evs : list event) : bool :=
  forallb (fun l => negb (Nat.eqb (l_sendResponse l) caller)) (listeners st)
  && forallb (fun t => negb (Nat.eqb (l_sendResponse (t_listener t)) caller))
       (timers st)
  && forallb (fun ev => match ev with
                        | Message _ c _ => negb (Nat.eqb c caller)
                        | Elapse _ => true
                        end) evs.

(** C1 as stated: the caller gets exactly the first answer. *)
Definition answered_once (m : message) (caller : nat) (rid : jsstring)
    (st : state) (evs : list event) : Prop :=
  ∃ r, first_answer rid (now st + 12000) (now st) evs = Some r
       ∧ responses_to caller (snd (trace (Message m caller rid :: evs) st)) = [r].

(** The dispatcher waits for the panel on behalf of [caller]: it holds
    the one closure and the one timer of its request, not yet due. *)
Definition waiting (caller : nat) (rid : jsstring) (deadline : Z)
    (st : state) : Prop :=
  filter (fun l => l_sendResponse l = caller) (listeners st)
    = [{| l_requestId := rid; l_sendResponse := caller |}]
  ∧ filter (fun t => l_sendResponse (t_listener t) = caller) (timers st)
    = [{| due := deadline;
          t_listener := {| l_requestId := rid; l_sendResponse := caller |} |}]
  ∧ now st < deadline.

End Background.

(** * The approval panel: [src/components/WalletActionModalContext.tsx] *)

Module Panel.
Import Js.

(** The provider is modelled by its state and its handlers, one event
    at a time, as the production build of React runs them.  Of what it
    renders the model keeps what can fail: the fields of the request that
    [renderModalContent] hands to React as children.  A promise of the
    Wallet Client that is rejected is left out.

    The Wallet Client ([FeelessClient] of feeless-utils), by the methods
    the panel calls.  [getPublic] and [signMessage] answer at once; the
    other three return promises, whose settlement is an event. *)
Record FeelessClient := {
  getPublic : value;
  signMessage : value → value;
}.

Inductive wallet_call :=
  | call_getPublic
  | call_signMessage (message : value)
  | call_placeTXV2 (to amount token unlock : value)
  | call_mintToken (airdrop miningReward token : value)
  | call_getMintFee.

(** [WalletActionRequest]: the variant and the optional [id]. *)
Inductive action_type :=
  | GetPublicKey
  | SharePublicKey
  | SignMessage (message : value)
  | SignIn (nonce : value)
  | Send (amount to token unlock : value)
  | MintToken (airdrop miningReward token : value)
  | Alive.

Record WalletActionRequest := {
  a_type : action_type;
  a_id : value;
}.

(** The content of the [modal] state.  [resolve] and [reject] are the
    two functions of the promise [requestAction] returned, named by the
    number of that promise. *)
Record PendingRequest := {
  action : WalletActionRequest;
  resolve : option nat;
  reject : option nat;
  external : bool;
  p_requestId : value;
}.

(** A call of [handleApprove] that waits for the Wallet Client: the
    [modal] and [client] of its closure. *)
Inductive awaited := AwaitPlaceTX | AwaitMintToken.

Record suspended := {
  s_modal : PendingRequest;
  s_client : FeelessClient;
  s_await : awaited;
}.

(** The state of the provider: its four [useState] cells, whether the
    interval of line 126 is set, the calls of [handleApprove] that wait,
    and whether the provider is on the page. *)
Record state := {
  modal : option PendingRequest;
  countdown : Z;
  mintFee : value;
  interval : bool;
  approving : list suspended;
  showCodeBox : bool;
  mounted : bool;
}.

Definition initial : state :=
  {| modal := None; countdown := 10; mintFee := Num (Int 0);
     interval := false; approving := []; showCodeBox := false;
     mounted := true |}.

Inductive effect :=
  | runtime_sendMessage (m : message)
  | call_resolve (promise : nat) (v : value)
  | call_reject (promise : nat) (reason : value)
  | wallet (c : wallet_call).

(** [setModal(next)], with the effect of line 120 that runs when [modal]
    has changed: the interval of the previous run is cleared; a closed
    modal resets the countdown and an open one starts an interval. *)
Definition setModal (next : option PendingRequest) (st : state) : state :=
  match next, modal st with
  | None, None => st
  | None, Some _ =>
      {| modal := None; countdown := 10; mintFee := mintFee st;
         interval := false; approving := approving st;
         showCodeBox := showCodeBox st; mounted := mounted st |}
  | Some _, _ =>
      {| modal := next; countdown := countdown st; mintFee := mintFee st;
         interval := true; approving := approving st;
         showCodeBox := showCodeBox st; mounted := mounted st |}
  end.

Definition panel_response (rid : value) (res err : value) : message :=
  {| type := Str (js "feeless-wallet-panel-response"); method := Undefined;
     payload := Undefined; requestId := rid; id := Undefined;
     result := res; error := err |}.

Definition wallet_response (i : value) (res err : value) : message :=
  {| type := Str (js "feeless-wallet-response"); method := Undefined;
     payload := Undefined; requestId := Undefined; id := i;
     result := res; error := err |}.

Definition external_request (t : action_type) (rid : value) : PendingRequest :=
  {| action := {| a_type := t; a_id := Undefined |}; resolve := None;
     reject := None; external := true; p_requestId := rid |}.

(** [handlePanelRequest] of line 59. *)
Definition handlePanelRequest (client : option FeelessClient)
    (request : message) (st : state) : completion (state * list effect) :=
  if is_str (type request) (js "feeless-wallet-panel-request") then
    match client with
    | None => Return (st, [])
    | Some _ =>
        if is_str (method request) (js "alive") then
          Return (st, [runtime_sendMessage
                         (panel_response (requestId request)
                            (Obj [(js "status", Str (js "alive"))]) Undefined)])
        else if is_str (method request) (js "getPublicKey") then
          Return (setModal (Some (external_request GetPublicKey
                                    (requestId request))) st, [])
        else if is_str (method request) (js "signMessage") then
          m ← prop (payload request) (js "message");
          Return (setModal (Some (external_request (SignMessage m)
                                    (requestId request))) st, [])
        else if is_str (method request) (js "signIn") then
          n ← prop (payload request) (js "nonce");
          Return (setModal (Some (external_request (SignIn n)
                                    (requestId request))) st, [])
        else if is_str (method request) (js "send") then
          amount ← prop (payload request) (js "amount");
          to ← prop (payload request) (js "to");
          token ← prop (payload request) (js "token");
          Return (setModal (Some (external_request
                                    (Send amount to token Undefined)
                                    (requestId request))) st, [])
        else if is_str (method request) (js "mintToken") then
          airdrop ← prop (payload request) (js "airdrop");
          miningReward ← prop (payload request) (js "miningReward");
          token ← prop (payload request) (js "token");
          Return (setModal (Some (external_request
                                    (MintToken airdrop miningReward token)
                                    (requestId request))) st,
                  [wallet call_getMintFee])
        else Return (st, [])
    end
  else Return (st, []).

(** [requestAction] of line 140; [promise] names the promise it returns. *)
Definition requestAction (a : WalletActionRequest) (promise : nat)
    (st : state) : state :=
  setModal (Some {| action := a; resolve := Some promise;
                    reject := Some promise; external := false;
                    p_requestId := Undefined |}) st.

(** The three-way delivery that ends [handleApprove] and [handleReject]. *)
Definition send_outcome (m : PendingRequest) (res err : value)
    (settle : option nat) (call : nat → value → effect) (v : value) :
    list effect :=
  if external m && truthy (p_requestId m) then
    [runtime_sendMessage (panel_response (p_requestId m) res err)]
  else if external m && truthy (a_id (action m)) then
    [runtime_sendMessage (wallet_response (a_id (action m)) res err)]
  else
    match settle with
    | Some p => [call p v]
    | None => []
    end.

Definition respond (m : PendingRequest) (res : value) : list effect :=
  send_outcome m res Undefined (resolve m) call_resolve res.

Definition public_key_result (c : FeelessClient) : value :=
  Obj [(js "publicKey", getPublic c)].

Definition signature_result (c : FeelessClient) (signed : value) : value :=
  Obj [(js "publicKey", getPublic c); (js "signature", signMessage c signed)].

(** [handleApprove] of line 146, up to its first [await] or its end. *)
Definition handleApprove (client : option FeelessClient) (st : state) :
    state * list effect :=
  match modal st with
  | None => (st, [])
  | Some m =>
      match a_type (action m) with
      | GetPublicKey | SharePublicKey =>
          match client with
          | Some c =>
              (setModal None st,
               wallet call_getPublic :: respond m (public_key_result c))
          | None => (setModal None st, respond m Undefined)
          end
      | SignMessage message =>
          match client with
          | Some c =>
              (setModal None st,
               wallet call_getPublic :: wallet (call_signMessage message)
                 :: respond m (signature_result c message))
          | None => (setModal None st, respond m Undefined)
          end
      | SignIn nonce =>
          match client with
          | Some c =>
              (setModal None st,
               wallet call_getPublic
                 :: wallet (call_signMessage (Str (String_ nonce)))
                 :: respond m (signature_result c (Str (String_ nonce))))
          | None => (setModal None st, respond m Undefined)
          end
      | Send amount to token unlock =>
          match client with
          | None => (st, [])
          | Some c =>
              ({| modal := modal st; countdown := countdown st;
                  mintFee := mintFee st; interval := interval st;
                  approving := approving st ++
                    [{| s_modal := m; s_client := c;
                        s_await := AwaitPlaceTX |}];
                  showCodeBox := showCodeBox st; mounted := mounted st |},
               [wallet (call_placeTXV2 to amount token unlock)])
          end
      | MintToken airdrop miningReward token =>
          match client with
          | None => (st, [])
          | Some c =>
              ({| modal := modal st; countdown := countdown st;
                  mintFee := mintFee st; interval := interval st;
                  approving := approving st ++
                    [{| s_modal := m; s_client := c;
                        s_await := AwaitMintToken |}];
                  showCodeBox := showCodeBox st; mounted := mounted st |},
               [wallet (call_mintToken airdrop
                          (match miningReward with
                           | Null => Undefined
                           | v => v
                           end) token)])
          end
      | Alive => (setModal None st, respond m Undefined)
      end
  end.

(** The rest of [handleApprove], when the awaited promise is fulfilled
    with [v]. *)
Definition resume (s : suspended) (v : value) (st : state) :
    state * list effect :=
  let status := if truthy v then Str (js "success") else Str (js "fail") in
  let res :=
    match s_await s with
    | AwaitPlaceTX =>
        Obj [(js "status", status);
             (js "publicKey", getPublic (s_client s));
             (js "signature", match v with Null => Undefined | _ => v end)]
    | AwaitMintToken =>
        Obj [(js "status", status); (js "publicKey", getPublic (s_client s))]
    end in
  (setModal None st, wallet call_getPublic :: respond (s_modal s) res).

(** [handleReject] of line 214. *)
Definition handleReject (st : state) : state * list effect :=
  match modal st with
  | None => (st, [])
  | Some m =>
      (setModal None st,
       send_outcome m Undefined (Str (js "User denied")) (reject m) call_reject
         (Str (js "User denied")))
  end.

(** The interval callback of line 126. *)
Definition tick (st : state) : state * list effect :=
  if interval st then
    if countdown st <=? 1 then
      let '(st1, out) :=
        handleReject {| modal := modal st; countdown := countdown st;
                        mintFee := mintFee st; interval := false;
                        approving := approving st;
                        showCodeBox := showCodeBox st;
                        mounted := mounted st |} in
      ({| modal := modal st1; countdown := 10; mintFee := mintFee st1;
          interval := interval st1; approving := approving st1;
          showCodeBox := showCodeBox st1; mounted := mounted st1 |}, out)
    else
      ({| modal := modal st; countdown := countdown st - 1;
          mintFee := mintFee st; interval := interval st;
          approving := approving st; showCodeBox := showCodeBox st;
          mounted := mounted st |}, [])
  else (st, []).

(** ** What the provider renders *)

(** Whether React takes [v] as a child: text for a string or a number,
    nothing for a boolean, [null] or [undefined], its items for an array;
    an object that is no element makes the render throw ('Objects are not
    valid as a React child'). *)
Fixpoint valid_child (v : value) : bool :=
  match v with
  | Obj _ => false
  | Arr items => forallb valid_child items
  | _ => true
  end.

(** [renderModalContent] of line 235, by the fields of the action that
    it puts into the page as children.  What [fPointsToFLSS] of
    feeless-utils returns for the mint fee is taken to be a number. *)
Definition renderModalContent (showCodeBox : bool)
    (modal : option PendingRequest) : list value :=
  match modal with
  | None => []
  | Some m =>
      match a_type (action m) with
      | GetPublicKey | SharePublicKey => []
      | SignMessage message => if showCodeBox then [message] else []
      | SignIn nonce => [nonce]
      | Send amount to token _ =>
          [amount; if truthy token then token else Str (js "FLSS"); to]
      | MintToken _ _ token => [token]
      | Alive => []
      end
  end.

(** The render of the provider goes through. *)
Definition renders (st : state) : bool :=
  forallb valid_child (renderModalContent (showCodeBox st) (modal st)).

(** A render that throws, with no error boundary above the provider,
    makes React unmount the tree: the cleanups of the two effects run
    (lines 115 and 137), which removes [handlePanelRequest] from the
    runtime's listeners and clears the interval, and the state of the
    provider is gone, shown here as that of a closed modal.  The calls of
    [handleApprove] that wait for the Wallet Client stay. *)
Definition unmount (st : state) : state :=
  {| modal := None; countdown := 10; mintFee := mintFee st;
     interval := false; approving := approving st; showCodeBox := false;
     mounted := false |}.

(** The render that follows a turn in which the request on display or
    [showCodeBox] was set. *)
Definition render (r : state * list effect) : state * list effect :=
  if renders (fst r) then r else (unmount (fst r), snd r).

(** The button of line 270: [setShowCodeBox(v => !v)]. *)
Definition toggleCodeBox (st : state) : state :=
  {| modal := modal st; countdown := countdown st; mintFee := mintFee st;
     interval := interval st; approving := approving st;
     showCodeBox := negb (showCodeBox st); mounted := mounted st |}.

Inductive event :=
  | PanelMessage (request : message)
  | RequestAction (a : WalletActionRequest) (promise : nat)
  | ClickApprove
  | ClickReject
  | Tick
  | WalletSettled (k : nat) (v : value)
  | MintFeeSettled (mf : value)
  | ClickShowMessage.

(** The [k]-th waiting call of [handleApprove] is taken off the list. *)
Definition resumed (k : nat) (st : state) : state :=
  {| modal := modal st; countdown := countdown st; mintFee := mintFee st;
     interval := interval st; approving := delete k (approving st);
     showCodeBox := showCodeBox st; mounted := mounted st |}.

(** One turn of the event loop while the provider is on the page.  An
    exception thrown by a listener is reported and leaves the state as it
    was.  [WalletSettled k v] fulfils the promise that the [k]-th waiting
    [handleApprove] awaits.  The button of [ClickShowMessage] is there
    for a [signMessage] request only.  A turn that sets the request on
    display or [showCodeBox] ends with the render of the new content; the
    other turns show the fields of the request that were on the page
    before, or none. *)
Definition handle (client : option FeelessClient) (ev : event) (st : state) :
    state * list effect :=
  match ev with
  | PanelMessage request =>
      match handlePanelRequest client request st with
      | Return r => render r
      | Throw _ => (st, [])
      end
  | RequestAction a promise => render (requestAction a promise st, [])
  | ClickApprove => handleApprove client st
  | ClickReject => handleReject st
  | Tick => tick st
  | WalletSettled k v =>
      match approving st !! k with
      | None => (st, [])
      | Some s => resume s v (resumed k st)
      end
  | MintFeeSettled mf =>
      ({| modal := modal st; countdown := countdown st; mintFee := mf;
          interval := interval st; approving := approving st;
          showCodeBox := showCodeBox st; mounted := mounted st |}, [])
  | ClickShowMessage =>
      match modal st with
      | Some m =>
          match a_type (action m) with
          | SignMessage _ => render (toggleCodeBox st, [])
          | _ => (st, [])
          end
      | None => (st, [])
      end
  end.

(** One turn once the provider is unmounted: there is no listener, no
    interval and nothing to click, and the setters of the state are
    without effect; a call of [handleApprove] that waits still runs to
    its end when its promise is fulfilled, and sends its result. *)
Definition unmounted (ev : event) (st : state) : state * list effect :=
  match ev with
  | WalletSettled k v =>
      match approving st !! k with
      | None => (st, [])
      | Some s => (resumed k st, snd (resume s v st))
      end
  | _ => (st, [])
  end.

Definition step (client : option FeelessClient) (ev : event) (st : state) :
    state * list effect :=
  if mounted st then handle client ev st else unmounted ev st.

Fixpoint run (client : option FeelessClient) (evs : list event) (st : state) :
    state * list effect :=
  match evs with
  | [] => (st, [])
  | ev :: evs' =>
      let '(st1, out1) := step client ev st in
      let '(st2, out2) := run client evs' st1 in
      (st2, out1 ++ out2)
  end.

(** The states the panel can be in. *)
Inductive reachable (client : option FeelessClient) : state → Prop :=
  | reach_initial : reachable client initial
  | reach_step st ev :
      reachable client st → reachable client (fst (step client ev st)).


(** ** Invariant and the statements about the panel *)

(** What every reachable state of the panel satisfies: a closed modal
    has its countdown reset and no interval, an open one has an interval;
    a pending request is either in-process, with the two functions of one
    promise, or external, without them and without an action id. *)
Definition well_formed (m : PendingRequest) : Prop :=
  if external m
  then resolve m = None ∧ reject m = None ∧ a_id (action m) = Undefined
  else ∃ p, resolve m = Some p ∧ reject m = Some p.

Definition invariant (st : state) : Prop :=
  match modal st with
  | None => countdown st = 10 ∧ interval st = false
  | Some m => interval st = true ∧ 1 ≤ countdown st ≤ 10 ∧ well_formed m
  end.

(** The message [reqMsg] the dispatcher broadcasts. *)
Definition panel_request (meth : jsstring) (p : value) (rid : jsstring) : message :=
  {| type := Str (js "feeless-wallet-panel-request"); method := Str meth;
     payload := p; requestId := Str rid; id := Undefined;
     result := Undefined; error := Undefined |}.

(** A client to evaluate with: its signature of a message is the message. *)
Definition echo_client : FeelessClient :=
  {| getPublic := Str (js "04ab"); signMessage := fun message => message |}.

(** C5: the panel requests that ask for an approval and whose payload
    can be read. *)
Definition asks_approval (request : message) : bool :=
  is_str (type request) (js "feeless-wallet-panel-request")
  && (is_str (method request) (js "getPublicKey")
      || (is_str (method request) (js "signMessage")
          || is_str (method request) (js "signIn")
          || is_str (method request) (js "send")
          || is_str (method request) (js "mintToken"))
         && match payload request with
            | Undefined | Null => false
            | _ => true
            end).

(** C2: the reply to the liveness probe. *)
Definition alive_reply (request : message) : effect :=
  runtime_sendMessage
    (panel_response (requestId request)
       (Obj [(js "status", Str (js "alive"))]) Undefined).

Definition answers_alive (client : option FeelessClient) (request : message)
    (st : state) : Prop :=
  handlePanelRequest client request st = Return (st, [alive_reply request]).

(** C7: the result [res] of an approved request, sent to where the
    request came from. *)
Definition delivered (m : PendingRequest) (res : value) : list effect :=
  if external m then
    [runtime_sendMessage (panel_response (p_requestId m) res Undefined)]
  else
    match resolve m with
    | Some p => [call_resolve p res]
    | None => []
    end.

(** C7: approving signs the decimal numeral of the nonce [n], and the
    public key and the signature are the result that is sent. *)
Definition signs_decimal (c : FeelessClient) (st : state)
    (m : PendingRequest) (n : Z) : Prop :=
  handleApprove (Some c) st =
  (setModal None st,
   [wallet call_getPublic; wallet (call_signMessage (Str (decimal n)))]
     ++ delivered m
          (Obj [(js "publicKey", getPublic c);
                (js "signature", signMessage c (Str (decimal n)))])).

(** C8: the error 'User denied', sent to where the request came from. *)
Definition user_denied (m : PendingRequest) : list effect :=
  if external m then
    [runtime_sendMessage
       (panel_response (p_requestId m) Undefined (Str (js "User denied")))]
  else
    match reject m with
    | Some p => [call_reject p (Str (js "User denied"))]
    | None => []
    end.

Definition denies (st : state) (m : PendingRequest) : Prop :=
  handleReject st = (setModal None st, user_denied m).

Definition is_wallet (e : effect) : bool :=
  match e with wallet _ => true | _ => false end.

(** [setCountdown(c)] *)
Definition with_countdown (st : state) (c : Z) : state :=
  {| modal := modal st; countdown := c; mintFee := mintFee st;
     interval := interval st; approving := approving st;
     showCodeBox := showCodeBox st; mounted := mounted st |}.

(** The requests whose approval awaits a promise of the Wallet Client. *)
Definition awaits_wallet (t : action_type) : bool :=
  match t with
  | Send _ _ _ _ | MintToken _ _ _ => true
  | _ => false
  end.

(** C6 as stated, at the event that presents a request. *)
Definition starts_at_ten (client : option FeelessClient) (st : state)
    (ev : event) : Prop :=
  is_Some (modal (fst (step client ev st))) →
  countdown (fst (step client ev st)) = 10.

(** The panel seven ticks after it presented a first request. *)
Definition seven_ticks_in : state :=
  fst (run (Some echo_client)
         [PanelMessage (panel_request (js "getPublicKey") Undefined (js "r1"));
          Tick; Tick; Tick; Tick; Tick; Tick; Tick] initial).

(** The request that [requestAction] presents. *)
Definition in_process_request (a : WalletActionRequest) (promise : nat) :
    PendingRequest :=
  {| action := a; resolve := Some promise; reject := Some promise;
     external := false; p_requestId := Undefined |}.

(** The provider is on the page and what it shows has been rendered, or
    it is unmounted, with no request and no interval. *)
Definition on_page (st : state) : Prop :=
  if mounted st then renders st = true
  else modal st = None ∧ interval st = false.

(** C5: the events that submit a request. *)
Definition submits (ev : event) : bool :=
  match ev with
  | PanelMessage _ | RequestAction _ _ => true
  | _ => false
  end.

End Panel.

(** * The panel in time: the interval of the countdown *)

Module PanelClock.
Import Js Panel.

(** The panel with a clock: [due] is the time at which the interval of
    line 126 fires next, while there is one. *)
Record clocked := {
  panel : state;
  now : Z;
  due : Z;
}.

(** Effects are logged with the time at which they happen. *)
Definition stamp (t : Z) (out : list effect) : list (Z * effect) :=
  (fun e => (t, e)) <$> out.

(** Whether the event calls [setModal] with a request.  The effect of
    line 120 then clears the interval and sets a new one, which fires
    1000 ms later for the first time.  [handlePanelRequest] calls
    [setModal] or not whatever the state is: asked with nothing pending, a
    pending request afterwards tells that it did. *)
Definition sets_modal (client : option FeelessClient) (ev : event) : bool :=
  match ev with
  | RequestAction _ _ => true
  | PanelMessage request =>
      match handlePanelRequest client request initial with
      | Return (st, _) =>
          match modal st with
          | Some _ => true
          | None => false
          end
      | Throw _ => false
      end
  | _ => false
  end.

(** The callbacks of the interval that fall due until the time [until],
    the earliest first; [n] bounds their number. *)
Fixpoint fire (client : option FeelessClient) (n : nat) (until : Z)
    (c : clocked) : clocked * list (Z * effect) :=
  match n with
  | O => ({| panel := panel c; now := until; due := due c |}, [])
  | S n' =>
      if interval (panel c) && (due c <=? until) then
        let '(st1, out) := step client Tick (panel c) in
        let '(c2, log) :=
          fire client n' until
            {| panel := st1; now := due c; due := due c + 1000 |} in
        (c2, stamp (due c) out ++ log)
      else ({| panel := panel c; now := until; due := due c |}, [])
  end.

(** Time passes: in [ms] ms an interval fires at most once more than
    the thousands in [ms]. *)
Definition elapse (client : option FeelessClient) (ms : N) (c : clocked) :
    clocked * list (Z * effect) :=
  fire client (S (N.to_nat (ms / 1000))) (now c + Z.of_N ms) c.

(** What happens to the panel: an event at the present time, other than
    a tick, or the passing of time, which brings the ticks. *)
Inductive occurrence :=
  | Happens (ev : event)
  | Elapse (ms : N).

Definition occur (client : option FeelessClient) (o : occurrence)
    (c : clocked) : clocked * list (Z * effect) :=
  match o with
  | Elapse ms => elapse client ms c
  | Happens Tick => (c, [])
  | Happens ev =>
      let '(st1, out) := step client ev (panel c) in
      ({| panel := st1; now := now c;
          due := if mounted (panel c) && sets_modal client ev
                 then now c + 1000 else due c |},
       stamp (now c) out)
  end.

Fixpoint history (client : option FeelessClient) (os : list occurrence)
    (c : clocked) : clocked * list (Z * effect) :=
  match os with
  | [] => (c, [])
  | o :: os' =>
      let '(c1, log1) := occur client o c in
      let '(c2, log2) := history client os' c1 in
      (c2, log1 ++ log2)
  end.

(** The time that passes in a sequence of waits. *)
Fixpoint total (waits : list N) : Z :=
  match waits with
  | [] => 0
  | ms :: waits' => Z.of_N ms + total waits'
  end.

(** The panel [passed] ms after it presented a request at the time [t],
    when nothing but time has happened since and the countdown still
    runs. *)
Definition counting (st : state) (t passed : Z) : clocked :=
  {| panel := with_countdown st (10 - passed / 1000);
     now := t + passed;
     due := t + 1000 * (passed / 1000 + 1) |}.

End PanelClock.

(** * The dispatcher: every answer of a request *)

Module Responses.
Import Js Background.

(** The dispatcher has forwarded a panel response to [caller]: the
    closure is gone, the timer of line 63 is still there. *)
Definition armed (caller : nat) (rid : jsstring) (deadline : Z)
    (st : state) : Prop :=
  filter (fun l => l_sendResponse l = caller) (listeners st) = []
  ∧ filter (fun t => l_sendResponse (t_listener t) = caller) (timers st)
    = [{| due := deadline;
          t_listener := {| l_requestId := rid; l_sendResponse := caller |} |}]
  ∧ now st < deadline.

(** What is left to come once a panel response has been forwarded. *)
Fixpoint late_answer (deadline t : Z) (evs : list event) : list (Z * message) :=
  match evs with
  | [] => []
  | Message _ _ _ :: evs' => late_answer deadline t evs'
  | Elapse ms :: evs' =>
      if deadline <=? t + Z.of_N ms then [(deadline, timeout_error)]
      else late_answer deadline (t + Z.of_N ms) evs'
  end.

(** All the answers of a request that went out at time [t] under [rid]. *)
Fixpoint all_answers (rid : jsstring) (deadline t : Z) (evs : list event) :
    list (Z * message) :=
  match evs with
  | [] => []
  | Message m _ _ :: evs' =>
      if matches m rid then (t, forwarded m) :: late_answer deadline t evs'
      else all_answers rid deadline t evs'
  | Elapse ms :: evs' =>
      if deadline <=? t + Z.of_N ms then [(deadline, timeout_error)]
      else all_answers rid deadline (t + Z.of_N ms) evs'
  end.

(** A message that is neither a request nor a panel response. *)
Definition inert (m : message) : bool :=
  negb (supported m)
  && negb (is_str (type m) (js "feeless-wallet-panel-response")).

(** [{ type: "ping" }] of the content script (line 96). *)
Definition ping : message :=
  {| type := Str (js "ping"); method := Undefined; payload := Undefined;
     requestId := Undefined; id := Undefined; result := Undefined;
     error := Undefined |}.

(** [{ type: 'panel-ready' }], which the panel sends when it is mounted
    ([PanelReadyNotifier] of main.tsx). *)
Definition panel_ready : message :=
  {| type := Str (js "panel-ready"); method := Undefined; payload := Undefined;
     requestId := Undefined; id := Undefined; result := Undefined;
     error := Undefined |}.

End Responses.

(** * The panel: outcomes of a request *)

Module Approval.
Import Js Panel.

(** What goes back to where requests came from: the runtime messages and
    the settlements of [requestAction]'s promises, without the calls of
    the Wallet Client. *)
Fixpoint outcomes (out : list effect) : list effect :=
  match out with
  | [] => []
  | e :: out' => if is_wallet e then outcomes out' else e :: outcomes out'
  end.

(** The clicks of the user and the ticks of the interval. *)
Definition user_event (ev : event) : bool :=
  match ev with
  | ClickApprove | ClickReject | Tick => true
  | _ => false
  end.

Definition is_click (ev : event) : bool :=
  match ev with
  | ClickApprove | ClickReject => true
  | _ => false
  end.

Fixpoint ticks (evs : list event) : Z :=
  match evs with
  | [] => 0
  | Tick :: evs' => 1 + ticks evs'
  | _ :: evs' => ticks evs'
  end.

(** The result of an approved [send] or [mintToken], once the promise of
    the Wallet Client is fulfilled with [v] (lines 177 and 191). *)
Definition settled_result (c : FeelessClient) (t : action_type) (v : value) :
    value :=
  let status := if truthy v then Str (js "success") else Str (js "fail") in
  match t with
  | Send _ _ _ _ =>
      Obj [(js "status", status); (js "publicKey", getPublic c);
           (js "signature", match v with Null => Undefined | _ => v end)]
  | MintToken _ _ _ =>
      Obj [(js "status", status); (js "publicKey", getPublic c)]
  | _ => Undefined
  end.

(** A runtime message under the [requestId] [rid]. *)
Definition answers (rid : jsstring) (e : effect) : bool :=
  match e with
  | runtime_sendMessage m => is_str (requestId m) rid
  | _ => false
  end.

(** A message that comes in under [rid]. *)
Definition carries (rid : jsstring) (ev : event) : bool :=
  match ev with
  | PanelMessage request => is_str (requestId request) rid
  | _ => false
  end.

(** A call of [handleApprove] waits under [rid]. *)
Definition awaited_under (rid : jsstring) (st : state) : bool :=
  existsb (fun s => is_str (p_requestId (s_modal s)) rid) (approving st).

(** The panel holds a request under [rid]: pending, or approved and
    waiting for the Wallet Client. *)
Definition holds (rid : jsstring) (st : state) : bool :=
  match modal st with
  | Some m => is_str (p_requestId m) rid
  | None => false
  end
  || awaited_under rid st.

(** The call of the Wallet Client that an approved [send] or [mintToken]
    awaits (lines 170 and 185). *)
Definition wallet_request (t : action_type) : list wallet_call :=
  match t with
  | Send amount to token unlock => [call_placeTXV2 to amount token unlock]
  | MintToken airdrop miningReward token =>
      [call_mintToken airdrop
         (match miningReward with Null => Undefined | v => v end) token]
  | _ => []
  end.

(** A runtime message. *)
Definition sends (e : effect) : bool :=
  match e with
  | runtime_sendMessage _ => true
  | _ => false
  end.

(** All that the panel holds came through [requestAction]. *)
Definition in_process (st : state) : bool :=
  match modal st with
  | Some m => negb (external m)
  | None => true
  end
  && forallb (fun s => negb (external (s_modal s))) (approving st).

(** The panel requests that read their payload. *)
Definition needs_payload (request : message) : bool :=
  is_str (type request) (js "feeless-wallet-panel-request")
  && (is_str (method request) (js "signMessage")
      || is_str (method request) (js "signIn")
      || is_str (method request) (js "send")
      || is_str (method request) (js "mintToken")).

End Approval.

(** * The content script: [public/background.js], from line 72 *)

Module ContentScript.
Import Js.

(** A [MessageEvent] on the page's window, by what the listener reads:
    whether [event.source] is the window itself, and [event.data]. *)
Record MessageEvent := {
  from_window : bool;
  data : value;
}.

(** The listener of line 72: it returns without an effect, or it sends
    one runtime message, whose callback is [onResponse] below.
    [sendMessage] is the completion of the call of
    [chrome.runtime.sendMessage]: the call throws when the runtime does
    not take the message, as it does once the extension has been reloaded
    or for a payload that it cannot serialise, and the listener, which has
    no [try] around it, throws with it. *)
Definition onWindowMessage (sendMessage : completion unit)
    (event : MessageEvent) : completion (option message) :=
  if negb (from_window event) then Return None
  else if truthy (data event) then
    t ← prop (data event) (js "type");
    if is_str t (js "FEELLESS_WALLET_REQUEST") then
      m ← prop (data event) (js "method");
      p ← prop (data event) (js "payload");
      _ ← sendMessage;
      Return (Some {| type := Undefined; method := m; payload := p;
                      requestId := Undefined; id := Undefined;
                      result := Undefined; error := Undefined |})
    else Return None
  else Return None.

(** The callback of the interval of line 94: the ping, in a [try] whose
    [catch] drops what the call throws. *)
Definition onPingInterval (sendMessage : completion unit) :
    completion (option message) :=
  match sendMessage with
  | Return _ => Return (Some Responses.ping)
  | Throw _ => Return None
  end.

(** The callback of line 77: the message it posts to the page. *)
Definition onResponse (event : MessageEvent) (response : value) :
    completion message :=
  m ← prop (data event) (js "method");
  i ← prop (data event) (js "id");
  res ← (if truthy response then prop response (js "result")
         else Return response);
  err ← (if truthy response then prop response (js "error")
         else Return response);
  Return {| type := Str (js "FEELLESS_WALLET_RESPONSE"); method := m;
            payload := Undefined; requestId := Undefined; id := i;
            result := res; error := err |}.

(** [v.k] where it cannot throw. *)
Definition get (v : value) (k : jsstring) : value :=
  match v with
  | Obj props => assoc k props
  | _ => Undefined
  end.

(** The runtime message for the request of [event]: [{method, payload}]. *)
Definition request_of (event : MessageEvent) : message :=
  {| type := Undefined; method := get (data event) (js "method");
     payload := get (data event) (js "payload"); requestId := Undefined;
     id := Undefined; result := Undefined; error := Undefined |}.

(** The events the listener forwards. *)
Definition is_request (event : MessageEvent) : bool :=
  from_window event
  && is_str (get (data event) (js "type")) (js "FEELLESS_WALLET_REQUEST").

(** The message posted for the request of [event] with result [res]
    and error [err]. *)
Definition posted (event : MessageEvent) (res err : value) : message :=
  {| type := Str (js "FEELLESS_WALLET_RESPONSE");
     method := get (data event) (js "method"); payload := Undefined;
     requestId := Undefined; id := get (data event) (js "id");
     result := res; error := err |}.

End ContentScript.

(** * From the page to the dispatcher and back *)

Module Relay.
Import Js Background ContentScript.

(** The object a call [sendResponse({result, error})] hands over. *)
Definition as_value (response : message) : value :=
  Obj [(js "result", result response); (js "error", error response)].

(** The runtime runs the callback of the content script for the first
    call of [sendResponse]; the calls that follow are ignored. *)
Definition page_reply (event : MessageEvent) (answers : list (Z * message)) :
    completion (option (Z * message)) :=
  match answers with
  | [] => Return None
  | (t, response) :: _ =>
      reply ← onResponse event (as_value response);
      Return (Some (t, reply))
  end.

(** A message event on the page, the dispatcher's turn for the message
    the content script sends, what happens at the dispatcher afterwards,
    and the reply the page is posted.  The runtime takes the message: the
    dispatcher is there to receive it. *)
Definition round_trip (event : MessageEvent) (caller : nat) (random : jsstring)
    (st : state) (evs : list Background.event) :
    completion (option (Z * message)) :=
  sent ← onWindowMessage (Return ()) event;
  match sent with
  | None => Return None
  | Some m =>
      page_reply event
        (responses_to caller (snd (trace (Message m caller random :: evs) st)))
  end.

End Relay.

(** * The page, the content script, the dispatcher and the panel *)

Module Extension.
Import Js ContentScript Relay.

(** What the panel sends reaches the dispatcher as messages, each with a
    [sendResponse] of its own, from [sender] on. *)
Fixpoint to_dispatcher (sender : nat) (out : list Panel.effect) :
    list Background.event :=
  match out with
  | [] => []
  | Panel.runtime_sendMessage m :: out' =>
      Background.Message m sender [] :: to_dispatcher (S sender) out'
  | _ :: out' => to_dispatcher sender out'
  end.

(** A request of the page goes through the content script to the
    dispatcher, and, as every runtime message does, to the panel as well;
    the dispatcher's broadcast reaches the panel, where [user] happens;
    [wait] ms after the request what the panel has sent reaches the
    dispatcher, [later] follows there, and the page is posted the reply. *)
Definition ask (event : MessageEvent) (client : option Panel.FeelessClient)
    (caller sender : nat) (random : jsstring) (d : Background.state)
    (p : Panel.state) (user : list Panel.event) (wait : N)
    (later : list Background.event) : completion (option (Z * message)) :=
  sent ← onWindowMessage (Return ()) event;
  match sent with
  | None => Return None
  | Some m =>
      let '(d1, log1) := Background.deliver m caller random d in
      let '(_, out) :=
        Panel.run client
          (Panel.PanelMessage m
             :: (Panel.PanelMessage <$> Background.broadcasts log1) ++ user) p in
      let '(_, log2) :=
        Background.trace
          (Background.Elapse wait :: to_dispatcher sender out ++ later) d1 in
      page_reply event (Background.responses_to caller (log1 ++ log2))
  end.

(** A request at the dispatcher, without the content script: the
    message [m] of [caller] reaches the dispatcher and the panel, the
    broadcast reaches the panel, where [user] happens; [wait] ms later
    what the panel has sent reaches the dispatcher and [later] follows
    there.  The result is what the caller gets through its
    [sendResponse], with the times. *)
Definition call (m : message) (client : option Panel.FeelessClient)
    (caller sender : nat) (random : jsstring) (d : Background.state)
    (p : Panel.state) (user : list Panel.event) (wait : N)
    (later : list Background.event) : list (Z * message) :=
  let '(d1, log1) := Background.deliver m caller random d in
  let '(_, out) :=
    Panel.run client
      (Panel.PanelMessage m
         :: (Panel.PanelMessage <$> Background.broadcasts log1) ++ user) p in
  let '(_, log2) :=
    Background.trace
      (Background.Elapse wait :: to_dispatcher sender out ++ later) d1 in
  Background.responses_to caller (log1 ++ log2).

End Extension.

(** * The login screen: [src/components/LoginScreen.tsx] *)

Module LoginScreen.
Import Js Storage.

(** What [setError] is given: a text, or the [message] of an exception
    that the platform threw, which is the user agent's own. *)
Inductive notice :=
  | Text (s : jsstring)
  | MessageOf (e : exn).

(** The state of the component: the three fields are what the text
    inputs hold. *)
Record login_form := {
  privateKey : jsstring;
  wsNode : jsstring;
  httpNode : jsstring;
  loading : bool;
  error : option notice;
}.

(** [useState] of lines 21 to 27. *)
Definition blank_form : login_form :=
  {| privateKey := []; wsNode := js "ws://localhost:6061";
     httpNode := js "http://localhost:8000"; loading := false;
     error := None |}.

(** [v.k] for a value that [JSON.parse] built and a name that no
    prototype defines; [None] is [undefined]. *)
Fixpoint member (k : jsstring) (members : list (jsstring * json)) : option json :=
  match members with
  | [] => None
  | (k', v) :: rest => if bool_decide (k' = k) then Some v else member k rest
  end.

(** [const { privateKey, wsNode, httpNode } = v] of line 33. *)
Definition destructure (v : json) :
    completion (option json * option json * option json) :=
  match v with
  | JNull => Throw TypeError
  | JObject members =>
      Return (member (js "privateKey") members, member (js "wsNode") members,
              member (js "httpNode") members)
  | _ => Return (None, None, None)
  end.

(** The effect of line 29, by what it passes to [setPrivateKey],
    [setWsNode] and [setHttpNode]; [None] when it calls none of them. *)
Definition mount_effect (localStorage : storage) :
    option (option json * option json * option json) :=
  match localStorage !! js "wallet_credentials" with
  | None => None
  | Some stored =>
      if truthy (Str stored) then
        match (v ← JSON_parse stored; destructure v) with
        | Return fields => Some fields
        | Throw _ => None
        end
      else None
  end.

Inductive login_effect :=
  | call_onLogin (privateKey wsNode httpNode : jsstring).

(** How the call of [onLogin] ends: it returns, or it throws an [Error]
    with a message, or it throws something else. *)
Inductive thrown :=
  | Returns
  | ThrowsError (message : jsstring)
  | ThrowsOther.

(** [handleLogin] of line 50; the last component tells whether the
    promise it returns is rejected.  The [try] of line 56 covers the save
    and the call of [onLogin]: when [setItem] throws, which it does with a
    [DOMException], an instance of [Error], nothing is saved, [onLogin] is
    not called and the [catch] shows the message of the exception. *)
Definition handleLogin (quota : N) (onLogin : thrown) (st : login_form)
    (localStorage : storage) :
    login_form * storage * list login_effect * bool :=
  if negb (truthy (Str (privateKey st))) || negb (truthy (Str (wsNode st)))
     || negb (truthy (Str (httpNode st)))
  then
    ({| privateKey := privateKey st; wsNode := wsNode st;
        httpNode := httpNode st; loading := loading st;
        error := Some (Text (js "Please fill in all fields")) |},
     localStorage, [], false)
  else
    match
      saveWalletCredentials quota
        {| Storage.privateKey := privateKey st; Storage.wsNode := wsNode st;
           Storage.httpNode := httpNode st |} localStorage
    with
    | Throw e =>
        ({| privateKey := privateKey st; wsNode := wsNode st;
            httpNode := httpNode st; loading := false;
            error := Some (MessageOf e) |},
         localStorage, [], true)
    | Return saved =>
        let call := call_onLogin (privateKey st) (wsNode st) (httpNode st) in
        match onLogin with
        | Returns =>
            ({| privateKey := privateKey st; wsNode := wsNode st;
                httpNode := httpNode st; loading := false; error := None |},
             saved, [call], false)
        | ThrowsError message =>
            ({| privateKey := privateKey st; wsNode := wsNode st;
                httpNode := httpNode st; loading := false;
                error := Some (Text message) |},
             saved, [call], true)
        | ThrowsOther =>
            ({| privateKey := privateKey st; wsNode := wsNode st;
                httpNode := httpNode st; loading := false;
                error := Some (Text (js "An error occurred")) |},
             saved, [call], true)
        end
    end.

(** The record of what the three fields hold. *)
Definition entered (st : login_form) : WalletCredentials :=
  {| Storage.privateKey := privateKey st; Storage.wsNode := wsNode st;
     Storage.httpNode := httpNode st |}.

(** All three fields are filled in. *)
Definition filled (st : login_form) : bool :=
  negb (bool_decide (privateKey st = [])) && negb (bool_decide (wsNode st = []))
  && negb (bool_decide (httpNode st = [])).

End LoginScreen.

(** * The screens: [src/App.tsx] *)

Module App.
Import Js.

Inductive Screen := login | home | send | mint.

(** A Wallet Client is named by a number. *)
Record app_state := {
  screen : Screen;
  client : option nat;
  initialToken : option jsstring;
}.

Definition launched : app_state :=
  {| screen := login; client := None; initialToken := None |}.

(** The callback of line 18, when the promise of [newClient.init()] is
    fulfilled with [success]. *)
Definition init_settled (newClient : nat) (success : bool) (st : app_state) : app_state :=
  if success then
    {| screen := home; client := Some newClient; initialToken := initialToken st |}
  else st.

(** [handleNavigate] of line 26. *)
Definition handleNavigate (newScreen : Screen) (token : option jsstring)
    (st : app_state) : app_state :=
  {| screen := newScreen; client := client st; initialToken := token |}.

(** [onBack] of lines 46 and 53. *)
Definition onBack (st : app_state) : app_state :=
  {| screen := home; client := client st; initialToken := initialToken st |}.

(** The screen that is rendered (lines 34 to 55); [None] is a blank page. *)
Definition rendered (st : app_state) : option Screen :=
  match screen st, client st with
  | login, _ => Some login
  | s, Some _ => Some s
  | _, None => None
  end.

(** Where the home screen navigates to: its [onNavigate] is called with
    ['send'] or with ['mint']. *)
Inductive target := to_send | to_mint.

Definition screen_of (t : target) : Screen :=
  match t with to_send => send | to_mint => mint end.

Inductive app_event :=
  | InitSettled (newClient : nat) (success : bool)
  | Navigate (t : target) (token : option jsstring)
  | Back.

(** One event; a handler runs only when the component that calls it is
    on the page. *)
Definition app_step (ev : app_event) (st : app_state) : app_state :=
  match ev with
  | InitSettled newClient success => init_settled newClient success st
  | Navigate t token =>
      match rendered st with
      | Some home => handleNavigate (screen_of t) token st
      | _ => st
      end
  | Back =>
      match rendered st with
      | Some send | Some mint => onBack st
      | _ => st
      end
  end.

Definition app_run (evs : list app_event) (st : app_state) : app_state :=
  fold_left (fun st ev => app_step ev st) evs st.

End App.

(** * The mint screen: [MintScreen], in [src/components/CompactQRCode.tsx]
      from line 57 *)

Module MintScreen.
Import Js.

(** The state that the handlers of the form read and write. *)
Record mint_form := {
  tokenName : jsstring;
  airdrop : jsstring;
  miningReward : jsstring;
  enableMining : bool;
  loading : bool;
  error : option jsstring;
}.

(** [useState] of lines 82 to 87. *)
Definition empty_form : mint_form :=
  {| tokenName := []; airdrop := []; miningReward := []; enableMining := false;
     loading := false; error := None |}.

Definition setError (e : option jsstring) (st : mint_form) : mint_form :=
  {| tokenName := tokenName st; airdrop := airdrop st;
     miningReward := miningReward st; enableMining := enableMining st;
     loading := loading st; error := e |}.

Definition is_upper (c : N) : bool := ((65 <=? c) && (c <=? 90))%N.

(** [toLowerCase] on the letters A to Z.  No other code unit is mapped
    to a letter of [flss], so that [name.toLowerCase() === 'flss'] is the
    comparison after this mapping. *)
Definition lower (c : N) : N := if is_upper c then (c + 32)%N else c.

(** [validateTokenName] of line 148. *)
Definition validateTokenName (name : jsstring) : option jsstring :=
  if bool_decide (name = []) then Some (js "Token name is required")
  else if bool_decide (lower <$> name = js "flss") then
    Some (js "Token name cannot be " ++ [34%N] ++ js "FLSS" ++ [34%N])
  else if (20 <=? length name)%nat then
    Some (js "Token name must be less than 20 characters")
  else if negb (forallb is_upper name) then
    Some (js "Token name must contain only uppercase letters (A-Z) with no spaces or special characters")
  else None.

(** ** [parseInt] *)

(** The number [parseInt] returns: [NaN], an infinity, or the integral
    value of a double with its sign ([-0] has [negative] set). *)
Inductive parsed :=
  | PNaN
  | PInfinity (negative : bool)
  | PNum (negative : bool) (magnitude : Z).

(** [WhiteSpace] and [LineTerminator] *)
Definition is_space (c : N) : bool :=
  ((9 <=? c) && (c <=? 13) || (c =? 32) || (c =? 160) || (c =? 5760)
   || (8192 <=? c) && (c <=? 8202) || (c =? 8232) || (c =? 8233)
   || (c =? 8239) || (c =? 8287) || (c =? 12288) || (c =? 65279))%N.

Fixpoint trim_start (s : jsstring) : jsstring :=
  match s with
  | c :: s' => if is_space c then trim_start s' else s
  | [] => []
  end.

(** The value of a digit in the radix, if it is one. *)
Definition digit_value (radix : Z) (c : N) : option Z :=
  let v :=
    if ((48 <=? c) && (c <=? 57))%N then Z.of_N c - 48
    else if ((97 <=? c) && (c <=? 122))%N then Z.of_N c - 87
    else if ((65 <=? c) && (c <=? 90))%N then Z.of_N c - 55
    else radix in
  if v <? radix then Some v else None.

(** The integer that the longest prefix of digits denotes, after [acc];
    [None] when there is no digit. *)
Fixpoint read_digits (radix : Z) (s : jsstring) (acc : option Z) : option Z :=
  match s with
  | [] => acc
  | c :: s' =>
      match digit_value radix c with
      | Some v =>
          read_digits radix s'
            (Some (radix * match acc with Some a => a | None => 0 end + v))
      | None => acc
      end
  end.

(** A sign at the start: whether it is a minus, and the rest. *)
Definition strip_sign (s : jsstring) : bool * jsstring :=
  match s with
  | c :: s' =>
      if (c =? 45)%N then (true, s')
      else if (c =? 43)%N then (false, s')
      else (false, s)
  | [] => (false, [])
  end.

(** [0x] or [0X] at the start: the radix, and the rest. *)
Definition strip_radix (s : jsstring) : Z * jsstring :=
  match s with
  | c :: x :: s' =>
      if ((c =? 48) && ((x =? 120) || (x =? 88)))%N then (16, s') else (10, s)
  | _ => (10, s)
  end.

(** [parseInt(string)], without a radix. *)
Definition parseInt (string : jsstring) : parsed :=
  let '(negative, s) := strip_sign (trim_start string) in
  let '(radix, s) := strip_radix s in
  match read_digits radix s None with
  | None => PNaN
  | Some mathInt =>
      if round53 mathInt <? 2 ^ 1024 then PNum negative (round53 mathInt)
      else PInfinity negative
  end.

Definition MAX_SAFE_INTEGER : Z := 2 ^ 53 - 1.

Definition isNaN (x : parsed) : bool :=
  match x with PNaN => true | _ => false end.

(** [x < 0], [x <= 0] and [x > Number.MAX_SAFE_INTEGER] *)
Definition negative_ (x : parsed) : bool :=
  match x with
  | PNaN => false
  | PInfinity negative => negative
  | PNum negative m => negative && (0 <? m)
  end.

Definition not_positive (x : parsed) : bool :=
  match x with
  | PNaN => false
  | PInfinity negative => negative
  | PNum negative m => negative || (m =? 0)
  end.

Definition unsafe (x : parsed) : bool :=
  match x with
  | PNaN => false
  | PInfinity negative => negb negative
  | PNum negative m => negb negative && (MAX_SAFE_INTEGER <? m)
  end.

(** [/^\d+$/.test(value)] *)
Definition all_digits (value : jsstring) : bool :=
  negb (bool_decide (value = [])) && forallb Storage.is_digit value.

(** [handleAirdropChange] of line 170. *)
Definition handleAirdropChange (value : jsstring) (st : mint_form) : mint_form :=
  if bool_decide (value = []) || all_digits value then
    let numValue :=
      if bool_decide (value = []) then PNum false 0 else parseInt value in
    if unsafe numValue then
      setError (Some (js "Airdrop amount exceeds maximum safe value")) st
    else
      {| tokenName := tokenName st; airdrop := value;
         miningReward := miningReward st; enableMining := enableMining st;
         loading := loading st; error := None |}
  else st.

(** [handleMiningRewardChange] of line 183. *)
Definition handleMiningRewardChange (value : jsstring) (st : mint_form) : mint_form :=
  if bool_decide (value = []) || all_digits value then
    let numValue :=
      if bool_decide (value = []) then PNum false 0 else parseInt value in
    if unsafe numValue then
      setError (Some (js "Mining reward amount exceeds maximum safe value")) st
    else
      {| tokenName := tokenName st; airdrop := airdrop st;
         miningReward := value; enableMining := enableMining st;
         loading := loading st; error := None |}
  else st.

Inductive mint_effect :=
  | call_mintToken (token : jsstring) (airdrop : parsed)
      (miningReward : option parsed)
  | call_onBack.

(** [handleMint] of line 196, up to its [await]. *)
Definition handleMint (st : mint_form) : mint_form * list mint_effect :=
  match validateTokenName (tokenName st) with
  | Some tokenError => (setError (Some tokenError) st, [])
  | None =>
      if bool_decide (airdrop st = []) then
        (setError (Some (js "Please enter the airdrop amount")) st, [])
      else
        let airdropAmount := parseInt (airdrop st) in
        if isNaN airdropAmount || negative_ airdropAmount then
          (setError (Some (js "Airdrop amount must be a non-negative number")) st,
           [])
        else if unsafe airdropAmount then
          (setError (Some (js "Airdrop amount exceeds maximum safe value")) st, [])
        else
          let submit (reward : option parsed) :=
            ({| tokenName := tokenName st; airdrop := airdrop st;
                miningReward := miningReward st;
                enableMining := enableMining st; loading := true;
                error := None |},
             [call_mintToken (tokenName st) airdropAmount reward]) in
          if enableMining st then
            if bool_decide (miningReward st = []) then
              (setError (Some (js "Please enter the mining reward amount")) st, [])
            else
              let miningRewardAmount := parseInt (miningReward st) in
              if isNaN miningRewardAmount || not_positive miningRewardAmount then
                (setError (Some (js "Mining reward must be a positive number")) st,
                 [])
              else if unsafe miningRewardAmount then
                (setError
                   (Some (js "Mining reward amount exceeds maximum safe value"))
                   st, [])
              else submit (Some miningRewardAmount)
          else submit None
  end.

(** How the promise of [client.mintToken] is settled. *)
Inductive settlement :=
  | Fulfilled (success : bool)
  | RejectedError (message : jsstring)
  | RejectedOther.

(** The rest of [handleMint] (lines 247 to 260). *)
Definition handleMint_settled (s : settlement) (st : mint_form) : mint_form * list mint_effect :=
  match s with
  | Fulfilled true =>
      ({| tokenName := []; airdrop := []; miningReward := [];
          enableMining := false; loading := false; error := error st |},
       [call_onBack])
  | Fulfilled false =>
      ({| tokenName := tokenName st; airdrop := airdrop st;
          miningReward := miningReward st; enableMining := enableMining st;
          loading := false; error := Some (js "Token name is already taken") |},
       [])
  | RejectedError message =>
      ({| tokenName := tokenName st; airdrop := airdrop st;
          miningReward := miningReward st; enableMining := enableMining st;
          loading := false; error := Some message |}, [])
  | RejectedOther =>
      ({| tokenName := tokenName st; airdrop := airdrop st;
          miningReward := miningReward st; enableMining := enableMining st;
          loading := false; error := Some (js "An error occurred") |}, [])
  end.

(** The integer a string of decimal digits denotes. *)
Definition decimal_value (s : jsstring) : Z :=
  fold_left (fun acc c => 10 * acc + (Z.of_N c - 48)) s 0.

(** What the two amount fields can hold: nothing, or decimal digits that
    denote a safe integer. *)
Definition accepted (s : jsstring) : bool :=
  bool_decide (s = [])
  || all_digits s && (decimal_value s <=? MAX_SAFE_INTEGER).

(** The state after [handleMint] has called the Wallet Client. *)
Definition submitted (st : mint_form) : mint_form :=
  {| tokenName := tokenName st; airdrop := airdrop st;
     miningReward := miningReward st; enableMining := enableMining st;
     loading := true; error := None |}.

(** What happens to the form.  [TokenNameChange] carries the value of the
    input in upper case, as [handleTokenNameChange] stores it, and
    [TokenChecked] is a [setError] of the check that follows it. *)
Inductive mint_event :=
  | TokenNameChange (value : jsstring)
  | TokenChecked (e : option jsstring)
  | AirdropChange (value : jsstring)
  | MiningRewardChange (value : jsstring)
  | MiningSwitch (checked : bool)
  | ClickMint
  | MintSettled (s : settlement).

Definition mint_step (ev : mint_event) (st : mint_form) :
    mint_form * list mint_effect :=
  match ev with
  | TokenNameChange value =>
      ({| tokenName := value; airdrop := airdrop st;
          miningReward := miningReward st; enableMining := enableMining st;
          loading := loading st; error := error st |}, [])
  | TokenChecked e => (setError e st, [])
  | AirdropChange value => (handleAirdropChange value st, [])
  | MiningRewardChange value => (handleMiningRewardChange value st, [])
  | MiningSwitch checked =>
      ({| tokenName := tokenName st; airdrop := airdrop st;
          miningReward := miningReward st; enableMining := checked;
          loading := loading st; error := error st |}, [])
  | ClickMint => handleMint st
  | MintSettled s => handleMint_settled s st
  end.

Fixpoint mint_run (evs : list mint_event) (st : mint_form) :
    mint_form * list mint_effect :=
  match evs with
  | [] => (st, [])
  | ev :: evs' =>
      let '(st1, out1) := mint_step ev st in
      let '(st2, out2) := mint_run evs' st1 in
      (st2, out1 ++ out2)
  end.

End MintScreen.

(** * Facts about [Number::toString] *)

Module NumberFacts.
Import Js.

Section NumberToString.

Lemma round53_small (y : Z) : Z.log2 y < 53 → round53 y = y.
Proof.
  intros H. unfold round53.
  destruct (Z.ltb_spec (Z.log2 y) 53); [reflexivity | lia].
Qed.

Lemma round53_large (y : Z) : 53 ≤ Z.log2 y → 2 ^ 53 ≤ round53 y.
Proof.
  intros H. unfold round53.
  destruct (Z.ltb_spec (Z.log2 y) 53); [lia|].
  set (sh := Z.log2 y - 52).
  assert (Hsh : 1 ≤ sh) by (unfold sh; lia).
  assert (Hy : 0 < y).
  { destruct (Z.lt_ge_cases 0 y) as [Hp|Hn]; [exact Hp|].
    rewrite Z.log2_nonpos in H by exact Hn. lia. }
  destruct (Z.log2_spec y Hy) as [Hlo _].
  rewrite Z.shiftr_div_pow2 by lia.
  assert (Hq : 2 ^ 52 ≤ y / 2 ^ sh).
  { apply Z.div_le_lower_bound; [apply Z.pow_pos_nonneg; lia|].
    rewrite Z.mul_comm, <- Z.pow_add_r by lia.
    replace (52 + sh) with (Z.log2 y) by (unfold sh; lia). exact Hlo. }
  set (q := y / 2 ^ sh) in *.
  match goal with
  | |- _ ≤ Z.shiftl ?q' sh => assert (Hq' : 2 ^ 52 ≤ q') by (destruct (_ || _); lia);
      generalize dependent q'
  end.
  intros q' Hq'. rewrite Z.shiftl_mul_pow2 by lia.
  assert (2 ^ 1 ≤ 2 ^ sh) by (apply Z.pow_le_mono_r; lia).
  change (2 ^ 53) with (2 ^ 52 * 2 ^ 1). nia.
Qed.

Lemma reads_back_safe (y z : Z) :
  0 < z ≤ 2 ^ 53 - 1 → round53 y = z → y = z.
Proof.
  intros Hz Hy.
  destruct (Z.lt_ge_cases (Z.log2 y) 53) as [Hs|Hl].
  - rewrite round53_small in Hy by exact Hs. exact Hy.
  - apply round53_large in Hl. lia.
Qed.

Lemma candidate_reads_back (z : Z) (j : nat) (y : Z) :
  candidate z j = Some y → round53 y = z.
Proof.
  unfold candidate.
  repeat match goal with
  | |- context [if ?b && (round53 ?a =? z) then _ else _] =>
      destruct b; cbn [andb]; [destruct (Z.eqb_spec (round53 a) z)|]
  end; intros [= <-] || discriminate; assumption.
Qed.

Lemma shorten_reads_back (fuel j : nat) (z best : Z) :
  round53 best = z → round53 (shorten fuel j z best) = z.
Proof.
  revert j best. induction fuel as [|fuel IH]; intros j best Hb; cbn [shorten].
  - exact Hb.
  - destruct (candidate z j) as [y|] eqn:E; [|exact Hb].
    apply IH. eapply candidate_reads_back, E.
Qed.

Lemma shortest_safe (z : Z) : 0 < z ≤ 2 ^ 53 - 1 → shortest z = z.
Proof.
  intros Hz. apply reads_back_safe; [exact Hz|].
  apply shorten_reads_back, round53_small.
  apply Z.log2_lt_pow2; lia.
Qed.

Lemma Number_toString_pos_safe (z : Z) :
  0 < z ≤ 2 ^ 53 - 1 → Number_toString_pos z = digits z.
Proof.
  intros Hz. unfold Number_toString_pos. rewrite shortest_safe by exact Hz.
  destruct (Z.ltb_spec z (10 ^ 21)); [reflexivity|].
  assert (2 ^ 53 - 1 < 10 ^ 21) by reflexivity. lia.
Qed.

Lemma Number_toString_safe (n : Z) :
  is_safe n → Number_toString (Int n) = decimal n.
Proof.
  unfold is_safe, Number_toString, decimal. intros Hn.
  destruct (Z.eqb_spec n 0) as [->|Hne]; [reflexivity|].
  destruct (Z.ltb_spec n 0).
  - rewrite Number_toString_pos_safe by lia. reflexivity.
  - rewrite Number_toString_pos_safe by lia. reflexivity.
Qed.

End NumberToString.

Example String_of_42 : String_ (Num (Int 42)) = js "42".
Proof. reflexivity. Qed.

Example String_of_minus_7 : String_ (Num (Int (-7))) = js "-7".
Proof. reflexivity. Qed.

Example String_of_2_pow_70 :
  String_ (Num (Int (2 ^ 70))) = js "1.1805916207174113e+21".
Proof. vm_compute. reflexivity. Qed.

Example String_of_10_pow_21 : String_ (Num (Int (10 ^ 21))) = js "1e+21".
Proof. vm_compute. reflexivity. Qed.

End NumberFacts.

(** * Facts about the credential store *)

Module StorageFacts.
Import Js Storage.

Section Fuel.

Local Open Scope nat_scope.

Lemma skip_ws_length (s : jsstring) : length (skip_ws s) ≤ length s.
Proof.
  induction s as [|c s IH]; cbn [skip_ws]; [lia|].
  destruct (is_ws c); cbn [length] in *; lia.
Qed.

Lemma push_length (c : N) (r : option (jsstring * jsstring)) str rest :
  push c r = Some (str, rest) → ∃ str', r = Some (str', rest).
Proof. destruct r as [[? ?]|]; cbn; [intros [= <- <-]; eauto | discriminate]. Qed.

Lemma parse_chars_length_le (n : nat) (s str rest : jsstring) :
  length s ≤ n → parse_chars s = Some (str, rest) → length rest < length s.
Proof.
  revert s str rest. induction n as [|n IH]; intros s str rest Hn.
  { destruct s; [discriminate | cbn in Hn; lia]. }
  destruct s as [|c r]; cbn [parse_chars]; [discriminate|].
  cbn [length] in Hn.
  destruct (c =? 34)%N; [intros [= <- <-]; cbn; lia|].
  destruct (c =? 92)%N.
  - destruct r as [|e r2]; [discriminate|].
    destruct (e =? 117)%N.
    + destruct r2 as [|h1 [|h2 [|h3 [|h4 r3]]]]; try discriminate.
      destruct (hex_value h1), (hex_value h2), (hex_value h3), (hex_value h4);
        try discriminate.
      intros [str' H]%push_length. apply IH in H; cbn [length] in *; lia.
    + destruct (simple_escape e); [|discriminate].
      intros [str' H]%push_length. apply IH in H; cbn [length] in *; lia.
  - destruct (c <? 32)%N; [discriminate|].
    intros [str' H]%push_length. apply IH in H; cbn [length] in *; lia.
Qed.

Lemma parse_chars_length (s str rest : jsstring) :
  parse_chars s = Some (str, rest) → length rest < length s.
Proof. apply (parse_chars_length_le (length s)). lia. Qed.

Lemma take_digits_length (s ds r : jsstring) :
  take_digits s = (ds, r) → length s = length ds + length r.
Proof.
  revert ds r. induction s as [|c s IH]; intros ds r; cbn [take_digits].
  - intros [= <- <-]. reflexivity.
  - destruct (is_digit c).
    + destruct (take_digits s) as [ds' r'] eqn:E. intros [= <- <-].
      cbn [length]. rewrite (IH ds' r' eq_refl). lia.
    + intros [= <- <-]. reflexivity.
Qed.

Lemma parse_fraction_length (s fr r : jsstring) :
  parse_fraction s = Some (fr, r) → length r ≤ length s.
Proof.
  unfold parse_fraction. destruct s as [|c s]; [intros [= <- <-]; lia|].
  destruct (c =? 46)%N; [|intros [= <- <-]; lia].
  destruct (take_digits s) as [ds r'] eqn:E. apply take_digits_length in E.
  destruct ds; [discriminate|]. intros [= <- <-]. cbn [length] in *. lia.
Qed.

Lemma parse_exponent_length (s ex r : jsstring) :
  parse_exponent s = Some (ex, r) → length r ≤ length s.
Proof.
  unfold parse_exponent. destruct s as [|c s]; [intros [= <- <-]; lia|].
  destruct ((c =? 101)%N || (c =? 69)%N); [|intros [= <- <-]; lia].
  destruct (match s with [] => _ | _ => _ end) as [sg r1] eqn:Es.
  assert (Hr1 : length r1 ≤ length s).
  { destruct s as [|g s']; [injection Es as <- <-; lia|].
    destruct ((g =? 43)%N || (g =? 45)%N); injection Es as <- <-;
      cbn [length]; lia. }
  destruct (take_digits r1) as [ds r2] eqn:E. apply take_digits_length in E.
  destruct ds; [discriminate|]. intros [= <- <-]. cbn [length] in *. lia.
Qed.

Lemma parse_number_length (s lit rest : jsstring) :
  parse_number s = Some (lit, rest) → length rest < length s.
Proof.
  unfold parse_number.
  destruct (match s with [] => _ | _ => _ end) as [sign s1] eqn:Es.
  assert (Hs1 : length s1 ≤ length s).
  { destruct s as [|c s']; [injection Es as <- <-; lia|].
    destruct (c =? 45)%N; injection Es as <- <-; cbn [length]; lia. }
  destruct (take_digits s1) as [int s2] eqn:E. apply take_digits_length in E.
  destruct int as [|d more]; [discriminate|].
  destruct ((d =? 48)%N && _); [discriminate|].
  destruct (parse_fraction s2) as [[fr s3]|] eqn:Ef; [|discriminate].
  apply parse_fraction_length in Ef.
  destruct (parse_exponent s3) as [[ex s4]|] eqn:Ee; [|discriminate].
  apply parse_exponent_length in Ee.
  intros [= <- <-]. cbn [length] in *. lia.
Qed.

Lemma strip_prefix_length (p s r : jsstring) :
  strip_prefix p s = Some r → length s = length p + length r.
Proof.
  revert s. induction p as [|a p IH]; intros s; cbn [strip_prefix].
  - intros [= <-]. reflexivity.
  - destruct s as [|b s]; [discriminate|]. destruct (a =? b)%N; [|discriminate].
    intros H%IH. cbn [length]. lia.
Qed.

Lemma fuel_enough (f : nat) :
  enough parse_value f
  ∧ (∀ acc, enough (fun f s => parse_members f s acc) f)
  ∧ (∀ acc, enough (fun f s => parse_elements f s acc) f).
Proof.
  induction f as [|f (IHv & IHm & IHe)].
  { repeat split; intros; discriminate. }
  split; [|split].
  - intros s v r. cbn [parse_value].
    pose proof (skip_ws_length s) as Hws.
    destruct (skip_ws s) as [|c t] eqn:Es; [discriminate|].
    cbn [length] in Hws.
    assert (Hgo : ∀ f', length s - length r ≤ f' → 0 < length s - length r →
              ∃ f'', f' = S f'' ∧ length s - length r - 1 ≤ f'').
    { intros f' H1 H2. destruct f' as [|f'']; [lia|]. exists f''. split; lia. }
    destruct (c =? 34)%N eqn:E34.
    { destruct (parse_chars t) as [[str r']|] eqn:Ec; [|discriminate].
      intros [= <- <-]. apply parse_chars_length in Ec as Hl.
      split; [lia|]. intros f' Hf'.
      destruct (Hgo f' Hf') as (f'' & -> & _); [lia|].
      cbn [parse_value]. rewrite Es, E34, Ec. reflexivity. }
    destruct (c =? 123)%N eqn:E123.
    { pose proof (skip_ws_length t) as Hwt.
      destruct (skip_ws t) as [|d t'] eqn:Et; [discriminate|].
      cbn [length] in Hwt.
      destruct (d =? 125)%N eqn:E125.
      - intros [= <- <-]. split; [lia|]. intros f' Hf'.
        destruct (Hgo f' Hf') as (f'' & -> & _); [lia|].
        cbn [parse_value]. rewrite Es, E34, E123, Et, E125. reflexivity.
      - intros H. apply IHm in H as [Hl Hf]. split; [lia|]. intros f' Hf'.
        destruct (Hgo f' Hf') as (f'' & -> & Hf''); [lia|].
        cbn [parse_value]. rewrite Es, E34, E123, Et, E125. apply Hf. lia. }
    destruct (c =? 91)%N eqn:E91.
    { pose proof (skip_ws_length t) as Hwt.
      destruct (skip_ws t) as [|d t'] eqn:Et; [discriminate|].
      cbn [length] in Hwt.
      destruct (d =? 93)%N eqn:E93.
      - intros [= <- <-]. split; [lia|]. intros f' Hf'.
        destruct (Hgo f' Hf') as (f'' & -> & _); [lia|].
        cbn [parse_value]. rewrite Es, E34, E123, E91, Et, E93. reflexivity.
      - intros H. apply IHe in H as [Hl Hf]. split; [lia|]. intros f' Hf'.
        destruct (Hgo f' Hf') as (f'' & -> & Hf''); [lia|].
        cbn [parse_value]. rewrite Es, E34, E123, E91, Et, E93. apply Hf. lia. }
    destruct (c =? 110)%N eqn:E110.
    { destruct (strip_prefix (js "ull") t) as [r'|] eqn:Ep; [|discriminate].
      intros [= <- <-]. apply strip_prefix_length in Ep as Hl.
      split; [lia|]. intros f' Hf'.
      destruct (Hgo f' Hf') as (f'' & -> & _); [lia|].
      cbn [parse_value]. rewrite Es, E34, E123, E91, E110, Ep. reflexivity. }
    destruct (c =? 116)%N eqn:E116.
    { destruct (strip_prefix (js "rue") t) as [r'|] eqn:Ep; [|discriminate].
      intros [= <- <-]. apply strip_prefix_length in Ep as Hl.
      split; [lia|]. intros f' Hf'.
      destruct (Hgo f' Hf') as (f'' & -> & _); [lia|].
      cbn [parse_value]. rewrite Es, E34, E123, E91, E110, E116, Ep.
      reflexivity. }
    destruct (c =? 102)%N eqn:E102.
    { destruct (strip_prefix (js "alse") t) as [r'|] eqn:Ep; [|discriminate].
      intros [= <- <-]. apply strip_prefix_length in Ep as Hl.
      split; [lia|]. intros f' Hf'.
      destruct (Hgo f' Hf') as (f'' & -> & _); [lia|].
      cbn [parse_value]. rewrite Es, E34, E123, E91, E110, E116, E102, Ep.
      reflexivity. }
    destruct (parse_number (c :: t)) as [[lit r']|] eqn:En; [|discriminate].
    intros [= <- <-]. apply parse_number_length in En as Hl.
    cbn [length] in Hl. split; [lia|]. intros f' Hf'.
    destruct (Hgo f' Hf') as (f'' & -> & _); [lia|].
    cbn [parse_value].
    rewrite Es, E34, E123, E91, E110, E116, E102, En. reflexivity.
  - intros acc s v r. cbn [parse_members].
    pose proof (skip_ws_length s) as Hws.
    destruct (skip_ws s) as [|c t] eqn:Es; [discriminate|].
    cbn [length] in Hws.
    destruct (c =? 34)%N eqn:E34; [|discriminate].
    destruct (parse_chars t) as [[k r1]|] eqn:Ec; [|discriminate].
    apply parse_chars_length in Ec as Hl1.
    pose proof (skip_ws_length r1) as Hw1.
    destruct (skip_ws r1) as [|colon r2] eqn:E1; [discriminate|].
    cbn [length] in Hw1.
    destruct (colon =? 58)%N eqn:E58; [|discriminate].
    destruct (parse_value f r2) as [[v1 r3]|] eqn:Ev; [|discriminate].
    apply IHv in Ev as [Hl3 Hf3].
    pose proof (skip_ws_length r3) as Hw3.
    destruct (skip_ws r3) as [|d r4] eqn:E3; [discriminate|].
    cbn [length] in Hw3.
    destruct (d =? 44)%N eqn:E44.
    + intros H. apply IHm in H as [Hl Hf]. split; [lia|]. intros f' Hf'.
      destruct f' as [|f'']; [lia|]. cbn [parse_members].
      rewrite Es, E34, Ec, E1, E58, Hf3 by lia. rewrite E3, E44. apply Hf. lia.
    + destruct (d =? 125)%N eqn:E125; [|discriminate].
      intros [= <- <-]. split; [lia|]. intros f' Hf'.
      destruct f' as [|f'']; [lia|]. cbn [parse_members].
      rewrite Es, E34, Ec, E1, E58, Hf3 by lia. rewrite E3, E44, E125.
      reflexivity.
  - intros acc s v r. cbn [parse_elements].
    destruct (parse_value f s) as [[v1 r1]|] eqn:Ev; [|discriminate].
    apply IHv in Ev as [Hl1 Hf1].
    pose proof (skip_ws_length r1) as Hw1.
    destruct (skip_ws r1) as [|d r2] eqn:E1; [discriminate|].
    cbn [length] in Hw1.
    destruct (d =? 44)%N eqn:E44.
    + intros H. apply IHe in H as [Hl Hf]. split; [lia|]. intros f' Hf'.
      destruct f' as [|f'']; [lia|]. cbn [parse_elements].
      rewrite Hf1 by lia. rewrite E1, E44. apply Hf. lia.
    + destruct (d =? 93)%N eqn:E93; [|discriminate].
      intros [= <- <-]. split; [lia|]. intros f' Hf'.
      destruct f' as [|f'']; [lia|]. cbn [parse_elements].
      rewrite Hf1 by lia. rewrite E1, E44, E93. reflexivity.
Qed.

(** The fuel of [JSON_parse] is never what makes it fail. *)
Lemma JSON_parse_fuel (f : nat) (text : jsstring) (v : json) (r : jsstring) :
  parse_value f text = Some (v, r) →
  parse_value (S (length text)) text = Some (v, r).
Proof.
  intros H. destruct (fuel_enough f) as (Hv & _ & _).
  apply Hv in H as [_ Hf]. apply Hf. lia.
Qed.

End Fuel.

Example JSON_parse_nested :
  JSON_parse (js " [1, -2.5e3, [true, null], {}] ")
  = Return (JArray [JNumber (js "1"); JNumber (js "-2.5e3");
                    JArray [JBool true; JNull]; JObject []]).
Proof. reflexivity. Qed.

Example JSON_parse_rejects :
  JSON_parse (js "[1,]") = Throw SyntaxError
  ∧ JSON_parse (js "01") = Throw SyntaxError
  ∧ JSON_parse (js "{oops") = Throw SyntaxError
  ∧ JSON_parse (js "null null") = Throw SyntaxError.
Proof. repeat split. Qed.

Section JsonRoundTrip.

Ltac cmp :=
  repeat match goal with
  | |- context [(?a =? ?b)%N] => destruct (N.eqb_spec a b)
  | |- context [(?a <=? ?b)%N] => destruct (N.leb_spec a b)
  | |- context [(?a <? ?b)%N] => destruct (N.ltb_spec a b)
  end.

Lemma hex_value_digit (n : N) : (n < 16)%N → hex_value (hex_digit n) = Some n.
Proof.
  intros Hn. unfold hex_value, hex_digit.
  cmp; simpl; try lia; f_equal; lia.
Qed.

Lemma parse_unicode_escape (c : N) (t : jsstring) :
  (c < 65536)%N →
  parse_chars (unicode_escape c ++ t) = push c (parse_chars t).
Proof.
  intros Hc. unfold unicode_escape. cbn [app parse_chars N.eqb Pos.eqb].
  rewrite !hex_value_digit by (apply N.mod_lt; lia).
  f_equal.
  zify. Z.to_euclidean_division_equations. lia.
Qed.

Lemma parse_escape_unit (c : N) (t : jsstring) :
  parse_chars (escape_unit c ++ t) = push c (parse_chars t).
Proof.
  unfold escape_unit.
  repeat match goal with
  | |- context [(c =? ?b)%N] => destruct (N.eqb_spec c b); [subst c; reflexivity|]
  end.
  destruct ((c <? 32)%N || is_lead c || is_trail c) eqn:E.
  - apply parse_unicode_escape.
    unfold is_lead, is_trail in E.
    revert E. cmp; simpl; intros; try discriminate; lia.
  - apply orb_false_elim in E as [E _]. apply orb_false_elim in E as [E _].
    cbn [app parse_chars].
    destruct (N.eqb_spec c 34); [lia|]. destruct (N.eqb_spec c 92); [lia|].
    rewrite E. reflexivity.
Qed.

Lemma parse_raw_surrogate (c : N) (t : jsstring) :
  is_lead c || is_trail c = true → parse_chars (c :: t) = push c (parse_chars t).
Proof.
  intros H. cbn [parse_chars]. unfold is_lead, is_trail in H. revert H.
  cmp; simpl; intros; try discriminate; try lia; reflexivity.
Qed.

Lemma quote_units_pair (c d : N) (s : jsstring) :
  quote_units (c :: d :: s) =
  if is_lead c && is_trail d then c :: d :: quote_units s
  else escape_unit c ++ quote_units (d :: s).
Proof. reflexivity. Qed.

Lemma parse_quote_units_le (n : nat) (s rest : jsstring) :
  (length s ≤ n)%nat →
  parse_chars (quote_units s ++ 34%N :: rest) = Some (s, rest).
Proof.
  revert s. induction n as [|n IH]; intros s Hlen.
  - destruct s; [reflexivity | simpl in Hlen; lia].
  - destruct s as [|c [|d s']].
    + reflexivity.
    + cbn [quote_units]. rewrite parse_escape_unit. reflexivity.
    + rewrite quote_units_pair. destruct (is_lead c && is_trail d) eqn:E.
      * apply andb_prop in E as [Ec Ed].
        cbn [app]. rewrite parse_raw_surrogate by (rewrite Ec; reflexivity).
        rewrite parse_raw_surrogate by (rewrite Ed; apply orb_true_r).
        rewrite IH by (simpl in *; lia). reflexivity.
      * rewrite <- app_assoc, parse_escape_unit.
        rewrite IH by (simpl in *; lia). reflexivity.
Qed.

Lemma parse_quote_units (s rest : jsstring) :
  parse_chars (quote_units s ++ 34%N :: rest) = Some (s, rest).
Proof. apply (parse_quote_units_le (length s)). lia. Qed.

Lemma quoted_app (s rest : jsstring) :
  QuoteJSONString s ++ rest = 34%N :: quote_units s ++ 34%N :: rest.
Proof. unfold QuoteJSONString. simpl. rewrite <- app_assoc. reflexivity. Qed.

Lemma parse_value_string (f : nat) (s rest : jsstring) :
  parse_value (S f) (QuoteJSONString s ++ rest) = Some (JString s, rest).
Proof.
  rewrite quoted_app. cbn [parse_value skip_ws is_ws N.eqb Pos.eqb orb].
  rewrite parse_quote_units. reflexivity.
Qed.

Lemma parse_member_comma (f : nat) (k v rest : jsstring) acc :
  parse_members (S (S f))
    (QuoteJSONString k ++ 58%N :: QuoteJSONString v ++ 44%N :: rest) acc =
  parse_members (S f) rest (set_member acc k (JString v)).
Proof.
  rewrite quoted_app.
  cbn [parse_members skip_ws is_ws N.eqb Pos.eqb orb].
  rewrite parse_quote_units.
  cbn [skip_ws is_ws N.eqb Pos.eqb orb].
  rewrite parse_value_string. reflexivity.
Qed.

Lemma parse_member_brace (f : nat) (k v rest : jsstring) acc :
  parse_members (S (S f))
    (QuoteJSONString k ++ 58%N :: QuoteJSONString v ++ 125%N :: rest) acc =
  Some (JObject (set_member acc k (JString v)), rest).
Proof.
  rewrite quoted_app.
  cbn [parse_members skip_ws is_ws N.eqb Pos.eqb orb].
  rewrite parse_quote_units.
  cbn [skip_ws is_ws N.eqb Pos.eqb orb].
  rewrite parse_value_string. reflexivity.
Qed.

Lemma parse_credentials (f : nat) (c : WalletCredentials) (rest : jsstring) :
  parse_value (5 + f) (JSON_stringify c ++ rest) = Some (credentials_object c, rest).
Proof.
  unfold JSON_stringify.
  change (js "{") with [123%N]. change (js ":") with [58%N].
  change (js ",") with [44%N]. change (js "}") with [125%N].
  rewrite <- !app_assoc. cbn [app].
  change (5 + f)%nat with (S (S (S (S (S f))))).
  cbn [parse_value skip_ws is_ws N.eqb Pos.eqb orb].
  rewrite quoted_app at 1.
  cbn [skip_ws is_ws N.eqb Pos.eqb orb].
  rewrite !parse_member_comma, parse_member_brace.
  reflexivity.
Qed.

Lemma stringify_length (c : WalletCredentials) :
  (5 ≤ length (JSON_stringify c))%nat.
Proof.
  unfold JSON_stringify, QuoteJSONString.
  repeat (rewrite ?length_app; cbn [length js fmap list_fmap String.list_ascii_of_string]).
  lia.
Qed.

Lemma JSON_parse_stringify (c : WalletCredentials) :
  JSON_parse (JSON_stringify c) = Return (credentials_object c).
Proof.
  unfold JSON_parse.
  pose proof (stringify_length c) as Hlen.
  replace (S (length (JSON_stringify c)))
    with (5 + (length (JSON_stringify c) - 4))%nat by lia.
  rewrite <- (app_nil_r (JSON_stringify c)) at 2.
  rewrite parse_credentials. reflexivity.
Qed.

Lemma stringify_truthy (c : WalletCredentials) :
  truthy (Str (JSON_stringify c)) = true.
Proof. reflexivity. Qed.

End JsonRoundTrip.

(** C9. [getWalletCredentials] returns for every content of the store and
    never throws; it returns [null] when nothing is stored under the key,
    and also when what is stored is not valid JSON. *)
Theorem getWalletCredentials_never_throws (localStorage : storage) :
  (∃ v, getWalletCredentials localStorage = Return v)
  ∧ (localStorage !! js "wallet_credentials" = None →
     getWalletCredentials localStorage = Return JNull)
  ∧ (∀ stored e,
       localStorage !! js "wallet_credentials" = Some stored →
       JSON_parse stored = Throw e →
       getWalletCredentials localStorage = Return JNull).
Proof.
  unfold getWalletCredentials.
  split; [|split].
  - destruct (localStorage !! js "wallet_credentials") as [stored|]; [|eauto].
    destruct (negb (truthy (Str stored))); [eauto|].
    destruct (JSON_parse stored); eauto.
  - intros ->. reflexivity.
  - intros stored e -> ->. destruct (negb (truthy (Str stored))); reflexivity.
Qed.

Lemma getWalletCredentials_never_throws_witness :
  getWalletCredentials {[ js "wallet_credentials" := js "{oops" ]} = Return JNull.
Proof.
  destruct (getWalletCredentials_never_throws
              {[ js "wallet_credentials" := js "{oops" ]}) as (_ & _ & H).
  apply (H (js "{oops") SyntaxError).
  - apply lookup_singleton_eq.
  - reflexivity.
Defined.

Lemma getWalletCredentials_saved (c : WalletCredentials)
    (localStorage : storage) :
  getWalletCredentials (with_credentials c localStorage)
  = Return (credentials_object c).
Proof.
  unfold getWalletCredentials, with_credentials.
  rewrite lookup_insert_eq, stringify_truthy.
  cbn [negb]. rewrite JSON_parse_stringify. reflexivity.
Qed.

Lemma saveWalletCredentials_spec (quota : N) (c : WalletCredentials)
    (localStorage : storage) :
  saveWalletCredentials quota c localStorage
  = if (usage (with_credentials c localStorage) <=? quota)%N
    then Return (with_credentials c localStorage)
    else Throw QuotaExceededError.
Proof. reflexivity. Qed.

Lemma usage_insert (k v : jsstring) (localStorage : storage) :
  usage (<[k := v]> localStorage)
  = (usage (delete k localStorage) + N.of_nat (length k)
     + N.of_nat (length v))%N.
Proof.
  unfold usage. rewrite <- insert_delete_eq.
  rewrite map_fold_insert_L; [reflexivity| |apply lookup_delete_eq].
  intros. lia.
Qed.

Lemma quote_units_length (s : jsstring) :
  (length s ≤ length (quote_units s))%nat.
Proof.
  assert (He : ∀ c, (1 ≤ length (escape_unit c))%nat).
  { intros c. unfold escape_unit, unicode_escape.
    repeat match goal with
    | |- context [if ?b then _ else _] => destruct b
    end; cbn; lia. }
  assert (H : ∀ n s, (length s ≤ n)%nat →
                     (length s ≤ length (quote_units s))%nat).
  { intros n. induction n as [|n IH]; intros [|c [|d rest]] Hn;
      cbn [length] in Hn; try (cbn [quote_units length]; lia).
    - cbn [quote_units length]. specialize (He c). lia.
    - change (quote_units (c :: d :: rest))
        with (if is_lead c && is_trail d then c :: d :: quote_units rest
              else escape_unit c ++ quote_units (d :: rest)).
      destruct (is_lead c && is_trail d).
      + cbn [length]. specialize (IH rest). lia.
      + rewrite length_app. specialize (IH (d :: rest)). cbn [length] in IH.
        specialize (He c). cbn [length]. lia. }
  apply (H (length s)). lia.
Qed.

Lemma stringify_longer (c : WalletCredentials) :
  (length (privateKey c) < length (JSON_stringify c))%nat.
Proof.
  unfold JSON_stringify, QuoteJSONString.
  pose proof (quote_units_length (privateKey c)).
  repeat (rewrite ?length_app; cbn [length]). lia.
Qed.

(** A record whose private key alone fills the quota is refused. *)
Lemma save_refused (quota : N) (c : WalletCredentials) (localStorage : storage) :
  (quota ≤ N.of_nat (length (privateKey c)))%N →
  saveWalletCredentials quota c localStorage = Throw QuotaExceededError.
Proof.
  intros Hq. rewrite saveWalletCredentials_spec.
  destruct (N.leb_spec (usage (with_credentials c localStorage)) quota)
    as [Hle|_]; [exfalso|reflexivity].
  unfold with_credentials in Hle. rewrite usage_insert in Hle.
  pose proof (stringify_longer c) as Hlen. lia.
Qed.

(** C10 as stated fails for a record that [setItem] refuses: with a
    quota of 5 Mi code units and a private key of that length, the save
    throws QuotaExceededError, and reading the credentials right after it
    gives the record that was stored before. *)
Lemma save_beyond_quota_keeps_old :
  saveWalletCredentials five_mebi earlier ∅ = Return (with_credentials earlier ∅)
  ∧ saveWalletCredentials five_mebi oversized (with_credentials earlier ∅)
    = Throw QuotaExceededError
  ∧ getWalletCredentials
      (after_save five_mebi oversized (with_credentials earlier ∅))
    = Return (credentials_object earlier)
  ∧ ¬ reads_back five_mebi oversized (with_credentials earlier ∅).
Proof.
  assert (Hthrow : saveWalletCredentials five_mebi oversized
                     (with_credentials earlier ∅) = Throw QuotaExceededError).
  { apply save_refused.
    change (privateKey oversized) with (repeat 97%N (N.to_nat five_mebi)).
    rewrite repeat_length, Nnat.N2Nat.id. reflexivity. }
  assert (Hafter : after_save five_mebi oversized (with_credentials earlier ∅)
                   = with_credentials earlier ∅).
  { unfold after_save. rewrite Hthrow. reflexivity. }
  split; [vm_compute; reflexivity|]. split; [exact Hthrow|].
  split.
  - rewrite Hafter. apply getWalletCredentials_saved.
  - unfold reads_back. rewrite Hafter, getWalletCredentials_saved.
    intros H. discriminate H.
Qed.

(** C10, amended. When the store takes the record, that is, when the
    area with the record in it is within the quota, reading the
    credentials right after saving it gives the record back; when it is
    not, the save throws QuotaExceededError and leaves the store as it
    was; and reading the credentials right after clearing gives [null]. *)
Theorem save_within_quota_reads_back (quota : N) (c : WalletCredentials)
    (localStorage : storage) :
  ((usage (with_credentials c localStorage) ≤ quota)%N →
   saveWalletCredentials quota c localStorage
     = Return (with_credentials c localStorage)
   ∧ reads_back quota c localStorage)
  ∧ (∀ saved, saveWalletCredentials quota c localStorage = Return saved →
       getWalletCredentials saved = Return (credentials_object c))
  ∧ ((quota < usage (with_credentials c localStorage))%N →
     saveWalletCredentials quota c localStorage = Throw QuotaExceededError
     ∧ after_save quota c localStorage = localStorage)
  ∧ getWalletCredentials (clearWalletCredentials localStorage) = Return JNull.
Proof.
  unfold reads_back, after_save. rewrite saveWalletCredentials_spec.
  destruct (N.leb_spec (usage (with_credentials c localStorage)) quota)
    as [Hle|Hgt].
  - split; [intros _; split; [reflexivity|apply getWalletCredentials_saved]|].
    split; [intros saved [= <-]; apply getWalletCredentials_saved|].
    split; [lia|].
    unfold getWalletCredentials, clearWalletCredentials.
    rewrite lookup_delete_eq. reflexivity.
  - split; [lia|]. split; [intros saved H; discriminate H|].
    split; [intros _; split; reflexivity|].
    unfold getWalletCredentials, clearWalletCredentials.
    rewrite lookup_delete_eq. reflexivity.
Qed.

Lemma save_within_quota_reads_back_witness :
  saveWalletCredentials five_mebi earlier ∅ = Return (with_credentials earlier ∅)
  ∧ reads_back five_mebi earlier ∅.
Proof.
  apply (proj1 (save_within_quota_reads_back five_mebi earlier ∅)).
  vm_compute. discriminate.
Defined.

End StorageFacts.

(** * Facts about the dispatcher *)

Module BackgroundFacts.
Import Js Background.

Section Dispatcher.

Variable caller : nat.

Lemma responses_to_app (l1 l2 : log) :
  responses_to caller (l1 ++ l2) = responses_to caller l1 ++ responses_to caller l2.
Proof.
  induction l1 as [|[t e] l1 IH]; [reflexivity|].
  cbn [app responses_to]. destruct e; try exact IH.
  destruct (Nat.eqb caller0 caller); [cbn [app]; f_equal|]; exact IH.
Qed.

Lemma filter_keeps {A} (P Q : A → Prop) `{∀ x, Decision (P x)}
    `{∀ x, Decision (Q x)} (l : list A) :
  (∀ x, x ∈ l → P x → Q x) → filter P (filter Q l) = filter P l.
Proof.
  induction l as [|x l IH]; intros HPQ; [reflexivity|].
  rewrite !filter_cons.
  assert (Hl : ∀ y, y ∈ l → P y → Q y) by (intros; apply HPQ; [set_solver|done]).
  destruct (decide (Q x)) as [HQ|HQ], (decide (P x)) as [HP|HP];
    rewrite ?filter_cons; try destruct (decide (P x)); try done;
    rewrite ?IH by done; try done.
  exfalso. apply HQ, HPQ; [set_solver|done].
Qed.

Lemma removeListener_others (h : listener) (st : state) :
  l_sendResponse h ≠ caller →
  filter (fun l => l_sendResponse l = caller) (listeners (removeListener h st))
  = filter (fun l => l_sendResponse l = caller) (listeners st).
Proof.
  intros Hne. cbn [removeListener listeners]. apply filter_keeps.
  intros l _ Hl. unfold same_closure. apply Nat.eqb_neq. congruence.
Qed.

Lemma notify_frame (hs : list listener) (m : message) (st : state) :
  timers (fst (notify hs m st)) = timers st
  ∧ now (fst (notify hs m st)) = now st.
Proof.
  revert st. induction hs as [|h hs IH]; intros st; cbn [notify]; [done|].
  destruct (handlePanelResponse h m st) as [st1 out1] eqn:E1.
  destruct (notify hs m st1) as [st2 out2] eqn:E2. cbn [fst].
  specialize (IH st1). rewrite E2 in IH. cbn [fst] in IH.
  unfold handlePanelResponse in E1.
  destruct (matches m (l_requestId h)); injection E1 as <- <-; exact IH.
Qed.

Lemma notify_responses (hs : list listener) (m : message) (st : state) :
  responses_to caller (snd (notify hs m st))
  = flat_map (fun h => if matches m (l_requestId h)
                       then [(now st, forwarded m)] else [])
      (filter (fun l => l_sendResponse l = caller) hs).
Proof.
  revert st. induction hs as [|h hs IH]; intros st; cbn [notify]; [done|].
  destruct (handlePanelResponse h m st) as [st1 out1] eqn:E1.
  destruct (notify hs m st1) as [st2 out2] eqn:E2. cbn [snd].
  specialize (IH st1). rewrite E2 in IH. cbn [snd] in IH.
  rewrite responses_to_app, IH, filter_cons.
  assert (Hnow : now st1 = now st).
  { unfold handlePanelResponse in E1.
    destruct (matches m (l_requestId h)); injection E1 as <- <-; done. }
  rewrite Hnow. unfold handlePanelResponse in E1.
  destruct (decide (l_sendResponse h = caller)) as [Hh|Hh].
  - cbn [flat_map]. f_equal.
    destruct (matches m (l_requestId h)); injection E1 as <- <-; cbn.
    + rewrite Hh, Nat.eqb_refl. done.
    + done.
  - destruct (matches m (l_requestId h)); injection E1 as <- <-; cbn; [|done].
    apply Nat.eqb_neq in Hh. rewrite Hh. done.
Qed.

Lemma notify_listeners (hs : list listener) (m : message) (st : state) :
  (∀ h, h ∈ hs → l_sendResponse h = caller → matches m (l_requestId h) = false) →
  filter (fun l => l_sendResponse l = caller) (listeners (fst (notify hs m st)))
  = filter (fun l => l_sendResponse l = caller) (listeners st).
Proof.
  revert st. induction hs as [|h hs IH]; intros st Hhs; cbn [notify]; [done|].
  destruct (handlePanelResponse h m st) as [st1 out1] eqn:E1.
  destruct (notify hs m st1) as [st2 out2] eqn:E2. cbn [fst].
  specialize (IH st1). rewrite E2 in IH. cbn [fst] in IH.
  rewrite IH by (intros; apply Hhs; [set_solver|done]).
  unfold handlePanelResponse in E1.
  destruct (matches m (l_requestId h)) eqn:Em; injection E1 as <- <-; [|done].
  apply removeListener_others. intros Hc.
  rewrite Hhs in Em; [done|set_solver|done].
Qed.

Lemma fire_frame (ts : list timer) (st : state) :
  timers (fst (fire ts st)) = timers st ∧ now (fst (fire ts st)) = now st.
Proof.
  revert st. induction ts as [|t ts IH]; intros st; cbn [fire]; [done|]. unfold onTimeout.
  destruct (fire ts (removeListener (t_listener t) st)) as [st2 out2] eqn:E2.
  cbn [fst]. specialize (IH (removeListener (t_listener t) st)).
  rewrite E2 in IH. exact IH.
Qed.

Lemma fire_responses (ts : list timer) (st : state) :
  responses_to caller (snd (fire ts st))
  = (fun t => (due t, timeout_error))
      <$> filter (fun t => l_sendResponse (t_listener t) = caller) ts.
Proof.
  revert st. induction ts as [|t ts IH]; intros st; cbn [fire]; [done|]. unfold onTimeout.
  destruct (fire ts (removeListener (t_listener t) st)) as [st2 out2] eqn:E2.
  cbn [snd]. specialize (IH (removeListener (t_listener t) st)).
  rewrite E2 in IH. cbn [snd] in IH.
  cbn [app responses_to]. rewrite IH, filter_cons.
  destruct (decide (l_sendResponse (t_listener t) = caller)) as [Hh|Hh].
  - rewrite Hh, Nat.eqb_refl. done.
  - apply Nat.eqb_neq in Hh. rewrite Hh. done.
Qed.

Lemma fire_listeners (ts : list timer) (st : state) :
  filter (fun t => l_sendResponse (t_listener t) = caller) ts = [] →
  filter (fun l => l_sendResponse l = caller) (listeners (fst (fire ts st)))
  = filter (fun l => l_sendResponse l = caller) (listeners st).
Proof.
  revert st. induction ts as [|t ts IH]; intros st Hts; cbn [fire]; [done|]. unfold onTimeout.
  destruct (fire ts (removeListener (t_listener t) st)) as [st2 out2] eqn:E2.
  cbn [fst]. specialize (IH (removeListener (t_listener t) st)).
  rewrite E2 in IH. cbn [fst] in IH.
  rewrite filter_cons in Hts.
  destruct (decide (l_sendResponse (t_listener t) = caller)); [done|].
  rewrite IH by done. apply removeListener_others. done.
Qed.

Lemma filter_swap {A} (P Q : A → Prop) `{∀ x, Decision (P x)}
    `{∀ x, Decision (Q x)} (l : list A) :
  filter P (filter Q l) = filter Q (filter P l).
Proof.
  induction l as [|x l IH]; [reflexivity|].
  rewrite !filter_cons.
  destruct (decide (Q x)), (decide (P x)); rewrite ?filter_cons;
    repeat case_decide; try done; by rewrite IH.
Qed.

Lemma forallb_filter_nil {A} (f : A → nat) (l : list A) :
  forallb (fun x => negb (Nat.eqb (f x) caller)) l = true →
  filter (fun x => f x = caller) l = [].
Proof.
  induction l as [|x l IH]; [reflexivity|]. cbn [forallb].
  intros [Hx Hl]%andb_prop. rewrite filter_cons.
  apply negb_true_iff, Nat.eqb_neq in Hx.
  destruct (decide (f x = caller)); [done|]. apply IH, Hl.
Qed.

(** A message of another caller leaves the closure and the timer of
    [caller] in place and sends it nothing. *)
Lemma onMessage_others (m : message) (c : nat) (r : jsstring) (st : state) :
  c ≠ caller →
  responses_to caller (snd (onMessage m c r st)) = []
  ∧ filter (fun l => l_sendResponse l = caller)
      (listeners (fst (onMessage m c r st)))
    = filter (fun l => l_sendResponse l = caller) (listeners st)
  ∧ filter (fun t => l_sendResponse (t_listener t) = caller)
      (timers (fst (onMessage m c r st)))
    = filter (fun t => l_sendResponse (t_listener t) = caller) (timers st)
  ∧ now (fst (onMessage m c r st)) = now st.
Proof.
  intros Hc. unfold onMessage.
  assert (Hb : Nat.eqb c caller = false) by (apply Nat.eqb_neq; done).
  destruct (supported m); [|done].
  destruct (is_str (method m) (js "signIn") && nonce_invalid m);
    cbn [fst snd responses_to]; rewrite ?Hb.
  - repeat split; try done.
    rewrite removeListener_others by done.
    cbn [addListener listeners]. rewrite filter_app, filter_cons.
    cbn [l_sendResponse]. destruct (decide (c = caller)); [done|].
    rewrite filter_nil, app_nil_r. done.
  - repeat split; try done.
    + cbn [setTimeout addListener listeners]. rewrite filter_app, filter_cons.
      cbn [l_sendResponse]. destruct (decide (c = caller)); [done|].
      rewrite filter_nil, app_nil_r. done.
    + cbn [setTimeout addListener timers]. rewrite filter_app, filter_cons.
      cbn [t_listener l_sendResponse]. destruct (decide (c = caller)); [done|].
      rewrite filter_nil, app_nil_r. done.
Qed.

Lemma waiting_message (rid : jsstring) (d : Z) (m : message) (c : nat)
    (r : jsstring) (st : state) :
  waiting caller rid d st → c ≠ caller →
  if matches m rid
  then head (responses_to caller (snd (deliver m c r st)))
       = Some (now st, forwarded m)
  else responses_to caller (snd (deliver m c r st)) = []
       ∧ waiting caller rid d (fst (deliver m c r st))
       ∧ now (fst (deliver m c r st)) = now st.
Proof.
  intros (Hl & Ht & Hn) Hc. unfold deliver.
  destruct (onMessage_others m c r st Hc) as (Ho & Hl1 & Ht1 & Hn1).
  destruct (onMessage m c r st) as [st1 out1]. cbn [fst snd] in *.
  pose proof (notify_responses (listeners st) m st1) as Hr.
  pose proof (notify_frame (listeners st) m st1) as [Ht2 Hn2].
  pose proof (notify_listeners (listeners st) m st1) as Hl2.
  destruct (notify (listeners st) m st1) as [st2 out2]. cbn [fst snd] in *.
  rewrite responses_to_app, Ho, Hr, Hl, Hn1. cbn [app flat_map l_requestId].
  destruct (matches m rid) eqn:Em; [reflexivity|].
  split; [reflexivity|]. split; [|congruence].
  repeat split.
  - rewrite Hl2, Hl1; [exact Hl|]. intros h Hh Hmine.
    assert (Hin : h ∈ filter (fun l => l_sendResponse l = caller) (listeners st))
      by (apply list_elem_of_filter; done).
    rewrite Hl in Hin. apply list_elem_of_singleton in Hin. subst h. exact Em.
  - rewrite Ht2, Ht1. exact Ht.
  - lia.
Qed.

Lemma waiting_elapse (rid : jsstring) (d : Z) (ms : N) (st : state) :
  waiting caller rid d st →
  if d <=? now st + Z.of_N ms
  then head (responses_to caller (snd (elapse ms st))) = Some (d, timeout_error)
  else responses_to caller (snd (elapse ms st)) = []
       ∧ waiting caller rid d (fst (elapse ms st))
       ∧ now (fst (elapse ms st)) = now st + Z.of_N ms.
Proof.
  intros (Hl & Ht & Hn). unfold elapse.
  set (now' := now st + Z.of_N ms).
  set (ready := filter (fun t => due t <=? now') (timers st)).
  set (later := filter (fun t => negb (due t <=? now')) (timers st)).
  set (st0 := {| listeners := listeners st; timers := later; now := now st |}).
  pose proof (fire_responses ready st0) as Hr.
  pose proof (fire_frame ready st0) as [Ht2 Hn2].
  pose proof (fire_listeners ready st0) as Hl2.
  destruct (fire ready st0) as [st1 out]. cbn [fst snd] in *.
  unfold ready in Hr, Hl2. rewrite filter_swap, Ht, filter_cons in Hr, Hl2.
  cbn [due] in Hr, Hl2. rewrite Hr.
  destruct (Z.leb_spec d now') as [Hd|Hd].
  - rewrite decide_True by (cbn; done). reflexivity.
  - assert (Hf : ¬ Is_true false) by (cbn; tauto).
    destruct (decide (Is_true false)) as [|_]; [done|].
    split; [reflexivity|]. split; [|reflexivity].
    repeat split; cbn [listeners timers now].
    + rewrite Hl2 by reflexivity. exact Hl.
    + rewrite Ht2. unfold st0, later. cbn [timers].
      rewrite filter_swap, Ht, filter_cons. cbn [due].
      destruct (Z.leb_spec d now'); [lia|].
      rewrite decide_True by (cbn; done). reflexivity.
    + exact Hd.
Qed.

Lemma forallb_events (ev : event) (evs : list event) :
  forallb (fun ev => match ev with
                     | Message _ c _ => negb (Nat.eqb c caller)
                     | Elapse _ => true
                     end) (ev :: evs) = true →
  match ev with Message _ c _ => c ≠ caller | Elapse _ => True end
  ∧ forallb (fun ev => match ev with
                       | Message _ c _ => negb (Nat.eqb c caller)
                       | Elapse _ => true
                       end) evs = true.
Proof.
  cbn [forallb]. intros [He Hevs]%andb_prop. split; [|exact Hevs].
  destruct ev; [|exact I]. apply negb_true_iff, Nat.eqb_neq in He. exact He.
Qed.

Lemma waiting_run (rid : jsstring) (d : Z) (evs : list event) (st : state) :
  waiting caller rid d st →
  forallb (fun ev => match ev with
                     | Message _ c _ => negb (Nat.eqb c caller)
                     | Elapse _ => true
                     end) evs = true →
  head (responses_to caller (snd (trace evs st)))
  = first_answer rid d (now st) evs.
Proof.
  revert st. induction evs as [|ev evs IH]; intros st Hw Hf; [reflexivity|].
  apply forallb_events in Hf as [Hev Hf].
  cbn [trace first_answer]. destruct ev as [m c r|ms]; cbn [dispatch].
  - pose proof (waiting_message rid d m c r st Hw Hev) as Hm.
    destruct (deliver m c r st) as [st1 out1]. cbn [fst snd] in Hm.
    specialize (IH st1).
    destruct (trace evs st1) as [st2 out2]. cbn [snd] in *.
    rewrite responses_to_app.
    destruct (matches m rid).
    + destruct (responses_to caller out1); [discriminate Hm|]. exact Hm.
    + destruct Hm as (-> & Hw1 & Hn1). cbn [app]. rewrite <- Hn1. auto.
  - pose proof (waiting_elapse rid d ms st Hw) as Hm.
    destruct (elapse ms st) as [st1 out1]. cbn [fst snd] in Hm.
    specialize (IH st1).
    destruct (trace evs st1) as [st2 out2]. cbn [snd] in *.
    rewrite responses_to_app.
    destruct (d <=? now st + Z.of_N ms).
    + destruct (responses_to caller out1); [discriminate Hm|]. exact Hm.
    + destruct Hm as (-> & Hw1 & Hn1). cbn [app]. rewrite <- Hn1. auto.
Qed.

Lemma first_answer_due (rid : jsstring) (d t : Z) (evs : list event) :
  d ≤ t + elapsed evs → t < d → is_Some (first_answer rid d t evs).
Proof.
  revert t. induction evs as [|ev evs IH]; intros t Hd Ht; cbn in *; [lia|].
  destruct ev as [m c r|ms].
  - destruct (matches m rid); [eauto|]. apply IH; lia.
  - destruct (Z.leb_spec d (t + Z.of_N ms)); [eauto|]. apply IH; lia.
Qed.

(** After a request that passes validation went out, the closure and
    the timer of its caller are in place. *)
Lemma deliver_waiting (m : message) (rid : jsstring) (st : state) :
  supported m = true →
  is_str (method m) (js "signIn") && nonce_invalid m = false →
  forallb (fun l => negb (Nat.eqb (l_sendResponse l) caller)) (listeners st) = true →
  forallb (fun t => negb (Nat.eqb (l_sendResponse (t_listener t)) caller))
    (timers st) = true →
  responses_to caller (snd (deliver m caller rid st)) = []
  ∧ waiting caller rid (now st + 12000) (fst (deliver m caller rid st))
  ∧ now (fst (deliver m caller rid st)) = now st.
Proof.
  intros Hs Hv Hl Ht.
  apply forallb_filter_nil in Hl. apply forallb_filter_nil in Ht.
  unfold deliver, onMessage. rewrite Hs, Hv.
  set (h := {| l_requestId := rid; l_sendResponse := caller |}).
  set (st1 := setTimeout h 12000 (addListener h st)).
  pose proof (notify_responses (listeners st) m st1) as Hr.
  pose proof (notify_frame (listeners st) m st1) as [Ht2 Hn2].
  pose proof (notify_listeners (listeners st) m st1) as Hl2.
  destruct (notify (listeners st) m st1) as [st2 out2]. cbn [fst snd] in *.
  rewrite Hl in Hr. cbn [flat_map] in Hr.
  cbn [app responses_to]. split; [exact Hr|]. split; [|exact Hn2].
  repeat split.
  - rewrite Hl2.
    + unfold st1. cbn [setTimeout addListener listeners].
      rewrite filter_app, Hl, filter_cons. cbn [h l_sendResponse].
      rewrite decide_True by done. reflexivity.
    + intros h' Hh' Hmine. exfalso.
      eapply (filter_nil_not_elem_of _ _ h'); [exact Hl|exact Hmine|exact Hh'].
  - rewrite Ht2. unfold st1. cbn [setTimeout addListener timers now].
    rewrite filter_app, Ht, filter_cons. cbn [h t_listener l_sendResponse].
    rewrite decide_True by done. reflexivity.
  - rewrite Hn2. unfold st1. cbn. lia.
Qed.

End Dispatcher.

Section Quiet.

Variable caller : nat.

Lemma quiet_message (m : message) (c : nat) (r : jsstring) (st : state) :
  quiet caller st → c ≠ caller →
  responses_to caller (snd (deliver m c r st)) = []
  ∧ quiet caller (fst (deliver m c r st)).
Proof.
  intros [Hl Ht] Hc. unfold deliver.
  destruct (onMessage_others caller m c r st Hc) as (Ho & Hl1 & Ht1 & Hn1).
  destruct (onMessage m c r st) as [st1 out1]. cbn [fst snd] in *.
  pose proof (notify_responses caller (listeners st) m st1) as Hr.
  pose proof (notify_frame (listeners st) m st1) as [Ht2 Hn2].
  pose proof (notify_listeners caller (listeners st) m st1) as Hl2.
  destruct (notify (listeners st) m st1) as [st2 out2]. cbn [fst snd] in *.
  rewrite responses_to_app, Ho, Hr, Hl. split; [reflexivity|]. split.
  - rewrite Hl2, Hl1; [exact Hl|]. intros h Hh Hmine. exfalso.
    eapply (filter_nil_not_elem_of _ _ h); [exact Hl|exact Hmine|exact Hh].
  - rewrite Ht2, Ht1. exact Ht.
Qed.

Lemma quiet_elapse (ms : N) (st : state) :
  quiet caller st →
  responses_to caller (snd (elapse ms st)) = []
  ∧ quiet caller (fst (elapse ms st)).
Proof.
  intros [Hl Ht]. unfold elapse.
  set (now' := now st + Z.of_N ms).
  set (ready := filter (fun t => due t <=? now') (timers st)).
  set (later := filter (fun t => negb (due t <=? now')) (timers st)).
  set (st0 := {| listeners := listeners st; timers := later; now := now st |}).
  pose proof (fire_responses caller ready st0) as Hr.
  pose proof (fire_frame ready st0) as [Ht2 Hn2].
  pose proof (fire_listeners caller ready st0) as Hl2.
  destruct (fire ready st0) as [st1 out]. cbn [fst snd] in *.
  unfold ready in Hr, Hl2. rewrite filter_swap, Ht, filter_nil in Hr, Hl2.
  split; [exact Hr|]. split; cbn [listeners timers].
  - rewrite Hl2 by reflexivity. exact Hl.
  - rewrite Ht2. unfold st0, later. cbn [timers].
    rewrite filter_swap, Ht. reflexivity.
Qed.

Lemma quiet_run (evs : list event) (st : state) :
  quiet caller st →
  forallb (fun ev => match ev with
                     | Message _ c _ => negb (Nat.eqb c caller)
                     | Elapse _ => true
                     end) evs = true →
  responses_to caller (snd (trace evs st)) = [].
Proof.
  revert st. induction evs as [|ev evs IH]; intros st Hq Hf; [reflexivity|].
  apply forallb_events in Hf as [Hev Hf].
  cbn [trace]. destruct ev as [m c r|ms]; cbn [dispatch].
  - destruct (quiet_message m c r st Hq Hev) as [Hr Hq1].
    destruct (deliver m c r st) as [st1 out1]. cbn [fst snd] in *.
    specialize (IH st1 Hq1 Hf).
    destruct (trace evs st1) as [st2 out2]. cbn [snd] in *.
    rewrite responses_to_app, Hr, IH. reflexivity.
  - destruct (quiet_elapse ms st Hq) as [Hr Hq1].
    destruct (elapse ms st) as [st1 out1]. cbn [fst snd] in *.
    specialize (IH st1 Hq1 Hf).
    destruct (trace evs st1) as [st2 out2]. cbn [snd] in *.
    rewrite responses_to_app, Hr, IH. reflexivity.
Qed.

Lemma removeListener_mine (h : listener) (hs : list listener) :
  l_sendResponse h = caller →
  filter (fun l' => same_closure h l' = false)
    (filter (fun l => l_sendResponse l = caller) hs) = [].
Proof.
  intros Hh. induction hs as [|l hs IH]; [reflexivity|].
  rewrite filter_cons.
  destruct (decide (l_sendResponse l = caller)) as [Hl|Hl]; [|exact IH].
  rewrite filter_cons, decide_False; [exact IH|].
  unfold same_closure. rewrite Hh, Hl, Nat.eqb_refl. discriminate.
Qed.

Lemma fire_clears (ts : list timer) (st : state) :
  filter (fun l => l_sendResponse l = caller) (listeners st) = []
  ∨ (∃ t, t ∈ ts ∧ l_sendResponse (t_listener t) = caller) →
  filter (fun l => l_sendResponse l = caller) (listeners (fst (fire ts st))) = [].
Proof.
  revert st. induction ts as [|t ts IH]; intros st H; cbn [fire].
  - destruct H as [H|(t & Ht & _)]; [exact H|]. inversion Ht.
  - unfold onTimeout.
    destruct (fire ts (removeListener (t_listener t) st)) as [st2 out2] eqn:E2.
    cbn [fst]. specialize (IH (removeListener (t_listener t) st)).
    rewrite E2 in IH. cbn [fst] in IH. apply IH.
    cbn [removeListener listeners]. rewrite filter_swap.
    destruct H as [H|(t' & Ht' & Hmine)].
    + left. rewrite H. reflexivity.
    + apply elem_of_cons in Ht' as [->|Ht']; [|right; eauto].
      left. apply removeListener_mine, Hmine.
Qed.

Lemma waiting_elapse_due (rid : jsstring) (d : Z) (ms : N) (st : state) :
  waiting caller rid d st → d ≤ now st + Z.of_N ms →
  responses_to caller (snd (elapse ms st)) = [(d, timeout_error)]
  ∧ quiet caller (fst (elapse ms st)).
Proof.
  intros (Hl & Ht & Hn) Hd. unfold elapse.
  set (now' := now st + Z.of_N ms) in *.
  set (ready := filter (fun t => due t <=? now') (timers st)).
  set (later := filter (fun t => negb (due t <=? now')) (timers st)).
  set (st0 := {| listeners := listeners st; timers := later; now := now st |}).
  set (t0 := {| due := d;
                t_listener := {| l_requestId := rid; l_sendResponse := caller |} |}).
  assert (Hready : filter (fun t => l_sendResponse (t_listener t) = caller) ready
                   = [t0]).
  { unfold ready. rewrite filter_swap, Ht, filter_cons. cbn [due].
    destruct (Z.leb_spec d now'); [|lia].
    rewrite decide_True by (cbn; done). reflexivity. }
  pose proof (fire_responses caller ready st0) as Hr.
  pose proof (fire_frame ready st0) as [Ht2 Hn2].
  pose proof (fire_clears ready st0) as Hl2.
  destruct (fire ready st0) as [st1 out]. cbn [fst snd] in *.
  rewrite Hready in Hr. split; [exact Hr|]. split; cbn [listeners timers].
  - apply Hl2. right. exists t0. split; [|reflexivity].
    assert (Hin : t0 ∈ filter (fun t => l_sendResponse (t_listener t) = caller)
                         ready) by (rewrite Hready; set_solver).
    apply list_elem_of_filter in Hin. tauto.
  - rewrite Ht2. unfold st0, later. cbn [timers].
    rewrite filter_swap, Ht, filter_cons. cbn [due].
    destruct (Z.leb_spec d now'); [|lia].
    rewrite decide_False by (cbn; tauto). reflexivity.
Qed.

(** When no panel response comes in time, the timeout error is all the
    caller gets. *)
Lemma waiting_run_timeout (rid : jsstring) (d : Z) (evs : list event)
    (st : state) :
  waiting caller rid d st →
  forallb (fun ev => match ev with
                     | Message _ c _ => negb (Nat.eqb c caller)
                     | Elapse _ => true
                     end) evs = true →
  first_answer rid d (now st) evs = Some (d, timeout_error) →
  responses_to caller (snd (trace evs st)) = [(d, timeout_error)].
Proof.
  revert st. induction evs as [|ev evs IH]; intros st Hw Hf Hfirst;
    [discriminate Hfirst|].
  apply forallb_events in Hf as [Hev Hf].
  cbn [trace first_answer] in *. destruct ev as [m c r|ms]; cbn [dispatch].
  - pose proof (waiting_message caller rid d m c r st Hw Hev) as Hm.
    destruct (deliver m c r st) as [st1 out1]. cbn [fst snd] in Hm.
    specialize (IH st1).
    destruct (trace evs st1) as [st2 out2]. cbn [snd] in *.
    rewrite responses_to_app.
    destruct (matches m rid).
    + injection Hfirst as Hnow _. destruct Hw as (_ & _ & Hlt). lia.
    + destruct Hm as (-> & Hw1 & Hn1). cbn [app]. rewrite <- Hn1 in Hfirst. auto.
  - destruct (Z.leb_spec d (now st + Z.of_N ms)) as [Hd|Hd].
    + destruct (waiting_elapse_due rid d ms st Hw Hd) as [Hr Hq].
      destruct (elapse ms st) as [st1 out1]. cbn [fst snd] in *.
      pose proof (quiet_run evs st1 Hq Hf) as Hrun.
      destruct (trace evs st1) as [st2 out2]. cbn [snd] in *.
      rewrite responses_to_app, Hr, Hrun. reflexivity.
    + pose proof (waiting_elapse caller rid d ms st Hw) as Hm.
      destruct (Z.leb_spec d (now st + Z.of_N ms)); [lia|].
      destruct (elapse ms st) as [st1 out1]. cbn [fst snd] in Hm.
      specialize (IH st1).
      destruct (trace evs st1) as [st2 out2]. cbn [snd] in *.
      rewrite responses_to_app. destruct Hm as (-> & Hw1 & Hn1). cbn [app].
      rewrite <- Hn1 in Hfirst. auto.
Qed.

End Quiet.

Lemma broadcasts_app (l1 l2 : log) :
  broadcasts (l1 ++ l2) = broadcasts l1 ++ broadcasts l2.
Proof.
  induction l1 as [|[t e] l1 IH]; [reflexivity|].
  cbn [app broadcasts]. destruct e; cbn [app]; try f_equal; exact IH.
Qed.

Lemma notify_broadcasts (hs : list listener) (m : message) (st : state) :
  broadcasts (snd (notify hs m st)) = [].
Proof.
  revert st. induction hs as [|h hs IH]; intros st; cbn [notify]; [done|].
  unfold handlePanelResponse.
  destruct (matches m (l_requestId h)).
  - specialize (IH (removeListener h st)).
    destruct (notify hs m (removeListener h st)). exact IH.
  - specialize (IH st). destruct (notify hs m st). exact IH.
Qed.

Lemma nonce_invalid_spec (m : message) :
  truthy (payload m) = false
  ∨ (∃ nonce, prop (payload m) (js "nonce") = Return nonce
              ∧ Number_isInteger nonce = false) →
  nonce_invalid m = true.
Proof.
  unfold nonce_invalid. intros [->|(nonce & -> & ->)]; [reflexivity|].
  destruct (truthy (payload m)); reflexivity.
Qed.

(** C3. A [signIn] request without a payload, or whose [payload.nonce]
    is not an integer, is answered in the same turn with the error
    'Nonce must be an integer'; nothing is broadcast, no timer is set and
    no closure is left, so that this answer stays the only one. *)
Theorem signIn_invalid_nonce_rejected (m : message) (caller : nat)
    (rid : jsstring) (st : state) (evs : list event) :
  is_str (method m) (js "signIn") = true →
  truthy (payload m) = false
  ∨ (∃ nonce, prop (payload m) (js "nonce") = Return nonce
              ∧ Number_isInteger nonce = false) →
  fresh caller st evs = true →
  snd (onMessage m caller rid st)
    = [(now st, console_log m); (now st, sendResponse caller nonce_error)]
  ∧ timers (fst (onMessage m caller rid st)) = timers st
  ∧ broadcasts (snd (deliver m caller rid st)) = []
  ∧ responses_to caller (snd (trace (Message m caller rid :: evs) st))
    = [(now st, nonce_error)].
Proof.
  intros Hm Hbad Hfresh.
  apply nonce_invalid_spec in Hbad.
  unfold fresh in Hfresh.
  apply andb_prop in Hfresh as [[Hl Ht]%andb_prop Hevs].
  apply forallb_filter_nil in Hl. apply forallb_filter_nil in Ht.
  assert (Hon : onMessage m caller rid st
                = (removeListener {| l_requestId := rid; l_sendResponse := caller |}
                     (addListener {| l_requestId := rid; l_sendResponse := caller |} st),
                   [(now st, console_log m);
                    (now st, sendResponse caller nonce_error)])).
  { unfold onMessage, supported. rewrite Hm, Hbad, !orb_true_r. reflexivity. }
  rewrite Hon. cbn [fst snd].
  split; [reflexivity|]. split; [reflexivity|].
  cbn [trace dispatch]. unfold deliver. rewrite Hon.
  set (st1 := removeListener _ _).
  pose proof (notify_responses caller (listeners st) m st1) as Hr.
  pose proof (notify_frame (listeners st) m st1) as [Ht2 Hn2].
  pose proof (notify_listeners caller (listeners st) m st1) as Hl2.
  pose proof (notify_broadcasts (listeners st) m st1) as Hb.
  destruct (notify (listeners st) m st1) as [st2 out2]. cbn [fst snd] in *.
  split; [rewrite broadcasts_app, Hb; reflexivity|].
  assert (Hq : quiet caller st2).
  { split.
    - rewrite Hl2.
      + unfold st1. cbn [removeListener addListener listeners].
        rewrite filter_swap, filter_app, Hl, filter_cons. cbn [l_sendResponse].
        rewrite decide_True by done. cbn [app]. rewrite filter_cons.
        unfold same_closure. cbn [l_sendResponse]. rewrite Nat.eqb_refl.
        rewrite decide_False by done. reflexivity.
      + intros h Hh Hmine. exfalso.
        eapply (filter_nil_not_elem_of _ _ h); [exact Hl|exact Hmine|exact Hh].
    - rewrite Ht2. exact Ht. }
  pose proof (quiet_run caller evs st2 Hq Hevs) as Hrun.
  destruct (trace evs st2) as [st3 out3]. cbn [snd] in *.
  rewrite !responses_to_app, Hr, Hl, Hrun.
  cbn [responses_to flat_map app]. rewrite Nat.eqb_refl. reflexivity.
Qed.

Lemma signIn_invalid_nonce_rejected_witness :
  responses_to 1
    (snd (trace [Message (request (js "signIn") (Obj [(js "nonce", Str (js "42"))]))
                 1 (js "k3x9");
               Elapse 12000] startup))
  = [(0, nonce_error)].
Proof.
  refine (proj2 (proj2 (proj2
    (signIn_invalid_nonce_rejected
       (request (js "signIn") (Obj [(js "nonce", Str (js "42"))]))
       1 (js "k3x9") startup [Elapse 12000] _ _ _)))).
  - reflexivity.
  - right. exists (Str (js "42")). split; reflexivity.
  - reflexivity.
Defined.

(** C1 as stated fails for a [signIn] request that does not pass the
    validation of line 46: its one answer is the validation error, given
    at once, and neither a panel response nor the timeout. *)
Lemma invalid_signIn_gets_neither :
  responses_to 1
    (snd (trace [Message (request (js "signIn") Undefined) 1 (js "k3x9");
               Elapse 12000] startup))
  = [(0, nonce_error)]
  ∧ ¬ answered_once (request (js "signIn") Undefined) 1 (js "k3x9") startup
        [Elapse 12000].
Proof.
  split; [reflexivity|]. intros (r & Hr & Hresp).
  vm_compute in Hr. injection Hr as <-. vm_compute in Hresp. discriminate Hresp.
Qed.

(** The timer of line 63 is never cleared: after a panel response has
    been forwarded, [sendResponse] is called again when the timer fires. *)
Lemma timeout_fires_after_panel_response :
  responses_to 1
    (snd (trace [Message (request (js "getPublicKey") Undefined) 1 (js "k3x9");
               Elapse 3000;
               Message (panel_answer (js "k3x9") (Str (js "04ab")) Undefined)
                 2 (js "p0");
               Elapse 9000] startup))
  = [(3000, forwarded (panel_answer (js "k3x9") (Str (js "04ab")) Undefined));
     (12000, timeout_error)].
Proof. reflexivity. Qed.

(** C1, amended. A request with a supported method that passes the
    validation of line 46 is broadcast under the generated [requestId],
    and the first answer its caller gets is the first matching panel
    response that arrives within 12000 ms, otherwise the timeout error at
    12000 ms after the dispatch; once 12000 ms have passed there is an
    answer, and when it is the timeout error there is no other. *)
Theorem dispatcher_first_answer (m : message) (caller : nat) (rid : jsstring)
    (st : state) (evs : list event) :
  supported m = true →
  is_str (method m) (js "signIn") && nonce_invalid m = false →
  fresh caller st evs = true →
  broadcasts (snd (deliver m caller rid st)) = [reqMsg m rid]
  ∧ head (responses_to caller (snd (trace (Message m caller rid :: evs) st)))
    = first_answer rid (now st + 12000) (now st) evs
  ∧ (12000 ≤ elapsed evs →
     is_Some (first_answer rid (now st + 12000) (now st) evs))
  ∧ (first_answer rid (now st + 12000) (now st) evs
       = Some (now st + 12000, timeout_error) →
     responses_to caller (snd (trace (Message m caller rid :: evs) st))
       = [(now st + 12000, timeout_error)]).
Proof.
  intros Hs Hv Hfresh. unfold fresh in Hfresh.
  apply andb_prop in Hfresh as [[Hl Ht]%andb_prop Hevs].
  split; [|split; [|split]].
  - unfold deliver, onMessage. rewrite Hs, Hv.
    match goal with |- context [notify ?hs m ?s] =>
      pose proof (notify_broadcasts hs m s) as Hb; destruct (notify hs m s)
    end. cbn [snd] in *. rewrite broadcasts_app, Hb. reflexivity.
  - cbn [trace dispatch].
    destruct (deliver_waiting caller m rid st Hs Hv Hl Ht) as (Hr & Hw & Hn).
    destruct (deliver m caller rid st) as [st1 out1]. cbn [fst snd] in *.
    pose proof (waiting_run caller rid (now st + 12000) evs st1 Hw Hevs) as Hrun.
    destruct (trace evs st1) as [st2 out2]. cbn [snd] in *.
    rewrite responses_to_app, Hr, Hn in *. exact Hrun.
  - intros He. apply first_answer_due; lia.
  - intros Hfirst. cbn [trace dispatch].
    destruct (deliver_waiting caller m rid st Hs Hv Hl Ht) as (Hr & Hw & Hn).
    destruct (deliver m caller rid st) as [st1 out1]. cbn [fst snd] in *.
    rewrite <- Hn in Hfirst at 2.
    pose proof (waiting_run_timeout caller rid (now st + 12000) evs st1 Hw Hevs
                  Hfirst) as Hrun.
    destruct (trace evs st1) as [st2 out2]. cbn [snd] in *.
    rewrite responses_to_app, Hr. exact Hrun.
Qed.

Lemma first_answer_silent (rid : jsstring) (d t : Z) (evs : list event) :
  silent rid evs = true → t < d → d ≤ t + elapsed evs →
  first_answer rid d t evs = Some (d, timeout_error).
Proof.
  revert t. induction evs as [|ev evs IH]; intros t Hs Ht Hd; cbn in *; [lia|].
  apply andb_prop in Hs as [Hev Hs]. destruct ev as [m c r|ms].
  - apply negb_true_iff in Hev. rewrite Hev. apply IH; auto.
  - destruct (Z.leb_spec d (t + Z.of_N ms)); [reflexivity|]. apply IH; auto; lia.
Qed.

(** When the panel stays silent (as it does without a Wallet Client),
    the caller gets the timeout error after 12000 ms and nothing else. *)
Lemma timeout_when_panel_silent (m : message) (caller : nat) (rid : jsstring)
    (st : state) (evs : list event) :
  supported m = true →
  is_str (method m) (js "signIn") && nonce_invalid m = false →
  fresh caller st evs = true →
  silent rid evs = true →
  12000 ≤ elapsed evs →
  responses_to caller (snd (trace (Message m caller rid :: evs) st))
  = [(now st + 12000, timeout_error)].
Proof.
  intros Hs Hv Hfresh Hsilent He. unfold fresh in Hfresh.
  apply andb_prop in Hfresh as [[Hl Ht]%andb_prop Hevs].
  cbn [trace dispatch].
  destruct (deliver_waiting caller m rid st Hs Hv Hl Ht) as (Hr & Hw & Hn).
  destruct (deliver m caller rid st) as [st1 out1]. cbn [fst snd] in *.
  assert (Hfirst : first_answer rid (now st + 12000) (now st1) evs
                   = Some (now st + 12000, timeout_error))
    by (apply first_answer_silent; auto; lia).
  pose proof (waiting_run_timeout caller rid (now st + 12000) evs st1 Hw Hevs
                Hfirst) as Hrun.
  destruct (trace evs st1) as [st2 out2]. cbn [snd] in *.
  rewrite responses_to_app, Hr. exact Hrun.
Qed.

Lemma dispatcher_first_answer_witness :
  head (responses_to 1
    (snd (trace [Message (request (js "getPublicKey") Undefined) 1 (js "k3x9");
               Elapse 3000;
               Message (panel_answer (js "k3x9") (Str (js "04ab")) Undefined)
                 2 (js "p0");
               Elapse 9000] startup)))
  = Some (3000, forwarded (panel_answer (js "k3x9") (Str (js "04ab")) Undefined)).
Proof.
  refine (proj1 (proj2
    (dispatcher_first_answer (request (js "getPublicKey") Undefined) 1
       (js "k3x9") startup
       [Elapse 3000;
        Message (panel_answer (js "k3x9") (Str (js "04ab")) Undefined) 2 (js "p0");
        Elapse 9000] _ _ _))); reflexivity.
Defined.

End BackgroundFacts.

(** * Facts about the panel *)

Module PanelFacts.
Import Js Panel NumberFacts.

Section Invariant.

Variable client : option FeelessClient.

Lemma setModal_None (st : state) :
  setModal None st =
  match modal st with
  | None => st
  | Some _ => {| modal := None; countdown := 10; mintFee := mintFee st;
                 interval := false; approving := approving st;
                 showCodeBox := showCodeBox st; mounted := mounted st |}
  end.
Proof. reflexivity. Qed.

Lemma setModal_Some (m : PendingRequest) (st : state) :
  setModal (Some m) st =
  {| modal := Some m; countdown := countdown st; mintFee := mintFee st;
     interval := true; approving := approving st;
     showCodeBox := showCodeBox st; mounted := mounted st |}.
Proof. reflexivity. Qed.

Lemma invariant_close (st : state) : invariant st → invariant (setModal None st).
Proof.
  unfold invariant. rewrite setModal_None.
  destruct (modal st) eqn:E; cbn; [auto | rewrite E; auto].
Qed.

Lemma invariant_open (m : PendingRequest) (st : state) :
  invariant st → well_formed m → invariant (setModal (Some m) st).
Proof.
  unfold invariant. rewrite setModal_Some. cbn.
  destruct (modal st); intros H Hm; repeat split; try exact Hm; lia.
Qed.

Lemma well_formed_external (t : action_type) (rid : value) :
  well_formed (external_request t rid).
Proof. cbn. auto. Qed.

Lemma invariant_handlePanelRequest (request : message) (st st' : state) out :
  invariant st →
  handlePanelRequest client request st = Return (st', out) →
  invariant st'.
Proof.
  intros Hinv. unfold handlePanelRequest.
  destruct (is_str (type request) _); [|intros [= <- <-]; exact Hinv].
  destruct client as [c|]; [|intros [= <- <-]; exact Hinv].
  repeat match goal with
  | |- context [if is_str (method request) ?s then _ else _] =>
      destruct (is_str (method request) s)
  end;
  repeat match goal with
  | |- context [prop ?v ?k] => destruct (prop v k); cbn [mbind completion_bind]
  end;
  intros [= <- <-] || discriminate;
  try exact Hinv; apply invariant_open; auto using well_formed_external.
Qed.

Lemma invariant_handleReject (st : state) :
  invariant st → invariant (fst (handleReject st)).
Proof.
  intros H. unfold handleReject.
  destruct (modal st) eqn:E; cbn [fst]; [apply invariant_close|]; exact H.
Qed.

Lemma invariant_handleApprove (st : state) :
  invariant st → invariant (fst (handleApprove client st)).
Proof.
  intros H. unfold handleApprove.
  destruct (modal st) as [m|] eqn:E; [|exact H].
  destruct (a_type (action m)), client; cbn [fst];
    try (apply invariant_close; exact H); try exact H;
    unfold invariant in *; cbn; rewrite E in *; exact H.
Qed.

Lemma invariant_render (r : state * list effect) :
  invariant (fst r) → invariant (fst (render r)).
Proof.
  intros H. unfold render. destruct (renders (fst r)); [exact H|].
  cbn. auto.
Qed.

Lemma invariant_handle (ev : event) (st : state) :
  invariant st → invariant (fst (handle client ev st)).
Proof.
  intros H. destruct ev; cbn [handle].
  - destruct (handlePanelRequest client request st) as [[st' out]|e] eqn:E;
      [|exact H].
    apply invariant_render. eapply invariant_handlePanelRequest; eauto.
  - apply invariant_render. cbn [fst].
    apply invariant_open; [exact H|]. cbn. eauto.
  - apply invariant_handleApprove, H.
  - apply invariant_handleReject, H.
  - unfold tick. destruct (interval st) eqn:Ei; [|exact H].
    destruct (Z.leb_spec (countdown st) 1).
    + unfold handleReject. cbn [modal].
      destruct (modal st) as [m|] eqn:Em; cbn; [split; reflexivity|].
      unfold invariant in H. rewrite Em in H. destruct H; congruence.
    + unfold invariant in *. cbn. destruct (modal st).
      * destruct H as (? & ? & ?). repeat split; auto; lia.
      * destruct H; congruence.
  - destruct (approving st !! k) as [s|]; [|exact H].
    unfold resume. cbn [fst]. apply invariant_close.
    unfold invariant in *. cbn. exact H.
  - unfold invariant in *. cbn. exact H.
  - destruct (modal st) as [m|] eqn:Em; [|exact H].
    destruct (a_type (action m)); try exact H.
    apply invariant_render. unfold invariant in *. cbn. rewrite Em in *.
    exact H.
Qed.

Lemma invariant_unmounted (ev : event) (st : state) :
  invariant st → invariant (fst (unmounted ev st)).
Proof.
  intros H. destruct ev; cbn [unmounted fst]; try exact H.
  destruct (approving st !! k); [|exact H].
  unfold invariant in *. cbn. exact H.
Qed.

Lemma step_mounted (ev : event) (st : state) :
  mounted st = true → step client ev st = handle client ev st.
Proof. intros H. unfold step. rewrite H. reflexivity. Qed.

Lemma invariant_step (ev : event) (st : state) :
  invariant st → invariant (fst (step client ev st)).
Proof.
  intros H. unfold step. destruct (mounted st).
  - apply invariant_handle, H.
  - apply invariant_unmounted, H.
Qed.

Lemma reachable_invariant (st : state) : reachable client st → invariant st.
Proof.
  induction 1 as [|st ev _ IH].
  - cbn. auto.
  - apply invariant_step, IH.
Qed.

(** What a turn leaves of the page when it does not present a request:
    the provider stays on the page, with what it showed or with nothing. *)
Lemma renders_same (st st' : state) :
  showCodeBox st' = showCodeBox st →
  modal st' = modal st ∨ modal st' = None →
  renders st = true → renders st' = true.
Proof.
  unfold renders. intros -> [->| ->]; [auto|reflexivity].
Qed.

Lemma handlePanelRequest_page (request : message) (st st' : state) out :
  handlePanelRequest client request st = Return (st', out) →
  mounted st' = mounted st ∧ showCodeBox st' = showCodeBox st
  ∧ approving st' = approving st.
Proof.
  unfold handlePanelRequest.
  destruct (is_str (type request) _); [|intros [= <- <-]; auto].
  destruct client as [c|]; [|intros [= <- <-]; auto].
  repeat match goal with
  | |- context [if is_str (method request) ?s then _ else _] =>
      destruct (is_str (method request) s)
  end;
  repeat match goal with
  | |- context [prop ?v ?k] => destruct (prop v k); cbn [mbind completion_bind]
  end;
  intros [= <- <-] || discriminate; auto.
Qed.

Lemma setModal_page (next : option PendingRequest) (st : state) :
  mounted (setModal next st) = mounted st
  ∧ showCodeBox (setModal next st) = showCodeBox st
  ∧ approving (setModal next st) = approving st.
Proof. destruct next, (modal st) eqn:E; cbn; rewrite ?E; auto. Qed.

Lemma setModal_None_slot (st : state) :
  modal (setModal None st) = None.
Proof. rewrite setModal_None. destruct (modal st) eqn:E; [reflexivity|exact E]. Qed.

Lemma handleReject_page (st : state) :
  mounted (fst (handleReject st)) = mounted st
  ∧ showCodeBox (fst (handleReject st)) = showCodeBox st
  ∧ (modal (fst (handleReject st)) = modal st
     ∨ modal (fst (handleReject st)) = None).
Proof.
  unfold handleReject. destruct (modal st) eqn:E; cbn [fst]; [|auto].
  destruct (setModal_page None st) as (-> & -> & _).
  rewrite setModal_None_slot. auto.
Qed.

Lemma handleApprove_page (st : state) :
  mounted (fst (handleApprove client st)) = mounted st
  ∧ showCodeBox (fst (handleApprove client st)) = showCodeBox st
  ∧ (modal (fst (handleApprove client st)) = modal st
     ∨ modal (fst (handleApprove client st)) = None).
Proof.
  unfold handleApprove. destruct (modal st) as [m|] eqn:E; [|auto].
  destruct (a_type (action m)), client; cbn [fst];
    first [ destruct (setModal_page None st) as (-> & -> & _);
            rewrite setModal_None_slot; auto
          | auto ].
Qed.

Lemma tick_page (st : state) :
  mounted (fst (tick st)) = mounted st
  ∧ showCodeBox (fst (tick st)) = showCodeBox st
  ∧ (modal (fst (tick st)) = modal st ∨ modal (fst (tick st)) = None).
Proof.
  unfold tick. destruct (interval st); [|auto].
  destruct (countdown st <=? 1); [|cbn; auto].
  unfold handleReject. cbn [modal].
  destruct (modal st) as [m|] eqn:E; cbn; auto.
Qed.

Lemma resume_page (s : suspended) (v : value) (st : state) :
  mounted (fst (resume s v st)) = mounted st
  ∧ showCodeBox (fst (resume s v st)) = showCodeBox st
  ∧ modal (fst (resume s v st)) = None.
Proof.
  unfold resume. cbn [fst]. destruct (setModal_page None st) as (-> & -> & _).
  rewrite setModal_None_slot. auto.
Qed.

Lemma render_slot (r : state * list effect) :
  snd (render r) = snd r
  ∧ (fst (render r) = fst r ∧ renders (fst r) = true
     ∨ fst (render r) = unmount (fst r) ∧ renders (fst r) = false).
Proof. unfold render. destruct (renders (fst r)) eqn:E; destruct r; auto. Qed.

(** The slot after a turn that submits no request is what it was, or
    empty. *)
Lemma step_slot (ev : event) (st : state) :
  submits ev = false →
  modal (fst (step client ev st)) = modal st
  ∨ modal (fst (step client ev st)) = None.
Proof.
  intros Hev. unfold step. destruct (mounted st).
  - destruct ev; try discriminate Hev; cbn [handle].
    + apply handleApprove_page.
    + apply handleReject_page.
    + apply tick_page.
    + destruct (approving st !! k); [|auto]. right. apply resume_page.
    + cbn. auto.
    + destruct (modal st) as [m|] eqn:Em; [|auto].
      destruct (a_type (action m)); auto.
      destruct (render_slot (toggleCodeBox st, [])) as [_ [[-> _]|[-> _]]];
        cbn; auto.
  - destruct ev; cbn [unmounted fst]; auto.
    destruct (approving st !! k); cbn; auto.
Qed.

Lemma on_page_render (r : state * list effect) :
  mounted (fst r) = true → on_page (fst (render r)).
Proof.
  intros Hm. unfold on_page.
  destruct (render_slot r) as [_ [[-> Hr]|[-> _]]].
  - rewrite Hm. exact Hr.
  - cbn. auto.
Qed.

Lemma on_page_keeps (st st' : state) :
  mounted st = true → renders st = true →
  mounted st' = mounted st ∧ showCodeBox st' = showCodeBox st
  ∧ (modal st' = modal st ∨ modal st' = None) →
  on_page st'.
Proof.
  intros Hm Hr (Hm' & Hs & Hslot). unfold on_page. rewrite Hm', Hm.
  eapply renders_same; eauto.
Qed.

Lemma on_page_step (ev : event) (st : state) :
  on_page st → on_page (fst (step client ev st)).
Proof.
  unfold step. intros H. pose proof H as H'. unfold on_page in H'.
  destruct (mounted st) eqn:Hm.
  - destruct ev; cbn [handle].
    + destruct (handlePanelRequest client request st) as [[st' out]|e] eqn:E;
        [|exact H].
      apply on_page_render. cbn [fst].
      apply handlePanelRequest_page in E as (-> & _). exact Hm.
    + apply on_page_render. cbn [fst]. unfold requestAction.
      destruct (setModal_page
                  (Some {| action := a; resolve := Some promise;
                           reject := Some promise; external := false;
                           p_requestId := Undefined |}) st) as (-> & _).
      exact Hm.
    + apply (on_page_keeps st); auto using handleApprove_page.
    + apply (on_page_keeps st); auto using handleReject_page.
    + apply (on_page_keeps st); auto using tick_page.
    + destruct (approving st !! k); [|exact H].
      apply (on_page_keeps st); auto.
      destruct (resume_page s v (resumed k st)) as (-> & -> & ->). cbn. auto.
    + apply (on_page_keeps st); cbn; auto.
    + destruct (modal st) as [m|] eqn:Em; [|exact H].
      destruct (a_type (action m)); try exact H.
      apply on_page_render. exact Hm.
  - destruct ev; cbn [unmounted fst]; try exact H.
    destruct (approving st !! k); [|exact H].
    unfold on_page. cbn. rewrite Hm. exact H'.
Qed.

Lemma reachable_on_page (st : state) : reachable client st → on_page st.
Proof.
  induction 1 as [|st ev _ IH]; [reflexivity|]. apply on_page_step, IH.
Qed.

(** A provider that holds a request is on the page, and the request
    has been rendered. *)
Lemma reachable_mounted (st : state) (m : PendingRequest) :
  reachable client st → modal st = Some m →
  mounted st = true ∧ renders st = true.
Proof.
  intros Hr Hm. pose proof (reachable_on_page st Hr) as H.
  unfold on_page in H. destruct (mounted st); [auto|].
  destruct H as [H _]. congruence.
Qed.

End Invariant.

(** C2 as stated fails without a Wallet Client: the guard of line 61
    comes first and the probe gets no reply. *)
Lemma alive_unanswered_when_logged_out :
  handlePanelRequest None (panel_request (js "alive") Undefined (js "r1")) initial
    = Return (initial, [])
  ∧ ¬ answers_alive None (panel_request (js "alive") Undefined (js "r1")) initial.
Proof. split; [reflexivity | intros H; discriminate H]. Qed.

(** C2, amended. With a Wallet Client present, an [alive] request is
    answered at once with the status payload under its [requestId]; the
    state, and so the pending request if there is one, stays as it is. *)
Theorem alive_answered_when_logged_in (c : FeelessClient) (request : message)
    (st : state) :
  is_str (type request) (js "feeless-wallet-panel-request") = true →
  is_str (method request) (js "alive") = true →
  answers_alive (Some c) request st.
Proof.
  intros Ht Hm. unfold answers_alive, handlePanelRequest.
  rewrite Ht, Hm. reflexivity.
Qed.

Lemma alive_answered_when_logged_in_witness :
  answers_alive (Some echo_client)
    (panel_request (js "alive") Undefined (js "r1"))
    (setModal (Some (external_request GetPublicKey (Str (js "r0")))) initial).
Proof. apply alive_answered_when_logged_in; reflexivity. Defined.

Lemma handlePanelRequest_slot (client : option FeelessClient)
    (request : message) (st st' : state) out :
  handlePanelRequest client request st = Return (st', out) →
  st' = st
  ∨ ∃ t, st' = setModal (Some (external_request t (requestId request))) st.
Proof.
  unfold handlePanelRequest.
  destruct (is_str (type request) _); [|intros [= <- <-]; auto].
  destruct client as [c|]; [|intros [= <- <-]; auto].
  repeat match goal with
  | |- context [if is_str (method request) ?s then _ else _] =>
      destruct (is_str (method request) s)
  end;
  repeat match goal with
  | |- context [prop ?v ?k] => destruct (prop v k); cbn [mbind completion_bind]
  end;
  intros [= <- <-] || discriminate; eauto.
Qed.

Lemma handlePanelRequest_presents (c : FeelessClient) (request : message)
    (st : state) :
  asks_approval request = true →
  ∃ t out,
    handlePanelRequest (Some c) request st
    = Return (setModal (Some (external_request t (requestId request))) st, out).
Proof.
  unfold asks_approval, handlePanelRequest.
  intros [-> H]%andb_prop.
  destruct (is_str (method request) (js "alive")) eqn:Ea.
  { exfalso. destruct (method request) as [| | | |s| |]; try discriminate Ea.
    cbn in Ea, H. apply bool_decide_eq_true in Ea. subst s. discriminate H. }
  destruct (is_str (method request) (js "getPublicKey")); [eauto|].
  cbn [orb] in H. apply andb_prop in H as [Hm Hp].
  assert (Hprop : ∀ k, prop (payload request) k
                       = Return (match payload request with
                                 | Obj props => assoc k props
                                 | _ => Undefined
                                 end))
    by (intros k; destruct (payload request); try discriminate Hp; reflexivity).
  rewrite !Hprop. cbn [mbind completion_bind].
  destruct (is_str (method request) (js "signMessage")); [eauto|].
  destruct (is_str (method request) (js "signIn")); [eauto|].
  destruct (is_str (method request) (js "send")); [eauto|].
  destruct (is_str (method request) (js "mintToken")); [eauto|].
  discriminate Hm.
Qed.





Lemma respond_delivered (m : PendingRequest) (res : value) :
  well_formed m →
  (external m = true → truthy (p_requestId m) = true) →
  respond m res = delivered m res ∧ ∃ e, delivered m res = [e] ∧ is_wallet e = false.
Proof.
  unfold well_formed, respond, send_outcome, delivered.
  intros Hwf Hrid. destruct (external m).
  - rewrite Hrid by reflexivity. cbn [andb]. eauto.
  - destruct Hwf as (p & -> & _). cbn [andb]. eauto.
Qed.

(** C7 as stated fails for an integer beyond 2^53: [String] gives the
    shortest numeral that reads back as the same double, and for 2^60
    that is 1152921504606847000, not 1152921504606846976. *)
Lemma signIn_large_nonce_not_decimal :
  is_double (2 ^ 60)
  ∧ String_ (Num (Int (2 ^ 60))) = js "1152921504606847000"
  ∧ decimal (2 ^ 60) = js "1152921504606846976"
  ∧ ¬ signs_decimal echo_client
        (setModal (Some (external_request (SignIn (Num (Int (2 ^ 60))))
                           (Str (js "r1")))) initial)
        (external_request (SignIn (Num (Int (2 ^ 60)))) (Str (js "r1")))
        (2 ^ 60).
Proof.
  split; [split; reflexivity|].
  split; [vm_compute; reflexivity|]. split; [vm_compute; reflexivity|].
  unfold signs_decimal. intros H. vm_compute in H. discriminate H.
Qed.

(** C7, amended. Approving a pending [signIn] whose nonce is the
    integer [n], with a Wallet Client present, calls the client for its
    public key and for its signature over [String(n)], closes the modal
    and sends exactly one result, the object of the public key and that
    signature: as a panel response under the [requestId] of an external
    request, which has to be non-empty, or as the value of the promise of
    an in-process one.  For a safe integer [n] (at most 2^53 - 1 in
    absolute value) [String(n)] is the decimal numeral of [n]. *)
Theorem signIn_signs_decimal (c : FeelessClient) (st : state)
    (m : PendingRequest) (n : Z) :
  reachable (Some c) st →
  modal st = Some m →
  a_type (action m) = SignIn (Num (Int n)) →
  (external m = true → truthy (p_requestId m) = true) →
  step (Some c) ClickApprove st =
    (setModal None st,
     [wallet call_getPublic;
      wallet (call_signMessage (Str (Number_toString (Int n))))]
       ++ delivered m
            (Obj [(js "publicKey", getPublic c);
                  (js "signature",
                   signMessage c (Str (Number_toString (Int n))))]))
  ∧ (∃ e, delivered m
            (Obj [(js "publicKey", getPublic c);
                  (js "signature",
                   signMessage c (Str (Number_toString (Int n))))]) = [e]
          ∧ is_wallet e = false)
  ∧ modal (setModal None st) = None
  ∧ (is_safe n →
     Number_toString (Int n) = decimal n ∧ signs_decimal c st m n).
Proof.
  intros Hr Hm Ha Hrid.
  pose proof (reachable_invariant (Some c) st Hr) as Hinv.
  unfold invariant in Hinv. rewrite Hm in Hinv. destruct Hinv as (_ & _ & Hwf).
  destruct (reachable_mounted (Some c) st m Hr Hm) as [Hmt _].
  destruct (respond_delivered m
              (signature_result c (Str (Number_toString (Int n)))) Hwf Hrid)
    as [Hresp Hone].
  assert (H : handleApprove (Some c) st =
    (setModal None st,
     [wallet call_getPublic;
      wallet (call_signMessage (Str (Number_toString (Int n))))]
       ++ delivered m (signature_result c (Str (Number_toString (Int n)))))).
  { unfold handleApprove. rewrite Hm, Ha, <- Hresp. reflexivity. }
  split; [unfold step; rewrite Hmt; exact H|]. split; [exact Hone|].
  split; [apply setModal_None_slot|].
  intros Hn. split; [apply Number_toString_safe, Hn|].
  unfold signs_decimal. rewrite H.
  rewrite Number_toString_safe by exact Hn. reflexivity.
Qed.

Lemma signIn_signs_decimal_witness :
  step (Some echo_client) ClickApprove
    (fst (step (Some echo_client)
            (PanelMessage (panel_request (js "signIn")
                             (Obj [(js "nonce", Num (Int 42))]) (js "r1")))
            initial))
  = (initial,
     [wallet call_getPublic; wallet (call_signMessage (Str (js "42")));
      runtime_sendMessage
        (panel_response (Str (js "r1"))
           (Obj [(js "publicKey", Str (js "04ab"));
                 (js "signature", Str (js "42"))]) Undefined)]).
Proof.
  refine (proj1 (signIn_signs_decimal echo_client
            (fst (step (Some echo_client)
                    (PanelMessage (panel_request (js "signIn")
                                     (Obj [(js "nonce", Num (Int 42))])
                                     (js "r1")))
                    initial))
            (external_request (SignIn (Num (Int 42))) (Str (js "r1"))) 42
            _ _ _ _)).
  - apply reach_step, reach_initial.
  - reflexivity.
  - reflexivity.
  - reflexivity.
Defined.

(** C8 as stated fails for an external request whose [requestId] is
    the empty string, which is what the dispatcher generates when
    [Math.random()] is 0: the guard [modal.external && modal.requestId] of
    line 216 is false, no other branch applies and nothing is sent. *)
Lemma reject_silent_without_requestId :
  modal (fst (step (Some echo_client)
                (PanelMessage (panel_request (js "getPublicKey") Undefined []))
                initial))
    = Some (external_request GetPublicKey (Str []))
  ∧ handleReject
      (fst (step (Some echo_client)
              (PanelMessage (panel_request (js "getPublicKey") Undefined []))
              initial))
    = (initial, [])
  ∧ ¬ denies
        (fst (step (Some echo_client)
                (PanelMessage (panel_request (js "getPublicKey") Undefined []))
                initial))
        (external_request GetPublicKey (Str [])).
Proof.
  split; [reflexivity|]. split; [reflexivity|].
  unfold denies. intros H. discriminate H.
Qed.

(** C8, amended. Rejecting a pending request that is in-process, or
    external with a non-empty [requestId], sends exactly the error
    'User denied' to where the request came from: a panel response under
    the request's [requestId] for an external request, the rejection of
    the promise for an in-process one.  The countdown's last tick does the
    same, and no method of the Wallet Client is called. *)
Theorem reject_sends_user_denied (client : option FeelessClient)
    (st : state) (m : PendingRequest) :
  reachable client st →
  modal st = Some m →
  (external m = true → truthy (p_requestId m) = true) →
  denies st m
  ∧ modal (setModal None st) = None
  ∧ (∃ e, user_denied m = [e] ∧ is_wallet e = false)
  ∧ (countdown st ≤ 1 → snd (tick st) = user_denied m).
Proof.
  intros Hr Hm Hrid.
  pose proof (reachable_invariant client st Hr) as Hinv.
  unfold invariant in Hinv. rewrite Hm in Hinv.
  destruct Hinv as (Hi & Hc & Hwf).
  assert (Hrej : handleReject st = (setModal None st, user_denied m)).
  { unfold handleReject, send_outcome, user_denied. rewrite Hm.
    unfold well_formed in Hwf. destruct (external m).
    - rewrite Hrid by reflexivity. reflexivity.
    - destruct Hwf as (p & _ & ->). reflexivity. }
  repeat split.
  - exact Hrej.
  - rewrite setModal_None, Hm. reflexivity.
  - unfold user_denied, well_formed in *. destruct (external m).
    + eauto.
    + destruct Hwf as (p & _ & ->). eauto.
  - intros Hle. unfold tick. rewrite Hi.
    destruct (Z.leb_spec (countdown st) 1); [|lia].
    unfold handleReject in *. cbn [modal]. rewrite Hm in *.
    cbn [snd]. injection Hrej as ->. reflexivity.
Qed.

Lemma reject_sends_user_denied_witness :
  handleReject
    (fst (step (Some echo_client)
            (PanelMessage (panel_request (js "getPublicKey") Undefined (js "r1")))
            initial))
  = (initial,
     [runtime_sendMessage
        (panel_response (Str (js "r1")) Undefined (Str (js "User denied")))]).
Proof.
  refine (proj1 (reject_sends_user_denied (Some echo_client)
            (fst (step (Some echo_client)
                    (PanelMessage
                       (panel_request (js "getPublicKey") Undefined (js "r1")))
                    initial))
            (external_request GetPublicKey (Str (js "r1"))) _ _ _)).
  - apply reach_step, reach_initial.
  - reflexivity.
  - reflexivity.
Defined.

Section Countdown.

Variable client : option FeelessClient.

Lemma run_app (evs1 evs2 : list event) (st : state) :
  run client (evs1 ++ evs2) st =
  let '(st1, out1) := run client evs1 st in
  let '(st2, out2) := run client evs2 st1 in
  (st2, out1 ++ out2).
Proof.
  revert st. induction evs1 as [|ev evs1 IH]; intros st; cbn [run app].
  - destruct (run client evs2 st). reflexivity.
  - destruct (step client ev st) as [st1 out1]. rewrite IH.
    destruct (run client evs1 st1) as [st2 out2].
    destruct (run client evs2 st2) as [st3 out3].
    rewrite app_assoc. reflexivity.
Qed.

Lemma step_presents (st : state) (ev : event) (m : PendingRequest) :
  invariant st → modal st = None →
  modal (fst (step client ev st)) = Some m →
  fst (step client ev st) = setModal (Some m) st
  ∧ mounted st = true ∧ submits ev = true.
Proof.
  intros Hinv Hn Hm.
  destruct (submits ev) eqn:Hev.
  2: { destruct (step_slot client ev st Hev) as [H|H]; congruence. }
  revert Hm. unfold step. destruct (mounted st) eqn:Hmt.
  2: { destruct ev; discriminate Hev || (cbn [unmounted fst]; congruence). }
  destruct ev; try discriminate Hev; cbn [handle].
  - destruct (handlePanelRequest client request st) as [[st' out]|e] eqn:E;
      cbn [fst]; [|congruence].
    apply handlePanelRequest_slot in E as [->|[t ->]].
    + destruct (render_slot (st, out)) as [_ [[-> _]|[-> _]]]; cbn; congruence.
    + destruct (render_slot (setModal (Some (external_request t
                                                 (requestId request))) st, out))
        as [_ [[-> _]|[-> _]]]; cbn [fst unmount modal]; [|congruence].
      rewrite setModal_Some. cbn [modal]. intros [= <-]. auto.
  - change (requestAction a promise st)
      with (setModal (Some (in_process_request a promise)) st).
    destruct (render_slot (setModal (Some (in_process_request a promise)) st, []))
      as [_ [[-> _]|[-> _]]]; cbn [fst unmount modal]; [|congruence].
    rewrite setModal_Some. cbn [modal]. intros [= <-]. auto.
Qed.

Lemma ticks_run_down (k : nat) (st : state) :
  mounted st = true →
  interval st = true → Z.of_nat k < countdown st →
  run client (repeat Tick k) st
  = (with_countdown st (countdown st - Z.of_nat k), []).
Proof.
  revert st. induction k as [|k IH]; intros st Hmt Hi Hk.
  - cbn [repeat run]. rewrite Z.sub_0_r. destruct st; reflexivity.
  - cbn [repeat run]. unfold step at 1. rewrite Hmt. cbn [handle].
    unfold tick. rewrite Hi.
    destruct (Z.leb_spec (countdown st) 1); [lia|].
    rewrite IH by (cbn; auto; lia).
    unfold with_countdown. cbn. rewrite Hi, Hmt. do 2 f_equal. lia.
Qed.

Lemma last_tick (st : state) (m : PendingRequest) :
  interval st = true → countdown st ≤ 1 → modal st = Some m →
  tick st = handleReject (with_countdown st 10).
Proof.
  intros Hi Hc Hm. unfold tick, handleReject, with_countdown.
  rewrite Hi. destruct (Z.leb_spec (countdown st) 1); [|lia].
  cbn [modal]. rewrite Hm. reflexivity.
Qed.

Lemma step_tick (st : state) :
  interval st = false ∨ mounted st = true → step client Tick st = tick st.
Proof.
  unfold step. destruct (mounted st); [reflexivity|].
  intros [Hi|Hm]; [|discriminate Hm]. cbn [unmounted]. unfold tick.
  rewrite Hi. reflexivity.
Qed.

Lemma ticks_idle (n : nat) (st : state) :
  interval st = false → run client (repeat Tick n) st = (st, []).
Proof.
  intros Hi. induction n as [|n IH]; cbn [repeat run]; [reflexivity|].
  rewrite step_tick by auto. unfold tick. rewrite Hi, IH. reflexivity.
Qed.

Lemma click_closes (st : state) (m : PendingRequest) (click : event) :
  mounted st = true →
  modal st = Some m →
  click = ClickReject
  ∨ click = ClickApprove ∧ awaits_wallet (a_type (action m)) = false →
  fst (step client click st) = setModal None st.
Proof.
  intros Hmt Hm [->|[-> Hk]]; unfold step; rewrite Hmt; cbn [handle].
  - unfold handleReject. rewrite Hm. reflexivity.
  - unfold handleApprove. rewrite Hm.
    destruct (a_type (action m)), client; try discriminate Hk; reflexivity.
Qed.

End Countdown.

(** Equal up to arithmetic in the times and the countdown. *)
Ltac same_up_to_arith := repeat first [reflexivity | lia | f_equal].

Section Clock.
Import PanelClock.

Variable client : option FeelessClient.

Lemma with_countdown_same (st : state) : with_countdown st (countdown st) = st.
Proof. destruct st; reflexivity. Qed.

Lemma handleReject_closed (st : state) (m : PendingRequest) :
  modal st = Some m →
  modal (fst (handleReject st)) = None
  ∧ interval (fst (handleReject st)) = false.
Proof.
  intros Hm. unfold handleReject. rewrite Hm. cbn [fst].
  rewrite setModal_None, Hm. auto.
Qed.

Lemma fire_idle (n : nat) (until : Z) (c : clocked) :
  interval (panel c) = false →
  fire client n until c = ({| panel := panel c; now := until; due := due c |}, []).
Proof. intros Hi. destruct n; cbn [fire]; rewrite ?Hi; reflexivity. Qed.

Lemma tick_down (st : state) :
  mounted st = true → interval st = true → 1 < countdown st →
  step client Tick st = (with_countdown st (countdown st - 1), []).
Proof.
  intros Hmt Hi Hc. rewrite step_tick by auto. unfold tick, with_countdown.
  rewrite Hi. destruct (Z.leb_spec (countdown st) 1); [lia|]. reflexivity.
Qed.

(** [q] ticks fall due until [until], fewer than the countdown shows. *)
Lemma fire_counting (q n : nat) (until : Z) (st : state) (t0 D : Z) :
  mounted st = true → interval st = true →
  Z.of_nat q < countdown st →
  (q ≤ n)%nat →
  D + 1000 * (Z.of_nat q - 1) ≤ until < D + 1000 * Z.of_nat q →
  fire client n until {| panel := st; now := t0; due := D |}
  = ({| panel := with_countdown st (countdown st - Z.of_nat q);
        now := until; due := D + 1000 * Z.of_nat q |}, []).
Proof.
  revert n st t0 D. induction q as [|q IH]; intros n st t0 D Hmt Hi Hc Hn Hu.
  - assert (Hlt : (D <=? until) = false) by (apply Z.leb_gt; lia).
    replace (countdown st - Z.of_nat 0) with (countdown st) by lia.
    replace (D + 1000 * Z.of_nat 0) with D by lia.
    rewrite with_countdown_same.
    destruct n; cbn [fire panel due]; rewrite ?Hlt, ?andb_false_r; reflexivity.
  - destruct n as [|n]; [lia|]. cbn [fire panel due].
    assert (Hle : (D <=? until) = true) by (apply Z.leb_le; lia).
    rewrite Hi, Hle. cbn [andb]. rewrite tick_down by (auto; lia).
    rewrite (IH n) by (cbn [mounted interval countdown with_countdown];
                       auto; lia).
    cbn [stamp fmap list_fmap app]. unfold with_countdown.
    cbn [modal countdown mintFee interval approving showCodeBox mounted].
    same_up_to_arith.
Qed.

(** The countdown shows [j + 1], and [until] is not before the tick
    that ends it. *)
Lemma fire_expires (j n : nat) (until : Z) (st : state) (m : PendingRequest)
    (t0 D : Z) :
  mounted st = true → interval st = true → modal st = Some m →
  countdown st = Z.of_nat j + 1 →
  (j < n)%nat →
  D + 1000 * Z.of_nat j ≤ until →
  fire client n until {| panel := st; now := t0; due := D |}
  = ({| panel := fst (handleReject (with_countdown st 10)); now := until;
        due := D + 1000 * (Z.of_nat j + 1) |},
     stamp (D + 1000 * Z.of_nat j) (snd (handleReject (with_countdown st 10)))).
Proof.
  revert n st t0 D. induction j as [|j IH]; intros n st t0 D Hmt Hi Hm Hc Hn Hu.
  - destruct n as [|n]; [lia|]. cbn [fire panel due].
    assert (Hle : (D <=? until) = true) by (apply Z.leb_le; lia).
    rewrite Hi, Hle. cbn [andb].
    rewrite step_tick by auto.
    rewrite (last_tick st m) by (auto; lia).
    destruct (handleReject_closed (with_countdown st 10) m Hm) as [_ Hi1].
    destruct (handleReject (with_countdown st 10)) as [st1 out1].
    cbn [fst] in Hi1.
    rewrite fire_idle by exact Hi1. cbn [panel due fst snd].
    rewrite app_nil_r. same_up_to_arith.
  - destruct n as [|n]; [lia|]. cbn [fire panel due].
    assert (Hle : (D <=? until) = true) by (apply Z.leb_le; lia).
    rewrite Hi, Hle. cbn [andb]. rewrite tick_down by (auto; lia).
    rewrite (IH n _ _ _)
      by (cbn [mounted interval countdown modal with_countdown]; auto; lia).
    cbn [stamp fmap list_fmap app]. unfold with_countdown.
    cbn [modal countdown mintFee interval approving showCodeBox mounted].
    same_up_to_arith.
Qed.

Lemma elapse_idle (ms : N) (c : clocked) :
  interval (panel c) = false →
  elapse client ms c
  = ({| panel := panel c; now := now c + Z.of_N ms; due := due c |}, []).
Proof. intros Hi. unfold elapse. apply fire_idle, Hi. Qed.

Lemma waits_idle (waits : list N) (c : clocked) :
  interval (panel c) = false →
  history client (Elapse <$> waits) c
  = ({| panel := panel c; now := now c + total waits; due := due c |}, []).
Proof.
  revert c. induction waits as [|ms waits IH]; intros c Hi.
  - cbn. rewrite Z.add_0_r. destruct c; reflexivity.
  - cbn [fmap list_fmap history occur total]. rewrite elapse_idle by exact Hi.
    rewrite IH by exact Hi. cbn [panel now due app]. same_up_to_arith.
Qed.

Section Presented.

Variable st0 : state.
Variable m : PendingRequest.
Variable t : Z.
Hypothesis Hmounted : mounted st0 = true.
Hypothesis Hinterval : interval st0 = true.
Hypothesis Hmodal : modal st0 = Some m.

Lemma elapse_counting (passed : Z) (ms : N) :
  0 ≤ passed → passed + Z.of_N ms < 10000 →
  elapse client ms (counting st0 t passed)
  = (counting st0 t (passed + Z.of_N ms), []).
Proof.
  intros H0 Hlt. unfold elapse, counting. cbn [now].
  pose proof (Z.div_le_mono passed (passed + Z.of_N ms) 1000) as Hmono.
  assert (H1 : 0 ≤ passed / 1000) by (apply Z.div_pos; lia).
  assert (H2 : (passed + Z.of_N ms) / 1000 < 10)
    by (apply Z.div_lt_upper_bound; lia).
  pose proof (Z.mul_div_le (passed + Z.of_N ms) 1000) as H3.
  pose proof (Z.mul_succ_div_gt (passed + Z.of_N ms) 1000) as H4.
  pose proof (Z.mul_div_le passed 1000) as H5.
  pose proof (Z.mul_succ_div_gt passed 1000) as H6.
  assert (H7 : Z.of_N (ms / 1000) = Z.of_N ms / 1000) by apply N2Z.inj_div.
  pose proof (Z.mul_div_le (Z.of_N ms) 1000) as H8.
  pose proof (Z.mul_succ_div_gt (Z.of_N ms) 1000) as H9.
  rewrite (fire_counting
             (Z.to_nat ((passed + Z.of_N ms) / 1000 - passed / 1000)));
    cbn [mounted interval countdown with_countdown]; auto; try lia.
  unfold with_countdown.
  cbn [modal countdown mintFee interval approving showCodeBox mounted].
  same_up_to_arith.
Qed.

Lemma elapse_expires (passed : Z) (ms : N) :
  0 ≤ passed < 10000 → 10000 ≤ passed + Z.of_N ms →
  elapse client ms (counting st0 t passed)
  = ({| panel := fst (handleReject (with_countdown st0 10));
        now := t + passed + Z.of_N ms; due := t + 11000 |},
     stamp (t + 10000) (snd (handleReject (with_countdown st0 10)))).
Proof.
  intros H0 Hge. unfold elapse, counting. cbn [now].
  assert (H1 : 0 ≤ passed / 1000) by (apply Z.div_pos; lia).
  assert (H2 : passed / 1000 < 10) by (apply Z.div_lt_upper_bound; lia).
  pose proof (Z.mul_div_le passed 1000) as H5.
  pose proof (Z.mul_succ_div_gt passed 1000) as H6.
  assert (H7 : Z.of_N (ms / 1000) = Z.of_N ms / 1000) by apply N2Z.inj_div.
  pose proof (Z.mul_div_le (Z.of_N ms) 1000) as H8.
  pose proof (Z.mul_succ_div_gt (Z.of_N ms) 1000) as H9.
  rewrite (fire_expires (Z.to_nat (9 - passed / 1000)) _ _ _ m);
    cbn [mounted interval countdown modal with_countdown]; auto; try lia.
  same_up_to_arith.
Qed.

Lemma waits_counting (waits : list N) (passed : Z) :
  0 ≤ passed → passed + total waits < 10000 →
  history client (Elapse <$> waits) (counting st0 t passed)
  = (counting st0 t (passed + total waits), []).
Proof.
  revert passed. induction waits as [|ms waits IH]; intros passed H0 Hlt.
  - cbn. rewrite Z.add_0_r. reflexivity.
  - assert (Hw : 0 ≤ total waits) by (clear; induction waits; cbn; lia).
    cbn [total] in Hlt. cbn [fmap list_fmap history occur total].
    rewrite elapse_counting by lia. rewrite IH by lia.
    cbn [app]. same_up_to_arith.
Qed.

Lemma waits_expire (waits : list N) (passed : Z) :
  0 ≤ passed < 10000 → 10000 ≤ passed + total waits →
  panel (fst (history client (Elapse <$> waits) (counting st0 t passed)))
  = fst (handleReject (with_countdown st0 10))
  ∧ snd (history client (Elapse <$> waits) (counting st0 t passed))
    = stamp (t + 10000) (snd (handleReject (with_countdown st0 10))).
Proof.
  revert passed. induction waits as [|ms waits IH]; intros passed H0 Hge.
  - cbn [total] in Hge. lia.
  - cbn [total] in Hge. cbn [fmap list_fmap history occur].
    destruct (Z.lt_ge_cases (passed + Z.of_N ms) 10000) as [Hlt|Hexp].
    + rewrite elapse_counting by lia.
      destruct (IH (passed + Z.of_N ms)) as [IH1 IH2]; [lia|lia|].
      destruct (history client (Elapse <$> waits) _) as [c2 log2].
      cbn [fst snd app] in *. auto.
    + rewrite elapse_expires by lia.
      destruct (handleReject_closed (with_countdown st0 10) m Hmodal)
        as [_ Hi1].
      rewrite waits_idle by exact Hi1. cbn [fst snd panel].
      rewrite app_nil_r. auto.
Qed.

End Presented.

Lemma sets_modal_presents (request : message) (st st' : state) out :
  handlePanelRequest client request st = Return (st', out) →
  modal st' ≠ modal st →
  sets_modal client (PanelMessage request) = true.
Proof.
  unfold sets_modal, handlePanelRequest.
  destruct (is_str (type request) _); [|intros [= <- <-]; congruence].
  destruct client as [c|]; [|intros [= <- <-]; congruence].
  repeat match goal with
  | |- context [if is_str (method request) ?s then _ else _] =>
      destruct (is_str (method request) s)
  end;
  repeat match goal with
  | |- context [prop ?v ?k] => destruct (prop v k); cbn [mbind completion_bind]
  end;
  intros [= <- <-] || discriminate; congruence || reflexivity.
Qed.

Lemma presents_sets_modal (ev : event) (st : state) (m : PendingRequest) :
  mounted st = true → modal st = None →
  modal (fst (step client ev st)) = Some m →
  submits ev = true →
  sets_modal client ev = true.
Proof.
  intros Hmt Hn Hm Hev. revert Hm. unfold step. rewrite Hmt.
  destruct ev; try discriminate Hev; [|reflexivity]. cbn [handle].
  destruct (handlePanelRequest client request st) as [[st' out]|e] eqn:E;
    cbn [fst]; [|congruence].
  intros Hm. apply (sets_modal_presents request st st' out E).
  destruct (render_slot (st', out)) as [_ [[Heq _]|[Heq _]]];
    rewrite Heq in Hm; cbn [fst unmount modal] in Hm; congruence.
Qed.

Lemma history_app (os1 os2 : list occurrence) (c : clocked) :
  history client (os1 ++ os2) c =
  let '(c1, log1) := history client os1 c in
  let '(c2, log2) := history client os2 c1 in
  (c2, log1 ++ log2).
Proof.
  revert c. induction os1 as [|o os1 IH]; intros c; cbn [history app].
  - destruct (history client os2 c). reflexivity.
  - destruct (occur client o c) as [c1 log1]. rewrite IH.
    destruct (history client os1 c1) as [c2 log2].
    destruct (history client os2 c2) as [c3 log3].
    rewrite app_assoc. reflexivity.
Qed.

Lemma handleReject_denies (st : state) (m : PendingRequest) :
  modal st = Some m → well_formed m →
  (external m = true → truthy (p_requestId m) = true) →
  handleReject st = (setModal None st, user_denied m).
Proof.
  intros Hm Hwf Hrid. unfold handleReject, send_outcome, user_denied.
  rewrite Hm. unfold well_formed in Hwf. destruct (external m).
  - rewrite Hrid by reflexivity. reflexivity.
  - destruct Hwf as (p & _ & ->). reflexivity.
Qed.

End Clock.

(** C6 as stated fails when a request takes the slot of another one:
    the countdown is reset when the modal closes, not when it changes, so
    a request presented seven ticks into another starts at 3, and its
    third tick rejects it. *)
Lemma countdown_not_reset_on_replacement :
  modal (fst (step (Some echo_client)
           (PanelMessage (panel_request (js "getPublicKey") Undefined (js "r2")))
           seven_ticks_in))
    = Some (external_request GetPublicKey (Str (js "r2")))
  ∧ countdown (fst (step (Some echo_client)
           (PanelMessage (panel_request (js "getPublicKey") Undefined (js "r2")))
           seven_ticks_in)) = 3
  ∧ snd (run (Some echo_client) [Tick; Tick; Tick]
           (fst (step (Some echo_client)
                   (PanelMessage
                      (panel_request (js "getPublicKey") Undefined (js "r2")))
                   seven_ticks_in)))
    = [runtime_sendMessage
         (panel_response (Str (js "r2")) Undefined (Str (js "User denied")))]
  ∧ ¬ starts_at_ten (Some echo_client) seven_ticks_in
        (PanelMessage (panel_request (js "getPublicKey") Undefined (js "r2"))).
Proof.
  split; [reflexivity|]. split; [reflexivity|]. split; [reflexivity|].
  intros H. discriminate H. eexists. reflexivity.
Qed.

(** C6, amended. A request presented at the time [t] while no other one
    is pending starts the countdown at 10, with the first tick of the
    interval due 1000 ms later.  As long as nothing happens to the panel
    but the passing of time, the countdown shows 10 less the full seconds
    that have passed and nothing is sent; the tenth tick, at [t] + 10000,
    closes the modal, clears the interval and sends the error
    'User denied' to where the request came from (for an external request
    under its [requestId], which has to be non-empty), and nothing follows
    it.  A click on Reject, or on Approve for a request that does not wait
    for the Wallet Client, closes the modal and clears the interval: however
    much time passes afterwards, nothing is sent and the panel stays as it
    is. *)
Theorem countdown_from_idle (client : option FeelessClient) (st : state)
    (ev : event) (m : PendingRequest) (t d : Z) :
  reachable client st →
  modal st = None →
  modal (fst (step client ev st)) = Some m →
  let c0 :=
    fst (PanelClock.occur client (PanelClock.Happens ev)
           {| PanelClock.panel := st; PanelClock.now := t;
              PanelClock.due := d |}) in
  c0 = PanelClock.counting (fst (step client ev st)) t 0
  ∧ countdown (PanelClock.panel c0) = 10
  ∧ PanelClock.due c0 = t + 1000
  ∧ (∀ waits : list N,
       PanelClock.total waits < 10000 →
       PanelClock.history client (PanelClock.Elapse <$> waits) c0
       = (PanelClock.counting (PanelClock.panel c0) t (PanelClock.total waits),
          []))
  ∧ (∀ waits : list N,
       10000 ≤ PanelClock.total waits →
       (external m = true → truthy (p_requestId m) = true) →
       snd (PanelClock.history client (PanelClock.Elapse <$> waits) c0)
       = PanelClock.stamp (t + 10000) (user_denied m)
       ∧ modal (PanelClock.panel
                  (fst (PanelClock.history client
                          (PanelClock.Elapse <$> waits) c0))) = None
       ∧ interval (PanelClock.panel
                     (fst (PanelClock.history client
                             (PanelClock.Elapse <$> waits) c0))) = false)
  ∧ (∀ (waits : list N) (click : event) (waits' : list N),
       PanelClock.total waits < 10000 →
       click = ClickReject
       ∨ click = ClickApprove ∧ awaits_wallet (a_type (action m)) = false →
       let c2 :=
         fst (PanelClock.history client
                ((PanelClock.Elapse <$> waits) ++ [PanelClock.Happens click])
                c0) in
       modal (PanelClock.panel c2) = None
       ∧ interval (PanelClock.panel c2) = false
       ∧ PanelClock.history client (PanelClock.Elapse <$> waits') c2
         = ({| PanelClock.panel := PanelClock.panel c2;
               PanelClock.now := PanelClock.now c2 + PanelClock.total waits';
               PanelClock.due := PanelClock.due c2 |}, [])).
Proof.
  intros Hr Hn Hm.
  pose proof (reachable_invariant client st Hr) as Hinv.
  destruct (step_presents client st ev m Hinv Hn Hm) as (Hst & Hmt & Hsub).
  pose proof (presents_sets_modal client ev st m Hmt Hn Hm Hsub) as Hsets.
  pose proof (reachable_invariant client _ (reach_step client st ev Hr)) as Hinv1.
  assert (Hc : countdown st = 10)
    by (unfold invariant in Hinv; rewrite Hn in Hinv; tauto).
  assert (Hocc :
    fst (PanelClock.occur client (PanelClock.Happens ev)
           {| PanelClock.panel := st; PanelClock.now := t;
              PanelClock.due := d |})
    = {| PanelClock.panel := fst (step client ev st); PanelClock.now := t;
         PanelClock.due := t + 1000 |}).
  { destruct ev; try discriminate Hsub;
      cbn [PanelClock.occur PanelClock.panel PanelClock.now PanelClock.due];
      rewrite Hmt, Hsets;
      match goal with |- context [step client ?e st] =>
        destruct (step client e st)
      end; reflexivity. }
  unfold invariant in Hinv1. rewrite Hm in Hinv1.
  destruct Hinv1 as (Hi1 & _ & Hwf).
  set (st1 := fst (step client ev st)) in *.
  assert (Hc1 : countdown st1 = 10) by (rewrite Hst; exact Hc).
  assert (Hmt1 : mounted st1 = true) by (rewrite Hst; exact Hmt).
  assert (Hsame : with_countdown st1 10 = st1)
    by (rewrite <- Hc1; apply with_countdown_same).
  assert (Hcount : PanelClock.counting st1 t 0
                   = {| PanelClock.panel := st1; PanelClock.now := t;
                        PanelClock.due := t + 1000 |}).
  { unfold PanelClock.counting. change (0 / 1000) with 0.
    change (10 - 0) with 10. rewrite Hsame. f_equal; lia. }
  cbv zeta. rewrite Hocc, <- Hcount.
  assert (Hpanel : PanelClock.panel (PanelClock.counting st1 t 0) = st1)
    by (rewrite Hcount; reflexivity).
  rewrite Hpanel.
  split; [reflexivity|]. split; [exact Hc1|].
  split; [rewrite Hcount; reflexivity|].
  split; [|split].
  - intros waits Hw.
    rewrite (waits_counting client st1 t Hmt1 Hi1 waits 0) by lia.
    reflexivity.
  - intros waits Hw Hrid.
    destruct (waits_expire client st1 m t Hmt1 Hi1 Hm waits 0) as [Hp Hlog];
      [lia|lia|].
    rewrite Hp, Hlog, Hsame.
    rewrite (handleReject_denies st1 m Hm Hwf Hrid). cbn [fst snd].
    split; [reflexivity|]. rewrite setModal_None, Hm. auto.
  - intros waits click waits' Hw Hclick.
    rewrite (history_app client).
    rewrite (waits_counting client st1 t Hmt1 Hi1 waits 0) by lia.
    cbn [PanelClock.history].
    assert (Hocc2 :
      PanelClock.occur client (PanelClock.Happens click)
        (PanelClock.counting st1 t (0 + PanelClock.total waits))
      = ({| PanelClock.panel :=
              setModal None
                (PanelClock.panel
                   (PanelClock.counting st1 t (0 + PanelClock.total waits)));
            PanelClock.now :=
              PanelClock.now
                (PanelClock.counting st1 t (0 + PanelClock.total waits));
            PanelClock.due :=
              PanelClock.due
                (PanelClock.counting st1 t (0 + PanelClock.total waits)) |},
         PanelClock.stamp
           (PanelClock.now
              (PanelClock.counting st1 t (0 + PanelClock.total waits)))
           (snd (step client click
                   (PanelClock.panel
                      (PanelClock.counting st1 t
                         (0 + PanelClock.total waits))))))).
    { set (c1 := PanelClock.counting st1 t (0 + PanelClock.total waits)).
      assert (Hclose : fst (step client click (PanelClock.panel c1))
                       = setModal None (PanelClock.panel c1))
        by (apply (click_closes client _ m); auto).
      destruct Hclick as [->|[-> _]];
        cbn [PanelClock.occur PanelClock.sets_modal];
        rewrite andb_false_r;
        match goal with |- context [step client ?e ?s] =>
          destruct (step client e s) as [st2 out2]
        end; cbn [fst snd] in *; rewrite Hclose; reflexivity. }
    rewrite Hocc2. cbn [fst app PanelClock.panel PanelClock.now PanelClock.due].
    set (c1 := PanelClock.counting st1 t (0 + PanelClock.total waits)).
    assert (Hclosed : modal (setModal None (PanelClock.panel c1)) = None
                      ∧ interval (setModal None (PanelClock.panel c1)) = false).
    { rewrite setModal_None. unfold c1, PanelClock.counting.
      cbn [PanelClock.panel modal with_countdown]. rewrite Hm. auto. }
    destruct Hclosed as [Hm2 Hi2].
    split; [exact Hm2|]. split; [exact Hi2|].
    apply (waits_idle client waits'
             {| PanelClock.panel := setModal None (PanelClock.panel c1);
                PanelClock.now := PanelClock.now c1;
                PanelClock.due := PanelClock.due c1 |}).
    exact Hi2.
Qed.

Lemma countdown_from_idle_witness :
  snd (PanelClock.history (Some echo_client)
         (PanelClock.Elapse <$> [4000; 6000; 2500]%N)
         (fst (PanelClock.occur (Some echo_client)
                 (PanelClock.Happens
                    (PanelMessage
                       (panel_request (js "getPublicKey") Undefined (js "r1"))))
                 {| PanelClock.panel := initial; PanelClock.now := 0;
                    PanelClock.due := 0 |})))
  = [(10000,
      runtime_sendMessage
        (panel_response (Str (js "r1")) Undefined (Str (js "User denied"))))].
Proof.
  refine (proj1 (proj1 (proj2 (proj2 (proj2 (proj2
    (countdown_from_idle (Some echo_client) initial
       (PanelMessage (panel_request (js "getPublicKey") Undefined (js "r1")))
       (external_request GetPublicKey (Str (js "r1"))) 0 0 _ _ _)))))
    [4000; 6000; 2500]%N _ _)).
  - apply reach_initial.
  - reflexivity.
  - reflexivity.
  - cbn. lia.
  - reflexivity.
Defined.

End PanelFacts.

(** * Facts about the answers of the dispatcher *)

Module ResponseFacts.
Import Js Background Responses BackgroundFacts.

Section Answers.

Variable caller : nat.

Lemma notify_clears (hs : list listener) (m : message) (st : state) :
  filter (fun l => l_sendResponse l = caller) (listeners st) = []
  ∨ (∃ h, h ∈ hs ∧ l_sendResponse h = caller
          ∧ matches m (l_requestId h) = true) →
  filter (fun l => l_sendResponse l = caller) (listeners (fst (notify hs m st)))
  = [].
Proof.
  revert st. induction hs as [|h hs IH]; intros st H; cbn [notify].
  - destruct H as [H|(h & Hh & _)]; [exact H|]. inversion Hh.
  - destruct (handlePanelResponse h m st) as [st1 out1] eqn:E1.
    destruct (notify hs m st1) as [st2 out2] eqn:E2. cbn [fst].
    specialize (IH st1). rewrite E2 in IH. cbn [fst] in IH. apply IH.
    unfold handlePanelResponse in E1.
    destruct H as [H|(h' & Hh' & Hmine & Hm)].
    + left. destruct (matches m (l_requestId h)); injection E1 as <- <-;
        [|exact H].
      cbn [removeListener listeners]. rewrite filter_swap, H. reflexivity.
    + apply elem_of_cons in Hh' as [->|Hh'].
      * left. rewrite Hm in E1. injection E1 as <- <-.
        cbn [removeListener listeners]. rewrite filter_swap.
        apply removeListener_mine, Hmine.
      * right. eauto.
Qed.

Lemma waiting_message_match (rid : jsstring) (d : Z) (m : message) (c : nat)
    (r : jsstring) (st : state) :
  waiting caller rid d st → c ≠ caller → matches m rid = true →
  responses_to caller (snd (deliver m c r st)) = [(now st, forwarded m)]
  ∧ armed caller rid d (fst (deliver m c r st))
  ∧ now (fst (deliver m c r st)) = now st.
Proof.
  intros (Hl & Ht & Hn) Hc Hm. unfold deliver.
  destruct (onMessage_others caller m c r st Hc) as (Ho & Hl1 & Ht1 & Hn1).
  destruct (onMessage m c r st) as [st1 out1]. cbn [fst snd] in *.
  pose proof (notify_responses caller (listeners st) m st1) as Hr.
  pose proof (notify_frame (listeners st) m st1) as [Ht2 Hn2].
  pose proof (notify_clears (listeners st) m st1) as Hl2.
  destruct (notify (listeners st) m st1) as [st2 out2]. cbn [fst snd] in *.
  rewrite responses_to_app, Ho, Hr, Hl, Hn1. cbn [app flat_map l_requestId].
  rewrite Hm. split; [reflexivity|]. split; [|congruence].
  repeat split.
  - apply Hl2. right.
    exists {| l_requestId := rid; l_sendResponse := caller |}.
    split; [|split; [reflexivity|exact Hm]].
    assert (Hin : {| l_requestId := rid; l_sendResponse := caller |}
                  ∈ filter (fun l => l_sendResponse l = caller) (listeners st))
      by (rewrite Hl; set_solver).
    apply list_elem_of_filter in Hin. tauto.
  - rewrite Ht2, Ht1. exact Ht.
  - lia.
Qed.

Lemma armed_message (rid : jsstring) (d : Z) (m : message) (c : nat)
    (r : jsstring) (st : state) :
  armed caller rid d st → c ≠ caller →
  responses_to caller (snd (deliver m c r st)) = []
  ∧ armed caller rid d (fst (deliver m c r st))
  ∧ now (fst (deliver m c r st)) = now st.
Proof.
  intros (Hl & Ht & Hn) Hc. unfold deliver.
  destruct (onMessage_others caller m c r st Hc) as (Ho & Hl1 & Ht1 & Hn1).
  destruct (onMessage m c r st) as [st1 out1]. cbn [fst snd] in *.
  pose proof (notify_responses caller (listeners st) m st1) as Hr.
  pose proof (notify_frame (listeners st) m st1) as [Ht2 Hn2].
  pose proof (notify_clears (listeners st) m st1) as Hl2.
  destruct (notify (listeners st) m st1) as [st2 out2]. cbn [fst snd] in *.
  rewrite responses_to_app, Ho, Hr, Hl. split; [reflexivity|].
  split; [|congruence]. repeat split.
  - apply Hl2. left. rewrite Hl1. exact Hl.
  - rewrite Ht2, Ht1. exact Ht.
  - lia.
Qed.

Lemma armed_elapse (rid : jsstring) (d : Z) (ms : N) (st : state) :
  armed caller rid d st →
  if d <=? now st + Z.of_N ms
  then responses_to caller (snd (elapse ms st)) = [(d, timeout_error)]
       ∧ quiet caller (fst (elapse ms st))
  else responses_to caller (snd (elapse ms st)) = []
       ∧ armed caller rid d (fst (elapse ms st))
       ∧ now (fst (elapse ms st)) = now st + Z.of_N ms.
Proof.
  intros (Hl & Ht & Hn). unfold elapse.
  set (now' := now st + Z.of_N ms).
  set (ready := filter (fun t => due t <=? now') (timers st)).
  set (later := filter (fun t => negb (due t <=? now')) (timers st)).
  set (st0 := {| listeners := listeners st; timers := later; now := now st |}).
  pose proof (fire_responses caller ready st0) as Hr.
  pose proof (fire_frame ready st0) as [Ht2 Hn2].
  pose proof (fire_clears caller ready st0) as Hl2.
  destruct (fire ready st0) as [st1 out]. cbn [fst snd] in *.
  unfold ready in Hr. rewrite filter_swap, Ht, filter_cons in Hr.
  cbn [due] in Hr. rewrite Hr.
  assert (Hlater : filter (fun t => l_sendResponse (t_listener t) = caller) later
                   = if d <=? now' then []
                     else [{| due := d;
                              t_listener := {| l_requestId := rid;
                                               l_sendResponse := caller |} |}]).
  { unfold later. rewrite filter_swap, Ht, filter_cons. cbn [due].
    destruct (Z.leb_spec d now').
    - rewrite decide_False by (cbn; tauto). reflexivity.
    - rewrite decide_True by (cbn; done). reflexivity. }
  destruct (Z.leb_spec d now') as [Hd|Hd].
  - rewrite decide_True by (cbn; done). split; [reflexivity|].
    split; cbn [listeners timers].
    + apply Hl2. left. exact Hl.
    + rewrite Ht2. exact Hlater.
  - rewrite decide_False by (cbn; tauto).
    split; [reflexivity|]. split; [|reflexivity].
    repeat split; cbn [listeners timers now].
    + apply Hl2. left. exact Hl.
    + rewrite Ht2. exact Hlater.
    + exact Hd.
Qed.

Lemma quiet_trace (evs : list event) (st : state) :
  quiet caller st →
  forallb (fun ev => match ev with
                     | Message _ c _ => negb (Nat.eqb c caller)
                     | Elapse _ => true
                     end) evs = true →
  quiet caller (fst (trace evs st)).
Proof.
  revert st. induction evs as [|ev evs IH]; intros st Hq Hf; [exact Hq|].
  apply forallb_events in Hf as [Hev Hf].
  cbn [trace]. destruct ev as [m c r|ms]; cbn [dispatch].
  - destruct (quiet_message caller m c r st Hq Hev) as [_ Hq1].
    destruct (deliver m c r st) as [st1 out1]. cbn [fst] in *.
    specialize (IH st1 Hq1 Hf). destruct (trace evs st1). exact IH.
  - destruct (quiet_elapse caller ms st Hq) as [_ Hq1].
    destruct (elapse ms st) as [st1 out1]. cbn [fst] in *.
    specialize (IH st1 Hq1 Hf). destruct (trace evs st1). exact IH.
Qed.

Lemma armed_trace (rid : jsstring) (d : Z) (evs : list event) (st : state) :
  armed caller rid d st →
  forallb (fun ev => match ev with
                     | Message _ c _ => negb (Nat.eqb c caller)
                     | Elapse _ => true
                     end) evs = true →
  responses_to caller (snd (trace evs st)) = late_answer d (now st) evs
  ∧ (d ≤ now st + elapsed evs → quiet caller (fst (trace evs st))).
Proof.
  revert st. induction evs as [|ev evs IH]; intros st Ha Hf.
  { split; [reflexivity|]. destruct Ha as (_ & _ & Hn). cbn. lia. }
  apply forallb_events in Hf as [Hev Hf].
  cbn [trace late_answer elapsed]. destruct ev as [m c r|ms]; cbn [dispatch].
  - destruct (armed_message rid d m c r st Ha Hev) as (Hr & Ha1 & Hn1).
    destruct (deliver m c r st) as [st1 out1]. cbn [fst snd] in *.
    destruct (IH st1 Ha1 Hf) as [IHr IHq].
    destruct (trace evs st1) as [st2 out2]. cbn [fst snd] in *.
    rewrite responses_to_app, Hr, IHr, Hn1. split; [reflexivity|].
    rewrite <- Hn1. exact IHq.
  - pose proof (armed_elapse rid d ms st Ha) as He.
    destruct (Z.leb_spec d (now st + Z.of_N ms)) as [Hd|Hd].
    + destruct He as [Hr Hq].
      pose proof (quiet_run caller evs (fst (elapse ms st)) Hq Hf) as Hrun.
      pose proof (quiet_trace evs (fst (elapse ms st)) Hq Hf) as Hqt.
      destruct (elapse ms st) as [st1 out1]. cbn [fst snd] in *.
      destruct (trace evs st1) as [st2 out2]. cbn [fst snd] in *.
      rewrite responses_to_app, Hr, Hrun. split; [reflexivity|auto].
    + destruct He as (Hr & Ha1 & Hn1).
      destruct (elapse ms st) as [st1 out1]. cbn [fst snd] in *.
      destruct (IH st1 Ha1 Hf) as [IHr IHq].
      destruct (trace evs st1) as [st2 out2]. cbn [fst snd] in *.
      rewrite responses_to_app, Hr, IHr, Hn1. split; [reflexivity|].
      intros Hle. apply IHq. lia.
Qed.

Lemma waiting_trace (rid : jsstring) (d : Z) (evs : list event) (st : state) :
  waiting caller rid d st →
  forallb (fun ev => match ev with
                     | Message _ c _ => negb (Nat.eqb c caller)
                     | Elapse _ => true
                     end) evs = true →
  responses_to caller (snd (trace evs st)) = all_answers rid d (now st) evs
  ∧ (d ≤ now st + elapsed evs → quiet caller (fst (trace evs st))).
Proof.
  revert st. induction evs as [|ev evs IH]; intros st Hw Hf.
  { split; [reflexivity|]. destruct Hw as (_ & _ & Hn). cbn. lia. }
  apply forallb_events in Hf as [Hev Hf].
  cbn [trace all_answers elapsed]. destruct ev as [m c r|ms]; cbn [dispatch].
  - destruct (matches m rid) eqn:Em.
    + destruct (waiting_message_match rid d m c r st Hw Hev Em)
        as (Hr & Ha1 & Hn1).
      destruct (deliver m c r st) as [st1 out1]. cbn [fst snd] in *.
      destruct (armed_trace rid d evs st1 Ha1 Hf) as [IHr IHq].
      destruct (trace evs st1) as [st2 out2]. cbn [fst snd] in *.
      rewrite responses_to_app, Hr, IHr, Hn1. split; [reflexivity|].
      rewrite <- Hn1. exact IHq.
    + pose proof (waiting_message caller rid d m c r st Hw Hev) as Hm.
      rewrite Em in Hm. destruct Hm as (Hr & Hw1 & Hn1).
      destruct (deliver m c r st) as [st1 out1]. cbn [fst snd] in *.
      destruct (IH st1 Hw1 Hf) as [IHr IHq].
      destruct (trace evs st1) as [st2 out2]. cbn [fst snd] in *.
      rewrite responses_to_app, Hr, IHr, Hn1. split; [reflexivity|].
      rewrite <- Hn1. exact IHq.
  - destruct (Z.leb_spec d (now st + Z.of_N ms)) as [Hd|Hd].
    + destruct (waiting_elapse_due caller rid d ms st Hw Hd) as [Hr Hq].
      pose proof (quiet_run caller evs (fst (elapse ms st)) Hq Hf) as Hrun.
      pose proof (quiet_trace evs (fst (elapse ms st)) Hq Hf) as Hqt.
      destruct (elapse ms st) as [st1 out1]. cbn [fst snd] in *.
      destruct (trace evs st1) as [st2 out2]. cbn [fst snd] in *.
      rewrite responses_to_app, Hr, Hrun. split; [reflexivity|auto].
    + pose proof (waiting_elapse caller rid d ms st Hw) as Hm.
      destruct (Z.leb_spec d (now st + Z.of_N ms)); [lia|].
      destruct Hm as (Hr & Hw1 & Hn1).
      destruct (elapse ms st) as [st1 out1]. cbn [fst snd] in *.
      destruct (IH st1 Hw1 Hf) as [IHr IHq].
      destruct (trace evs st1) as [st2 out2]. cbn [fst snd] in *.
      rewrite responses_to_app, Hr, IHr, Hn1. split; [reflexivity|].
      intros Hle. apply IHq. lia.
Qed.

(** After a request that passes validation, all that its caller gets. *)
Lemma request_trace (m : message) (rid : jsstring) (st : state)
    (evs : list event) :
  supported m = true →
  is_str (method m) (js "signIn") && nonce_invalid m = false →
  fresh caller st evs = true →
  responses_to caller (snd (trace (Message m caller rid :: evs) st))
  = all_answers rid (now st + 12000) (now st) evs
  ∧ (12000 ≤ elapsed evs →
     quiet caller (fst (trace (Message m caller rid :: evs) st))).
Proof.
  intros Hs Hv Hfresh. unfold fresh in Hfresh.
  apply andb_prop in Hfresh as [[Hl Ht]%andb_prop Hevs].
  cbn [trace dispatch].
  destruct (deliver_waiting caller m rid st Hs Hv Hl Ht) as (Hr & Hw & Hn).
  destruct (deliver m caller rid st) as [st1 out1]. cbn [fst snd] in *.
  destruct (waiting_trace rid (now st + 12000) evs st1 Hw Hevs) as [Hrun Hq].
  destruct (trace evs st1) as [st2 out2]. cbn [fst snd] in *.
  rewrite responses_to_app, Hr, Hrun, Hn. split; [reflexivity|].
  intros Hle. apply Hq. lia.
Qed.

End Answers.

Lemma late_answer_length (d t : Z) (evs : list event) :
  (length (late_answer d t evs) ≤ 1)%nat.
Proof.
  revert t. induction evs as [|[m c r|ms] evs IH]; intros t; cbn; [lia|auto|].
  destruct (d <=? t + Z.of_N ms); cbn; auto.
Qed.

Lemma all_answers_length (rid : jsstring) (d t : Z) (evs : list event) :
  (length (all_answers rid d t evs) ≤ 2)%nat.
Proof.
  revert t. induction evs as [|[m c r|ms] evs IH]; intros t; cbn; [lia| |].
  - destruct (matches m rid); [|auto]. cbn.
    pose proof (late_answer_length d t evs). lia.
  - destruct (d <=? t + Z.of_N ms); cbn; auto.
Qed.

Lemma late_answer_due (d t : Z) (evs : list event) :
  t < d → d ≤ t + elapsed evs → late_answer d t evs = [(d, timeout_error)].
Proof.
  revert t. induction evs as [|[m c r|ms] evs IH]; intros t Ht Hd; cbn in *;
    [lia|auto|].
  destruct (Z.leb_spec d (t + Z.of_N ms)); [reflexivity|]. apply IH; lia.
Qed.

Lemma all_answers_silent (rid : jsstring) (d t : Z) (evs1 evs2 : list event) :
  silent rid evs1 = true → t + elapsed evs1 < d →
  all_answers rid d t (evs1 ++ evs2)
  = all_answers rid d (t + elapsed evs1) evs2.
Proof.
  revert t. induction evs1 as [|[m c r|ms] evs1 IH]; intros t Hs Hd; cbn in *.
  - f_equal. lia.
  - apply andb_prop in Hs as [Hm Hs]. apply negb_true_iff in Hm. rewrite Hm.
    apply IH; auto.
  - pose proof (N2Z.is_nonneg ms) as Hms.
    assert (He : 0 ≤ elapsed evs1).
    { clear. induction evs1 as [|[]]; cbn; lia. }
    destruct (Z.leb_spec d (t + Z.of_N ms)); [lia|].
    rewrite IH by (auto; lia). f_equal. lia.
Qed.

(** X1. All the answers of a request.  After a request with a supported
    method that passes the validation of line 46, the caller's
    [sendResponse] is called for the first matching panel response that
    arrives before the timer of line 63 fires, and again when that timer
    fires, 12000 ms after the request; it is called for nothing else, so
    never more than twice. *)
Theorem dispatcher_all_answers (m : message) (caller : nat) (rid : jsstring)
    (st : state) (evs : list event) :
  supported m = true →
  is_str (method m) (js "signIn") && nonce_invalid m = false →
  fresh caller st evs = true →
  responses_to caller (snd (trace (Message m caller rid :: evs) st))
  = all_answers rid (now st + 12000) (now st) evs
  ∧ (length (responses_to caller
               (snd (trace (Message m caller rid :: evs) st))) ≤ 2)%nat.
Proof.
  intros Hs Hv Hf.
  destruct (request_trace caller m rid st evs Hs Hv Hf) as [-> _].
  split; [reflexivity|apply all_answers_length].
Qed.

Lemma dispatcher_all_answers_witness :
  responses_to 1
    (snd (trace [Message (request (js "getPublicKey") Undefined) 1 (js "k3x9");
               Elapse 3000;
               Message (panel_answer (js "k3x9") (Str (js "04ab")) Undefined)
                 2 (js "p0");
               Elapse 9000] startup))
  = [(3000, forwarded (panel_answer (js "k3x9") (Str (js "04ab")) Undefined));
     (12000, timeout_error)].
Proof.
  refine (proj1
    (dispatcher_all_answers (request (js "getPublicKey") Undefined) 1
       (js "k3x9") startup
       [Elapse 3000;
        Message (panel_answer (js "k3x9") (Str (js "04ab")) Undefined) 2 (js "p0");
        Elapse 9000] _ _ _)); reflexivity.
Defined.

(** X2. The timer of line 63 is not cleared by a panel response: when
    the first matching panel response arrives before 12000 ms have passed
    and the 12000 ms pass afterwards, the caller's [sendResponse] is called
    exactly twice, with the forwarded response when it arrives and with the
    timeout error at 12000 ms. *)
Theorem response_then_timeout (m : message) (caller : nat) (rid : jsstring)
    (st : state) (evs1 evs2 : list event) (r : message) (c2 : nat)
    (r2 : jsstring) :
  supported m = true →
  is_str (method m) (js "signIn") && nonce_invalid m = false →
  fresh caller st (evs1 ++ Message r c2 r2 :: evs2) = true →
  silent rid evs1 = true →
  elapsed evs1 < 12000 →
  matches r rid = true →
  12000 ≤ elapsed evs1 + elapsed evs2 →
  responses_to caller
    (snd (trace (Message m caller rid :: evs1 ++ Message r c2 r2 :: evs2) st))
  = [(now st + elapsed evs1, forwarded r); (now st + 12000, timeout_error)].
Proof.
  intros Hs Hv Hf Hsil He1 Hm He2.
  destruct (request_trace caller m rid st _ Hs Hv Hf) as [-> _].
  rewrite all_answers_silent by (auto; lia).
  cbn [all_answers]. rewrite Hm. f_equal. apply late_answer_due; lia.
Qed.

Lemma response_then_timeout_witness :
  responses_to 1
    (snd (trace (Message (request (js "send") Undefined) 1 (js "k3x9")
                 :: [Elapse 3000]
                 ++ Message (panel_answer (js "k3x9") Undefined
                               (Str (js "User denied"))) 2 (js "p0")
                 :: [Elapse 9000]) startup))
  = [(3000, forwarded (panel_answer (js "k3x9") Undefined
                         (Str (js "User denied"))));
     (12000, timeout_error)].
Proof.
  apply (response_then_timeout (request (js "send") Undefined) 1 (js "k3x9")
           startup [Elapse 3000] [Elapse 9000]); try reflexivity; cbn; lia.
Defined.

(** X3. Once 12000 ms have passed since a request that passed the
    validation, the dispatcher holds neither a closure nor a timer of its
    caller, whether the panel answered or not. *)
Theorem dispatcher_releases (m : message) (caller : nat) (rid : jsstring)
    (st : state) (evs : list event) :
  supported m = true →
  is_str (method m) (js "signIn") && nonce_invalid m = false →
  fresh caller st evs = true →
  12000 ≤ elapsed evs →
  quiet caller (fst (trace (Message m caller rid :: evs) st)).
Proof.
  intros Hs Hv Hf He.
  destruct (request_trace caller m rid st evs Hs Hv Hf) as [_ Hq]. auto.
Qed.

Lemma dispatcher_releases_witness :
  quiet 1
    (fst (trace [Message (request (js "getPublicKey") Undefined) 1 (js "k3x9");
               Elapse 3000;
               Message (panel_answer (js "k3x9") (Str (js "04ab")) Undefined)
                 2 (js "p0");
               Elapse 9000] startup)).
Proof.
  apply (dispatcher_releases (request (js "getPublicKey") Undefined) 1
           (js "k3x9") startup
           [Elapse 3000;
            Message (panel_answer (js "k3x9") (Str (js "04ab")) Undefined)
              2 (js "p0");
            Elapse 9000]); try reflexivity; cbn; lia.
Defined.

(** X4. A message whose [method] is none of the six supported ones is
    not broadcast and sets no timer, and its [sendResponse] is never
    called, whatever arrives and however much time passes afterwards. *)
Theorem unsupported_never_answered (m : message) (caller : nat)
    (rid : jsstring) (st : state) (evs : list event) :
  supported m = false →
  fresh caller st evs = true →
  broadcasts (snd (deliver m caller rid st)) = []
  ∧ timers (fst (deliver m caller rid st)) = timers st
  ∧ responses_to caller (snd (trace (Message m caller rid :: evs) st)) = [].
Proof.
  intros Hs Hfresh. unfold fresh in Hfresh.
  apply andb_prop in Hfresh as [[Hl Ht]%andb_prop Hevs].
  apply (forallb_filter_nil caller) in Hl.
  apply (forallb_filter_nil caller) in Ht.
  cbn [trace dispatch]. unfold deliver, onMessage. rewrite Hs.
  pose proof (notify_responses caller (listeners st) m st) as Hr.
  pose proof (notify_frame (listeners st) m st) as [Ht2 Hn2].
  pose proof (notify_clears caller (listeners st) m st) as Hl2.
  pose proof (notify_broadcasts (listeners st) m st) as Hb.
  destruct (notify (listeners st) m st) as [st2 out2]. cbn [fst snd app] in *.
  split; [exact Hb|]. split; [exact Ht2|].
  assert (Hq : quiet caller st2).
  { split; [apply Hl2; left; exact Hl|]. rewrite Ht2. exact Ht. }
  pose proof (quiet_run caller evs st2 Hq Hevs) as Hrun.
  destruct (trace evs st2) as [st3 out3]. cbn [snd] in *.
  rewrite responses_to_app, Hr, Hl, Hrun. reflexivity.
Qed.

Lemma unsupported_never_answered_witness :
  responses_to 1
    (snd (trace [Message (request (js "getBalance") Undefined) 1 (js "k3x9");
               Elapse 12000] startup)) = [].
Proof.
  refine (proj2 (proj2
    (unsupported_never_answered (request (js "getBalance") Undefined) 1
       (js "k3x9") startup [Elapse 12000] _ _))); reflexivity.
Defined.

Lemma notify_inert (hs : list listener) (m : message) (st : state) :
  is_str (type m) (js "feeless-wallet-panel-response") = false →
  notify hs m st = (st, []).
Proof.
  intros Hm. induction hs as [|h hs IH]; cbn [notify]; [reflexivity|].
  unfold handlePanelResponse, matches. rewrite Hm. cbn [andb].
  rewrite IH. reflexivity.
Qed.

(** X5. A message that has no supported [method] and is not a panel
    response leaves the dispatcher as it is and has no effect, whatever
    closures are registered; the [{type: 'ping'}] of the content script
    and the [{type: 'panel-ready'}] of the panel are such messages. *)
Theorem inert_message_ignored (m : message) (caller : nat) (rid : jsstring)
    (st : state) :
  inert ping = true
  ∧ inert panel_ready = true
  ∧ (inert m = true → deliver m caller rid st = (st, [])).
Proof.
  split; [reflexivity|]. split; [reflexivity|].
  unfold inert. intros [Hs Ht]%andb_prop.
  apply negb_true_iff in Hs. apply negb_true_iff in Ht.
  unfold deliver, onMessage. rewrite Hs, notify_inert by exact Ht.
  reflexivity.
Qed.

Lemma inert_message_ignored_witness :
  deliver ping 7 (js "zz")
    (fst (deliver (request (js "getPublicKey") Undefined) 1 (js "k3x9") startup))
  = (fst (deliver (request (js "getPublicKey") Undefined) 1 (js "k3x9") startup),
     []).
Proof.
  apply (proj2 (proj2 (inert_message_ignored ping 7 (js "zz")
                         (fst (deliver (request (js "getPublicKey") Undefined)
                                 1 (js "k3x9") startup))))).
  reflexivity.
Defined.

End ResponseFacts.

(** * Facts about the outcomes of the panel *)

Module ApprovalFacts.
Import Js Panel Approval PanelFacts.

Lemma reachable_run (client : option FeelessClient) (evs : list event)
    (st : state) :
  reachable client st → reachable client (fst (run client evs st)).
Proof.
  revert st. induction evs as [|ev evs IH]; intros st Hr; [exact Hr|].
  cbn [run]. pose proof (reach_step client st ev Hr) as Hr1.
  destruct (step client ev st) as [st1 out1]. cbn [fst] in Hr1.
  specialize (IH st1 Hr1). destruct (run client evs st1). exact IH.
Qed.

(** X6. After any sequence of events from the initial state of the
    panel, with or without a Wallet Client, the countdown is between 1 and
    10, the interval runs exactly when a request is pending, and the
    countdown is 10 whenever none is. *)
Theorem panel_invariant (client : option FeelessClient) (evs : list event) :
  invariant (fst (run client evs initial))
  ∧ 1 ≤ countdown (fst (run client evs initial)) ≤ 10
  ∧ (interval (fst (run client evs initial)) = true
     ↔ is_Some (modal (fst (run client evs initial))))
  ∧ (modal (fst (run client evs initial)) = None →
     countdown (fst (run client evs initial)) = 10).
Proof.
  pose proof (reachable_invariant client _
                (reachable_run client evs initial (reach_initial client))) as H.
  split; [exact H|]. unfold invariant in H.
  destruct (modal (fst (run client evs initial))) as [m|].
  - destruct H as (Hi & Hc & _).
    split; [exact Hc|]. split; [split; eauto|]. intros Hm. discriminate Hm.
  - destruct H as [Hc Hi]. rewrite Hc, Hi.
    split; [lia|]. split; [|reflexivity].
    split; [intros Hf; discriminate Hf|intros [m Hm]; discriminate Hm].
Qed.

Lemma panel_invariant_witness :
  countdown (fst (run (Some echo_client)
                    [PanelMessage (panel_request (js "getPublicKey") Undefined
                                     (js "r1"));
                     Tick; Tick; ClickReject] initial)) = 10.
Proof.
  apply (proj2 (proj2 (proj2 (panel_invariant (Some echo_client)
           [PanelMessage (panel_request (js "getPublicKey") Undefined (js "r1"));
            Tick; Tick; ClickReject])))).
  reflexivity.
Defined.

(** X7. With a Wallet Client present, a panel request for
    [signMessage], [signIn], [send] or [mintToken] whose [payload] is
    [undefined] or [null] makes [handlePanelRequest] throw a [TypeError]
    where it reads the payload: no request is presented, nothing is sent
    and the state is unchanged. *)
Theorem malformed_request_dropped (c : FeelessClient) (request : message)
    (st : state) :
  needs_payload request = true →
  payload request = Undefined ∨ payload request = Null →
  handlePanelRequest (Some c) request st = Throw TypeError
  ∧ step (Some c) (PanelMessage request) st = (st, []).
Proof.
  unfold needs_payload. intros [Ht Hm]%andb_prop Hp.
  assert (H : handlePanelRequest (Some c) request st = Throw TypeError).
  { unfold handlePanelRequest. rewrite Ht.
    destruct (method request) as [| | | |s| |]; try discriminate Hm.
    cbn [is_str] in *.
    repeat apply orb_prop in Hm as [Hm|Hm];
      apply bool_decide_eq_true in Hm; subst s;
      destruct Hp as [-> | ->]; vm_compute; reflexivity. }
  split; [exact H|]. unfold step.
  destruct (mounted st); [cbn [handle]; rewrite H|]; reflexivity.
Qed.

Lemma malformed_request_dropped_witness :
  step (Some echo_client)
    (PanelMessage (panel_request (js "send") Undefined (js "r1"))) initial
  = (initial, []).
Proof.
  refine (proj2 (malformed_request_dropped echo_client
                   (panel_request (js "send") Undefined (js "r1")) initial _ _)).
  - reflexivity.
  - left. reflexivity.
Defined.

Section Outcomes.

Variable client : option FeelessClient.

Lemma outcomes_app (l1 l2 : list effect) :
  outcomes (l1 ++ l2) = outcomes l1 ++ outcomes l2.
Proof.
  induction l1 as [|e l1 IH]; [reflexivity|]. cbn.
  destruct (is_wallet e); cbn; rewrite IH; reflexivity.
Qed.

Lemma outcomes_send_outcome (m : PendingRequest) (res err : value)
    (settle : option nat) (call : nat → value → effect) (v : value) :
  (∀ p w, is_wallet (call p w) = false) →
  outcomes (send_outcome m res err settle call v)
  = send_outcome m res err settle call v.
Proof.
  intros Hcall. unfold send_outcome.
  destruct (external m && truthy (p_requestId m)); [reflexivity|].
  destruct (external m && truthy (a_id (action m))); [reflexivity|].
  destruct settle; [|reflexivity]. cbn. rewrite Hcall. reflexivity.
Qed.

Lemma send_outcome_length (m : PendingRequest) (res err : value)
    (settle : option nat) (call : nat → value → effect) (v : value) :
  (length (send_outcome m res err settle call v) ≤ 1)%nat
  ∧ ((external m = true → truthy (p_requestId m) = true) →
     (external m = false → is_Some settle) →
     length (send_outcome m res err settle call v) = 1%nat).
Proof.
  unfold send_outcome. destruct (external m).
  - destruct (truthy (p_requestId m)); cbn.
    + split; [lia|reflexivity].
    + destruct (truthy (a_id (action m))); cbn.
      * split; [lia|reflexivity].
      * split; [destruct settle; cbn; lia|]. intros H. discriminate H.
        reflexivity.
  - cbn. split; [destruct settle; cbn; lia|]. intros _ H.
    destruct H as [p ->]; reflexivity.
Qed.

Lemma idle_user_events (evs : list event) (st : state) :
  modal st = None → interval st = false →
  forallb user_event evs = true →
  run client evs st = (st, []).
Proof.
  intros Hm Hi. induction evs as [|ev evs IH]; [reflexivity|].
  cbn [forallb]. intros [Hev Hevs]%andb_prop. cbn [run].
  assert (Hstep : step client ev st = (st, [])).
  { unfold step. destruct (mounted st);
      destruct ev; try discriminate Hev; try reflexivity; cbn [handle].
    - unfold handleApprove. rewrite Hm. reflexivity.
    - unfold handleReject. rewrite Hm. reflexivity.
    - unfold tick. rewrite Hi. reflexivity. }
  rewrite Hstep, IH by exact Hevs. reflexivity.
Qed.

Lemma closed_idle (st : state) (m : PendingRequest) :
  modal st = Some m →
  modal (setModal None st) = None ∧ interval (setModal None st) = false.
Proof. intros Hm. rewrite setModal_None, Hm. split; reflexivity. Qed.

Lemma handleApprove_outcomes (st : state) (m : PendingRequest) :
  modal st = Some m → awaits_wallet (a_type (action m)) = false →
  fst (handleApprove client st) = setModal None st
  ∧ ∃ res, outcomes (snd (handleApprove client st)) = respond m res.
Proof.
  intros Hm Hk. unfold handleApprove. rewrite Hm.
  destruct (a_type (action m)), client; try discriminate Hk; cbn [fst snd];
    (split; [reflexivity|]); eexists; cbn [outcomes is_wallet];
    unfold respond; rewrite outcomes_send_outcome by reflexivity; reflexivity.
Qed.

Lemma handleReject_outcomes (st : state) (m : PendingRequest) :
  modal st = Some m →
  fst (handleReject st) = setModal None st
  ∧ outcomes (snd (handleReject st))
    = send_outcome m Undefined (Str (js "User denied")) (reject m) call_reject
        (Str (js "User denied")).
Proof.
  intros Hm. unfold handleReject. rewrite Hm. cbn [fst snd].
  split; [reflexivity|]. apply outcomes_send_outcome. reflexivity.
Qed.

Lemma ticks_nonneg (evs : list event) : 0 ≤ ticks evs.
Proof. induction evs as [|[] evs IH]; cbn; lia. Qed.

Lemma pending_outcomes (evs : list event) (st : state) (m : PendingRequest) :
  mounted st = true →
  modal st = Some m → interval st = true → 1 ≤ countdown st →
  well_formed m →
  awaits_wallet (a_type (action m)) = false →
  forallb user_event evs = true →
  (length (outcomes (snd (run client evs st))) ≤ 1)%nat
  ∧ ((external m = true → truthy (p_requestId m) = true) →
     existsb is_click evs = true ∨ countdown st ≤ ticks evs →
     length (outcomes (snd (run client evs st))) = 1%nat).
Proof.
  intros Hmt Hm Hi Hc Hwf Hk. revert st Hmt Hm Hi Hc.
  induction evs as [|ev evs IH]; intros st Hmt Hm Hi Hc Hevs.
  { cbn. split; [lia|]. intros _ [H|H]; [discriminate H|lia]. }
  assert (Hhandle : step client ev st = handle client ev st)
    by (unfold step; rewrite Hmt; reflexivity).
  cbn [forallb] in Hevs. apply andb_prop in Hevs as [Hev Hevs].
  assert (Hsettle : external m = false → is_Some (resolve m) ∧ is_Some (reject m)).
  { intros He. unfold well_formed in Hwf. rewrite He in Hwf.
    destruct Hwf as (p & -> & ->). eauto. }
  assert (Hclose : ∀ st1 out1,
    modal st1 = None → interval st1 = false →
    step client ev st = (st1, out1) →
    (∃ res err settle call v,
       (∀ p w, is_wallet (call p w) = false)
       ∧ (external m = false → is_Some settle)
       ∧ outcomes out1 = send_outcome m res err settle call v) →
    (length (outcomes (snd (run client (ev :: evs) st))) ≤ 1)%nat
    ∧ ((external m = true → truthy (p_requestId m) = true) →
       existsb is_click (ev :: evs) = true ∨ countdown st ≤ ticks (ev :: evs) →
       length (outcomes (snd (run client (ev :: evs) st))) = 1%nat)).
  { intros st1 out1 Hm1 Hi1 Hstep (res & err & settle & call & v & Hcall & Hs & Ho).
    cbn [run]. rewrite Hstep, (idle_user_events evs st1 Hm1 Hi1 Hevs).
    cbn [snd]. rewrite app_nil_r, Ho.
    destruct (send_outcome_length m res err settle call v) as [Hle Heq].
    split; [exact Hle|]. intros Hrid _. apply Heq; auto. }
  destruct ev; try discriminate Hev.
  - (* ClickApprove *)
    destruct (handleApprove_outcomes st m Hm Hk) as [Hst (res & Hout)].
    destruct (closed_idle st m Hm) as [Hm1 Hi1].
    apply (Hclose (setModal None st) (snd (handleApprove client st)));
      auto.
    + rewrite Hhandle. cbn [handle]. rewrite <- Hst.
      destruct (handleApprove client st); reflexivity.
    + exists res, Undefined, (resolve m), call_resolve, res.
      split; [reflexivity|]. split; [|exact Hout]. intros He. apply Hsettle, He.
  - (* ClickReject *)
    destruct (handleReject_outcomes st m Hm) as [Hst Hout].
    destruct (closed_idle st m Hm) as [Hm1 Hi1].
    apply (Hclose (setModal None st) (snd (handleReject st))); auto.
    + rewrite Hhandle. cbn [handle]. rewrite <- Hst.
      destruct (handleReject st); reflexivity.
    + exists Undefined, (Str (js "User denied")), (reject m), call_reject,
        (Str (js "User denied")).
      split; [reflexivity|]. split; [|exact Hout]. intros He. apply Hsettle, He.
  - (* Tick *)
    destruct (Z.leb_spec (countdown st) 1) as [Hle|Hgt].
    + pose proof (last_tick st m Hi Hle Hm) as Htick.
      assert (Hm10 : modal (with_countdown st 10) = Some m) by exact Hm.
      destruct (handleReject_outcomes _ m Hm10) as [Hst Hout].
      destruct (closed_idle _ m Hm10) as [Hm1 Hi1].
      apply (Hclose (setModal None (with_countdown st 10))
               (snd (handleReject (with_countdown st 10)))); auto.
      * rewrite Hhandle. cbn [handle]. rewrite Htick, <- Hst.
        destruct (handleReject (with_countdown st 10)); reflexivity.
      * exists Undefined, (Str (js "User denied")), (reject m), call_reject,
          (Str (js "User denied")).
        split; [reflexivity|]. split; [|exact Hout].
        intros He. apply Hsettle, He.
    + set (st1 := {| modal := modal st; countdown := countdown st - 1;
                     mintFee := mintFee st; interval := interval st;
                     approving := approving st;
                     showCodeBox := showCodeBox st; mounted := mounted st |}).
      assert (Htick : tick st = (st1, [])).
      { unfold tick. rewrite Hi.
        destruct (Z.leb_spec (countdown st) 1); [lia|].
        unfold st1. rewrite Hi. reflexivity. }
      cbn [run]. rewrite Hhandle. cbn [handle]. rewrite Htick.
      destruct (IH st1) as [IHle IHeq]; auto; [cbn; lia|].
      destruct (run client evs st1) as [st2 out2]. cbn [snd app] in *.
      split; [exact IHle|]. intros Hrid Hor. apply IHeq; [exact Hrid|].
      cbn [existsb is_click ticks orb] in Hor. cbn [countdown st1].
      destruct Hor as [Hor|Hor]; [left; exact Hor|right; lia].
Qed.

End Outcomes.

(** X8. A request that does not wait for the Wallet Client
    (getPublicKey, sharePublicKey, signMessage, signIn, alive) and was
    presented while nothing was pending has at most one outcome, whatever
    the user clicks and however many ticks follow; it has exactly one once
    Approve or Reject has been clicked or ten ticks have passed, provided
    an external request carries a non-empty [requestId]. *)
Theorem one_outcome (client : option FeelessClient) (st : state) (ev : event)
    (m : PendingRequest) (evs : list event) :
  reachable client st →
  modal st = None →
  modal (fst (step client ev st)) = Some m →
  awaits_wallet (a_type (action m)) = false →
  forallb user_event evs = true →
  (length (outcomes (snd (run client evs (fst (step client ev st))))) ≤ 1)%nat
  ∧ ((external m = true → truthy (p_requestId m) = true) →
     existsb is_click evs = true ∨ 10 ≤ ticks evs →
     length (outcomes (snd (run client evs (fst (step client ev st))))) = 1%nat).
Proof.
  intros Hr Hn Hm Hk Hevs.
  pose proof (reachable_invariant client _ (reach_step client st ev Hr)) as Hinv.
  unfold invariant in Hinv. rewrite Hm in Hinv. destruct Hinv as (Hi & Hc & Hwf).
  destruct (reachable_mounted client _ m (reach_step client st ev Hr) Hm)
    as [Hmt _].
  destruct (pending_outcomes client evs _ m Hmt Hm Hi (proj1 Hc) Hwf Hk Hevs)
    as [Hle Heq].
  split; [exact Hle|]. intros Hrid Hor. apply Heq; [exact Hrid|].
  destruct Hor as [Hor|Hor]; [left; exact Hor|right; lia].
Qed.

Lemma one_outcome_witness :
  length (outcomes (snd (run (Some echo_client)
            [Tick; Tick; ClickApprove; ClickReject; Tick; ClickApprove]
            (fst (step (Some echo_client)
                    (PanelMessage (panel_request (js "signIn")
                                     (Obj [(js "nonce", Num (Int 42))]) (js "r1")))
                    initial))))) = 1%nat.
Proof.
  refine (proj2 (one_outcome (Some echo_client) initial
            (PanelMessage (panel_request (js "signIn")
                             (Obj [(js "nonce", Num (Int 42))]) (js "r1")))
            (external_request (SignIn (Num (Int 42))) (Str (js "r1")))
            [Tick; Tick; ClickApprove; ClickReject; Tick; ClickApprove]
            _ _ _ _ _) _ _).
  - apply reach_initial.
  - reflexivity.
  - reflexivity.
  - reflexivity.
  - reflexivity.
  - reflexivity.
  - left. reflexivity.
Defined.

Lemma lookup_delete_last {A} (l : list A) (x : A) :
  (l ++ [x]) !! length l = Some x ∧ delete (length l) (l ++ [x]) = l.
Proof.
  induction l as [|y l [IH1 IH2]]; [split; reflexivity|].
  split; [exact IH1|]. cbn. f_equal. exact IH2.
Qed.

Lemma approve_suspends (c : FeelessClient) (st : state) (m : PendingRequest) :
  mounted st = true →
  modal st = Some m →
  awaits_wallet (a_type (action m)) = true →
  ∃ a,
    step (Some c) ClickApprove st
    = ({| modal := modal st; countdown := countdown st; mintFee := mintFee st;
          interval := interval st;
          approving := approving st ++
            [{| s_modal := m; s_client := c; s_await := a |}];
          showCodeBox := showCodeBox st; mounted := mounted st |},
       wallet <$> wallet_request (a_type (action m)))
    ∧ ∀ v st',
        snd (resume {| s_modal := m; s_client := c; s_await := a |} v st')
        = wallet call_getPublic
            :: respond m (settled_result c (a_type (action m)) v).
Proof.
  intros Hmt Hm Hk. rewrite step_mounted by exact Hmt. cbn [handle].
  unfold handleApprove. rewrite Hm.
  destruct (a_type (action m)); try discriminate Hk.
  - exists AwaitPlaceTX. split; reflexivity.
  - exists AwaitMintToken. split; reflexivity.
Qed.

(** X9. Approve on a pending [send] or [mintToken], in a provider that
    is on the page, calls
    [placeTXV2(to, amount, token, unlock)] or
    [mintToken({airdrop, miningReward, token})] and sends nothing yet, the
    request staying pending; when the promise is fulfilled with [v], the
    public key is read, the result, with status 'success' for a truthy [v]
    and 'fail' otherwise, goes to where the request came from, and the
    modal closes. *)
Theorem approve_then_settle (c : FeelessClient) (st : state)
    (m : PendingRequest) (v : value) :
  mounted st = true →
  modal st = Some m →
  awaits_wallet (a_type (action m)) = true →
  modal (fst (step (Some c) ClickApprove st)) = Some m
  ∧ snd (step (Some c) ClickApprove st)
    = wallet <$> wallet_request (a_type (action m))
  ∧ run (Some c) [ClickApprove; WalletSettled (length (approving st)) v] st
    = (setModal None st,
       (wallet <$> wallet_request (a_type (action m)))
         ++ wallet call_getPublic
         :: respond m (settled_result c (a_type (action m)) v)).
Proof.
  intros Hmt Hm Hk.
  destruct (approve_suspends c st m Hmt Hm Hk) as (a & Hstep & Hres).
  rewrite Hstep. cbn [fst snd modal]. split; [exact Hm|]. split; [reflexivity|].
  cbn [run]. rewrite Hstep. rewrite step_mounted by exact Hmt.
  cbn [handle approving]. unfold resumed. cbn [approving].
  destruct (lookup_delete_last (approving st)
              {| s_modal := m; s_client := c; s_await := a |}) as [-> ->].
  cbn [modal countdown mintFee interval showCodeBox mounted].
  match goal with |- context [resume ?s v ?st0] =>
    specialize (Hres v st0); destruct (resume s v st0) as [st2 out2] eqn:E
  end.
  cbn [snd] in Hres. subst out2. rewrite app_nil_r.
  unfold resume in E. injection E as <- _.
  f_equal. rewrite !setModal_None. cbn [modal]. rewrite Hm. reflexivity.
Qed.

Lemma approve_then_settle_witness :
  run (Some echo_client) [ClickApprove; WalletSettled 0 (Str (js "sig"))]
    (fst (step (Some echo_client)
            (PanelMessage
               (panel_request (js "send")
                  (Obj [(js "amount", Num (Int 500)); (js "to", Str (js "addr123"));
                        (js "token", Str (js "USD"))]) (js "r1"))) initial))
  = (initial,
     [wallet (call_placeTXV2 (Str (js "addr123")) (Num (Int 500))
                (Str (js "USD")) Undefined);
      wallet call_getPublic;
      runtime_sendMessage
        (panel_response (Str (js "r1"))
           (Obj [(js "status", Str (js "success"));
                 (js "publicKey", Str (js "04ab"));
                 (js "signature", Str (js "sig"))]) Undefined)]).
Proof.
  refine (proj2 (proj2 (approve_then_settle echo_client
            (fst (step (Some echo_client)
                    (PanelMessage
                       (panel_request (js "send")
                          (Obj [(js "amount", Num (Int 500));
                                (js "to", Str (js "addr123"));
                                (js "token", Str (js "USD"))]) (js "r1")))
                    initial))
            (external_request
               (Send (Num (Int 500)) (Str (js "addr123")) (Str (js "USD"))
                  Undefined) (Str (js "r1")))
            (Str (js "sig")) _ _ _))); reflexivity.
Defined.

(** X10. Approve on a [send] or [mintToken] does not stop the countdown:
    when it runs out before the Wallet Client has answered, the request is
    rejected with 'User denied', and the result is sent all the same when
    the Wallet Client answers; a request that has a place to answer to thus
    gets two outcomes. *)
Theorem approve_does_not_stop_countdown (c : FeelessClient) (st : state)
    (m : PendingRequest) (v : value) :
  reachable (Some c) st →
  modal st = Some m →
  awaits_wallet (a_type (action m)) = true →
  outcomes (snd (run (Some c)
                   (ClickApprove :: repeat Tick (Z.to_nat (countdown st))
                      ++ [WalletSettled (length (approving st)) v]) st))
  = send_outcome m Undefined (Str (js "User denied")) (reject m) call_reject
      (Str (js "User denied"))
    ++ respond m (settled_result c (a_type (action m)) v)
  ∧ ((external m = true → truthy (p_requestId m) = true) →
     length (outcomes (snd (run (Some c)
                   (ClickApprove :: repeat Tick (Z.to_nat (countdown st))
                      ++ [WalletSettled (length (approving st)) v]) st)))
     = 2%nat).
Proof.
  intros Hr Hm Hk.
  pose proof (reachable_invariant (Some c) st Hr) as Hinv.
  unfold invariant in Hinv. rewrite Hm in Hinv. destruct Hinv as (Hi & Hc & Hwf).
  match goal with |- ?l = ?r ∧ _ =>
    assert (Hout : l = r); [|split; [exact Hout|rewrite Hout]]
  end.
  2: { intros Hrid. rewrite length_app. unfold respond.
       assert (Hs : external m = false → is_Some (resolve m) ∧ is_Some (reject m)).
       { intros He. unfold well_formed in Hwf. rewrite He in Hwf.
         destruct Hwf as (p & -> & ->). eauto. }
       rewrite (proj2 (send_outcome_length m _ _ (reject m) _ _) Hrid)
         by (intros He; apply Hs, He).
       rewrite (proj2 (send_outcome_length m _ _ (resolve m) _ _) Hrid)
         by (intros He; apply Hs, He).
       reflexivity. }
  destruct (reachable_mounted (Some c) st m Hr Hm) as [Hmt _].
  destruct (approve_suspends c st m Hmt Hm Hk) as (a & Hstep & Hres).
  cbn [run]. rewrite Hstep.
  set (s := {| s_modal := m; s_client := c; s_await := a |}) in *.
  set (st1 := {| modal := modal st; countdown := countdown st;
                 mintFee := mintFee st; interval := interval st;
                 approving := approving st ++ [s];
                 showCodeBox := showCodeBox st; mounted := mounted st |}).
  replace (Z.to_nat (countdown st))
    with (Z.to_nat (countdown st - 1) + 1)%nat by lia.
  rewrite repeat_app, <- app_assoc. cbn [repeat app].
  rewrite (run_app (Some c)).
  rewrite (ticks_run_down (Some c)) by (cbn; auto; lia).
  cbn [run countdown st1].
  rewrite (step_mounted (Some c) Tick) by exact Hmt. cbn [handle].
  rewrite (last_tick _ m) by (cbn; auto; lia).
  unfold handleReject, with_countdown, st1.
  cbn [modal countdown mintFee interval approving showCodeBox mounted].
  rewrite Hm.
  rewrite setModal_None.
  cbn [modal countdown mintFee interval approving showCodeBox mounted].
  rewrite (step_mounted (Some c)) by exact Hmt. cbn [handle approving].
  unfold resumed. cbn [approving].
  destruct (lookup_delete_last (approving st) s) as [-> ->].
  match goal with |- context [resume s v ?st0] =>
    specialize (Hres v st0); destruct (resume s v st0) as [st2 out2]
  end.
  cbn [snd] in Hres. subst out2. cbn [snd app].
  rewrite !outcomes_app, app_nil_r. cbn [outcomes is_wallet].
  rewrite outcomes_send_outcome by reflexivity.
  unfold respond. rewrite outcomes_send_outcome by reflexivity.
  assert (Hw : outcomes (wallet <$> wallet_request (a_type (action m))) = []).
  { destruct (a_type (action m)); reflexivity. }
  rewrite Hw. reflexivity.
Qed.

Lemma approve_does_not_stop_countdown_witness :
  outcomes (snd (run (Some echo_client)
                   (ClickApprove :: repeat Tick 10
                      ++ [WalletSettled 0 (Str (js "sig"))])
                   (fst (step (Some echo_client)
                           (PanelMessage
                              (panel_request (js "mintToken")
                                 (Obj [(js "airdrop", Num (Int 1000));
                                       (js "token", Str (js "ABC"))]) (js "r1")))
                           initial))))
  = [runtime_sendMessage
       (panel_response (Str (js "r1")) Undefined (Str (js "User denied")));
     runtime_sendMessage
       (panel_response (Str (js "r1"))
          (Obj [(js "status", Str (js "success"));
                (js "publicKey", Str (js "04ab"))]) Undefined)].
Proof.
  refine (proj1 (approve_does_not_stop_countdown echo_client
            (fst (step (Some echo_client)
                    (PanelMessage
                       (panel_request (js "mintToken")
                          (Obj [(js "airdrop", Num (Int 1000));
                                (js "token", Str (js "ABC"))]) (js "r1")))
                    initial))
            (external_request
               (MintToken (Num (Int 1000)) Undefined (Str (js "ABC")))
               (Str (js "r1")))
            (Str (js "sig")) _ _ _)).
  - apply reach_step, reach_initial.
  - reflexivity.
  - reflexivity.
Defined.

Section Held.

Variable client : option FeelessClient.
Variable rid : jsstring.

Lemma answers_send_outcome (m : PendingRequest) (res err : value)
    (settle : option nat) (call : nat → value → effect) (v : value) :
  (∀ p w, answers rid (call p w) = false) →
  is_str (p_requestId m) rid = false →
  existsb (answers rid) (send_outcome m res err settle call v) = false.
Proof.
  intros Hcall Hm. unfold send_outcome.
  destruct (external m && truthy (p_requestId m)); [cbn; rewrite Hm; reflexivity|].
  destruct (external m && truthy (a_id (action m))); [reflexivity|].
  destruct settle; [|reflexivity]. cbn. rewrite Hcall. reflexivity.
Qed.

Lemma existsb_app_false {A} (f : A → bool) (l1 l2 : list A) :
  existsb f l1 = false → existsb f l2 = false → existsb f (l1 ++ l2) = false.
Proof. intros H1 H2. rewrite existsb_app, H1, H2. reflexivity. Qed.

Lemma handlePanelRequest_answers (request : message) (st st' : state) out :
  is_str (requestId request) rid = false →
  handlePanelRequest client request st = Return (st', out) →
  existsb (answers rid) out = false.
Proof.
  intros Hc. unfold handlePanelRequest.
  destruct (is_str (type request) _); [|intros [= <- <-]; reflexivity].
  destruct client as [c|]; [|intros [= <- <-]; reflexivity].
  repeat match goal with
  | |- context [if is_str (method request) ?s then _ else _] =>
      destruct (is_str (method request) s)
  end;
  repeat match goal with
  | |- context [prop ?v ?k] => destruct (prop v k); cbn [mbind completion_bind]
  end;
  intros [= <- <-] || discriminate; try reflexivity.
  cbn. rewrite Hc. reflexivity.
Qed.

Lemma holds_false (st : state) :
  holds rid st = false →
  (∀ m, modal st = Some m → is_str (p_requestId m) rid = false)
  ∧ awaited_under rid st = false.
Proof.
  unfold holds. intros [Hm Ha]%orb_false_elim. split; [|exact Ha].
  intros m Hst. rewrite Hst in Hm. exact Hm.
Qed.

Lemma holds_closed (st : state) :
  awaited_under rid st = false → holds rid (setModal None st) = false.
Proof.
  intros Ha. unfold holds, awaited_under in *. rewrite setModal_None.
  destruct (modal st) eqn:E; cbn; rewrite ?E; exact Ha.
Qed.

Lemma awaited_delete (k : nat) (l : list suspended) :
  existsb (fun s => is_str (p_requestId (s_modal s)) rid) l = false →
  existsb (fun s => is_str (p_requestId (s_modal s)) rid) (delete k l) = false.
Proof.
  revert k. induction l as [|s l IH]; intros k H; [destruct k; exact H|].
  cbn in H. apply orb_false_elim in H as [Hs Hl].
  destruct k; cbn; [exact Hl|]. rewrite Hs. apply IH, Hl.
Qed.

Lemma awaited_lookup (k : nat) (l : list suspended) (s : suspended) :
  existsb (fun s => is_str (p_requestId (s_modal s)) rid) l = false →
  l !! k = Some s → is_str (p_requestId (s_modal s)) rid = false.
Proof.
  revert k. induction l as [|s' l IH]; intros k H Hk; [destruct k; discriminate Hk|].
  cbn in H. apply orb_false_elim in H as [Hs Hl].
  destruct k; cbn in Hk; [injection Hk as <-; exact Hs|eauto].
Qed.

Lemma holds_unmount (st : state) :
  awaited_under rid st = false → holds rid (unmount st) = false.
Proof. intros Ha. unfold holds. cbn [unmount modal orb]. exact Ha. Qed.

Lemma render_answers (r : state * list effect) :
  holds rid (fst r) = false →
  holds rid (fst (render r)) = false ∧ snd (render r) = snd r.
Proof.
  intros Hh. destruct (render_slot r) as [-> [[-> _]|[-> _]]];
    (split; [|reflexivity]); [exact Hh|].
  apply holds_unmount. apply (holds_false _ Hh).
Qed.

Lemma handle_answers (ev : event) (st : state) :
  holds rid st = false → carries rid ev = false →
  holds rid (fst (handle client ev st)) = false
  ∧ existsb (answers rid) (snd (handle client ev st)) = false.
Proof.
  intros Hh Hc. pose proof (holds_false st Hh) as [Hm Ha].
  destruct ev; cbn [handle carries] in *.
  - destruct (handlePanelRequest client request st) as [[st' out]|e] eqn:E;
      cbn [fst snd]; [|split; [exact Hh|reflexivity]].
    assert (Hh' : holds rid st' = false).
    { apply handlePanelRequest_slot in E as [->|[t ->]]; [exact Hh|].
      unfold holds, awaited_under in *. rewrite setModal_Some.
      cbn. rewrite Hc, Ha. reflexivity. }
    destruct (render_answers (st', out) Hh') as [H1 ->].
    split; [exact H1|]. eapply handlePanelRequest_answers; eauto.
  - assert (Hh' : holds rid (requestAction a promise st) = false).
    { unfold requestAction, holds, awaited_under in *. rewrite setModal_Some.
      cbn. exact Ha. }
    destruct (render_answers (requestAction a promise st, []) Hh') as [H1 ->].
    split; [exact H1|reflexivity].
  - unfold handleApprove. destruct (modal st) as [m|] eqn:Em;
      [|split; [exact Hh|reflexivity]].
    specialize (Hm m eq_refl).
    assert (Hresp : ∀ res, existsb (answers rid) (respond m res) = false)
      by (intros res; apply answers_send_outcome; auto).
    destruct (a_type (action m)), client; cbn [fst snd existsb answers orb];
      rewrite ?Hresp;
      first [ split; [apply holds_closed; exact Ha|reflexivity]
            | split; [exact Hh|reflexivity]
            | split; [|reflexivity]; unfold holds, awaited_under in *;
              cbn [modal approving]; rewrite Hm, existsb_app, Ha; cbn;
              rewrite Hm; reflexivity ].
  - unfold handleReject. destruct (modal st) as [m|] eqn:Em;
      [|split; [exact Hh|reflexivity]].
    cbn [fst snd]. split; [apply holds_closed; exact Ha|].
    apply answers_send_outcome; auto.
  - unfold tick. destruct (interval st); [|split; [exact Hh|reflexivity]].
    destruct (countdown st <=? 1); cbn [fst snd];
      [|split; [exact Hh|reflexivity]].
    unfold handleReject. cbn [modal].
    destruct (modal st) as [m|] eqn:Em; cbn [fst snd].
    + split; [|apply answers_send_outcome; auto].
      unfold holds, awaited_under in *. cbn. exact Ha.
    + split; [|reflexivity]. unfold holds, awaited_under in *. cbn.
      exact Ha.
  - destruct (approving st !! k) as [s|] eqn:Ek;
      [|split; [exact Hh|reflexivity]].
    unfold resume. cbn [fst snd existsb answers orb]. split.
    + apply holds_closed. unfold awaited_under in *. cbn [approving resumed].
      apply awaited_delete, Ha.
    + apply answers_send_outcome; [reflexivity|].
      eapply awaited_lookup; eauto.
  - cbn [fst snd]. split; [exact Hh|reflexivity].
  - destruct (modal st) as [m|] eqn:Em; [|split; [exact Hh|reflexivity]].
    destruct (a_type (action m)); try (split; [exact Hh|reflexivity]).
    assert (Hh' : holds rid (toggleCodeBox st) = false) by exact Hh.
    destruct (render_answers (toggleCodeBox st, []) Hh') as [H1 ->].
    split; [exact H1|reflexivity].
Qed.

Lemma unmounted_answers (ev : event) (st : state) :
  awaited_under rid st = false →
  awaited_under rid (fst (unmounted ev st)) = false
  ∧ existsb (answers rid) (snd (unmounted ev st)) = false
  ∧ modal (fst (unmounted ev st)) = modal st
  ∧ mounted (fst (unmounted ev st)) = mounted st.
Proof.
  intros Ha. destruct ev; cbn [unmounted fst snd]; auto.
  destruct (approving st !! k) as [s|] eqn:Ek; cbn [fst snd]; auto.
  split; [|split; [|auto]].
  - unfold awaited_under in *. cbn [approving resumed].
    apply awaited_delete, Ha.
  - unfold resume. cbn [snd existsb answers orb].
    apply answers_send_outcome; [reflexivity|].
    eapply awaited_lookup; eauto.
Qed.

Lemma step_answers (ev : event) (st : state) :
  holds rid st = false → carries rid ev = false →
  holds rid (fst (step client ev st)) = false
  ∧ existsb (answers rid) (snd (step client ev st)) = false.
Proof.
  intros Hh Hc. unfold step. destruct (mounted st).
  - apply handle_answers; assumption.
  - pose proof (holds_false st Hh) as [Hm Ha].
    destruct (unmounted_answers ev st Ha) as (Ha1 & Ho & Hm1 & _).
    split; [|exact Ho]. unfold holds in *. rewrite Hm1, Ha1.
    apply orb_false_elim in Hh as [-> _]. reflexivity.
Qed.

Lemma unmounted_run_answers (evs : list event) (st : state) :
  mounted st = false → awaited_under rid st = false →
  existsb (answers rid) (snd (run client evs st)) = false.
Proof.
  revert st. induction evs as [|ev evs IH]; intros st Hmt Ha; [reflexivity|].
  destruct (unmounted_answers ev st Ha) as (Ha1 & Ho & _ & Hmt1).
  cbn [run]. unfold step at 1. rewrite Hmt.
  destruct (unmounted ev st) as [st1 out1]. cbn [fst snd] in *.
  specialize (IH st1). rewrite Hmt1 in IH. specialize (IH Hmt Ha1).
  destruct (run client evs st1) as [st2 out2].
  cbn [snd] in *. apply existsb_app_false; assumption.
Qed.

Lemma run_answers (evs : list event) (st : state) :
  holds rid st = false → existsb (carries rid) evs = false →
  existsb (answers rid) (snd (run client evs st)) = false.
Proof.
  revert st. induction evs as [|ev evs IH]; intros st Hh Hc; [reflexivity|].
  cbn [existsb] in Hc. apply orb_false_elim in Hc as [Hev Hevs].
  destruct (step_answers ev st Hh Hev) as [Hh1 Ho].
  cbn [run]. destruct (step client ev st) as [st1 out1]. cbn [fst snd] in *.
  specialize (IH st1 Hh1 Hevs). destruct (run client evs st1) as [st2 out2].
  cbn [snd] in *. apply existsb_app_false; assumption.
Qed.

End Held.

(** X11. Once a panel request has taken the slot, no runtime message is
    sent under another identifier [rid], unless a message arrives under
    [rid] later or an approved request still waits for the Wallet Client
    under it: a request that was replaced is never answered. *)
Theorem replaced_request_never_answered (c : FeelessClient) (st : state)
    (request : message) (rid : jsstring) (evs : list event) :
  awaited_under rid st = false →
  asks_approval request = true →
  is_str (requestId request) rid = false →
  existsb (carries rid) evs = false →
  existsb (answers rid)
    (snd (run (Some c) (PanelMessage request :: evs) st)) = false.
Proof.
  intros Ha Hask Hreq Hevs.
  destruct (mounted st) eqn:Hmt;
    [|apply unmounted_run_answers; assumption].
  cbn [run]. rewrite step_mounted by exact Hmt. cbn [handle].
  destruct (handlePanelRequest_presents c request st Hask) as (t & out & E).
  pose proof (handlePanelRequest_answers (Some c) rid request st _ out Hreq E)
    as Hout.
  rewrite E.
  assert (Hh : holds rid (setModal (Some (external_request t (requestId request)))
                            st) = false).
  { unfold holds, awaited_under in *. rewrite setModal_Some. cbn.
    rewrite Hreq, Ha. reflexivity. }
  destruct (render_answers rid
              (setModal (Some (external_request t (requestId request))) st, out)
              Hh) as [Hh1 Hout1].
  destruct (render _) as [st1 out1]. cbn [fst snd] in *. subst out1.
  pose proof (run_answers (Some c) rid evs st1 Hh1 Hevs) as Hrun.
  destruct (run (Some c) evs st1) as [st2 out2]. cbn [snd] in *.
  apply existsb_app_false; assumption.
Qed.

Lemma replaced_request_never_answered_witness :
  existsb (answers (js "r1"))
    (snd (run (Some echo_client)
            [PanelMessage (panel_request (js "getPublicKey") Undefined (js "r2"));
             Tick; ClickApprove; Tick; ClickReject]
            (fst (step (Some echo_client)
                    (PanelMessage
                       (panel_request (js "getPublicKey") Undefined (js "r1")))
                    initial)))) = false.
Proof.
  apply (replaced_request_never_answered echo_client
           (fst (step (Some echo_client)
                   (PanelMessage
                      (panel_request (js "getPublicKey") Undefined (js "r1")))
                   initial))
           (panel_request (js "getPublicKey") Undefined (js "r2")) (js "r1")
           [Tick; ClickApprove; Tick; ClickReject]); reflexivity.
Defined.

Lemma sends_send_outcome (m : PendingRequest) (res err : value)
    (settle : option nat) (call : nat → value → effect) (v : value) :
  (∀ p w, sends (call p w) = false) →
  external m = false →
  existsb sends (send_outcome m res err settle call v) = false.
Proof.
  intros Hcall Hm. unfold send_outcome. rewrite Hm. cbn [andb].
  destruct settle; [|reflexivity]. cbn. rewrite Hcall. reflexivity.
Qed.

Lemma in_process_closed (st : state) :
  forallb (fun s => negb (external (s_modal s))) (approving st) = true →
  in_process (setModal None st) = true.
Proof.
  intros Ha. unfold in_process. rewrite setModal_None.
  destruct (modal st) eqn:E; cbn; rewrite ?E; exact Ha.
Qed.

Lemma forallb_delete {A} (f : A → bool) (k : nat) (l : list A) :
  forallb f l = true → forallb f (delete k l) = true.
Proof.
  revert k. induction l as [|x l IH]; intros k H; [destruct k; exact H|].
  cbn in H. apply andb_prop in H as [Hx Hl].
  destruct k; cbn; [exact Hl|]. rewrite Hx. apply IH, Hl.
Qed.

Lemma forallb_lookup {A} (f : A → bool) (k : nat) (l : list A) (x : A) :
  forallb f l = true → l !! k = Some x → f x = true.
Proof.
  revert k. induction l as [|y l IH]; intros k H Hk; [destruct k; discriminate Hk|].
  cbn in H. apply andb_prop in H as [Hy Hl].
  destruct k; cbn in Hk; [injection Hk as <-; exact Hy|eauto].
Qed.

Lemma in_process_render (r : state * list effect) :
  in_process (fst r) = true →
  in_process (fst (render r)) = true ∧ snd (render r) = snd r.
Proof.
  intros Hin. destruct (render_slot r) as [-> [[-> _]|[-> _]]];
    (split; [|reflexivity]); [exact Hin|].
  unfold in_process in *. apply andb_prop in Hin as [_ Ha].
  cbn [unmount modal approving andb]. exact Ha.
Qed.

Lemma logged_out_handle (ev : event) (st : state) :
  in_process st = true →
  in_process (fst (handle None ev st)) = true
  ∧ existsb sends (snd (handle None ev st)) = false.
Proof.
  intros Hin. pose proof Hin as Hin'. unfold in_process in Hin'.
  apply andb_prop in Hin' as [Hm Ha].
  destruct ev; cbn [handle].
  - assert (E : handlePanelRequest None request st = Return (st, [])).
    { unfold handlePanelRequest.
      destruct (is_str (type request) (js "feeless-wallet-panel-request"));
        reflexivity. }
    rewrite E. destruct (in_process_render (st, []) Hin) as [H1 ->]. auto.
  - assert (Hin1 : in_process (requestAction a promise st) = true).
    { unfold requestAction, in_process. rewrite setModal_Some. cbn. exact Ha. }
    destruct (in_process_render (requestAction a promise st, []) Hin1)
      as [H1 ->]. auto.
  - unfold handleApprove. destruct (modal st) as [m|] eqn:Em; [|auto].
    apply negb_true_iff in Hm.
    assert (Hresp : ∀ res, existsb sends (respond m res) = false)
      by (intros res; apply sends_send_outcome; auto).
    destruct (a_type (action m)); cbn [fst snd]; rewrite ?Hresp;
      auto using in_process_closed.
  - unfold handleReject. destruct (modal st) as [m|] eqn:Em; [|auto].
    apply negb_true_iff in Hm. cbn [fst snd].
    split; [apply in_process_closed, Ha|]. apply sends_send_outcome; auto.
  - unfold tick. destruct (interval st); [|auto].
    destruct (countdown st <=? 1); cbn [fst snd];
      [|split; [exact Hin|reflexivity]].
    unfold handleReject. cbn [modal].
    destruct (modal st) as [m|] eqn:Em; cbn [fst snd].
    + apply negb_true_iff in Hm.
      split; [|apply sends_send_outcome; auto].
      unfold in_process. cbn. exact Ha.
    + split; [|reflexivity]. unfold in_process. cbn. exact Ha.
  - destruct (approving st !! k) as [s|] eqn:Ek; [|auto].
    unfold resume. cbn [fst snd existsb sends orb]. split.
    + apply in_process_closed. cbn [approving resumed].
      apply forallb_delete, Ha.
    + apply sends_send_outcome; [reflexivity|].
      apply negb_true_iff.
      apply (forallb_lookup (fun s => negb (external (s_modal s))) k
               (approving st) s Ha Ek).
  - cbn [fst snd]. split; [exact Hin|reflexivity].
  - destruct (modal st) as [m|] eqn:Em; [|auto].
    destruct (a_type (action m)); auto.
    assert (Hin1 : in_process (toggleCodeBox st) = true) by exact Hin.
    destruct (in_process_render (toggleCodeBox st, []) Hin1) as [H1 ->]. auto.
Qed.

Lemma logged_out_unmounted (ev : event) (st : state) :
  in_process st = true →
  in_process (fst (unmounted ev st)) = true
  ∧ existsb sends (snd (unmounted ev st)) = false.
Proof.
  intros Hin. pose proof Hin as Hin'. unfold in_process in Hin'.
  apply andb_prop in Hin' as [Hm Ha].
  destruct ev; cbn [unmounted fst snd]; auto.
  destruct (approving st !! k) as [s|] eqn:Ek; cbn [fst snd]; auto.
  split.
  - unfold in_process. cbn [modal approving resumed]. rewrite Hm.
    apply forallb_delete, Ha.
  - unfold resume. cbn [snd existsb sends orb].
    apply sends_send_outcome; [reflexivity|].
    apply negb_true_iff.
    apply (forallb_lookup (fun s => negb (external (s_modal s))) k
             (approving st) s Ha Ek).
Qed.

Lemma logged_out_step (ev : event) (st : state) :
  in_process st = true →
  in_process (fst (step None ev st)) = true
  ∧ existsb sends (snd (step None ev st)) = false.
Proof.
  intros Hin. unfold step. destruct (mounted st).
  - apply logged_out_handle, Hin.
  - apply logged_out_unmounted, Hin.
Qed.

Lemma logged_out_run (evs : list event) (st : state) :
  in_process st = true →
  existsb sends (snd (run None evs st)) = false.
Proof.
  revert st. induction evs as [|ev evs IH]; intros st Hin; [reflexivity|].
  destruct (logged_out_step ev st Hin) as [Hin1 Ho].
  cbn [run]. destruct (step None ev st) as [st1 out1]. cbn [fst snd] in *.
  specialize (IH st1 Hin1). destruct (run None evs st1) as [st2 out2].
  cbn [snd] in *. rewrite existsb_app, Ho, IH. reflexivity.
Qed.

Lemma logged_out_reachable (st : state) :
  reachable None st → in_process st = true.
Proof.
  induction 1 as [|st ev _ IH]; [reflexivity|].
  apply logged_out_step, IH.
Qed.

(** X12. Without a Wallet Client the panel sends no runtime message at
    all, whatever messages arrive and whatever the user does, and all it
    ever holds are requests made through [requestAction]. *)
Theorem logged_out_panel_silent (evs : list event) :
  existsb sends (snd (run None evs initial)) = false
  ∧ in_process (fst (run None evs initial)) = true.
Proof.
  split; [apply logged_out_run; reflexivity|].
  apply logged_out_reachable, reachable_run, reach_initial.
Qed.

End ApprovalFacts.

(** * Facts about the content script *)

Module ContentScriptFacts.
Import Js ContentScript.

Lemma prop_truthy (v : value) (k : jsstring) :
  truthy v = true → prop v k = Return (get v k).
Proof. destruct v; try discriminate; reflexivity. Qed.

Lemma get_falsy (v : value) (k : jsstring) :
  truthy v = false → get v k = Undefined.
Proof. destruct v; try discriminate; reflexivity. Qed.

Lemma onWindowMessage_sends (sendMessage : completion unit)
    (event : MessageEvent) :
  is_request event = true →
  truthy (data event) = true
  ∧ onWindowMessage sendMessage event
    = match sendMessage with
      | Return _ => Return (Some (request_of event))
      | Throw e => Throw e
      end.
Proof.
  unfold is_request, onWindowMessage. intros [-> Ht]%andb_prop. cbn [negb].
  destruct (truthy (data event)) eqn:Ed.
  - split; [reflexivity|]. rewrite !prop_truthy by exact Ed.
    cbn [mbind completion_bind]. rewrite Ht. destruct sendMessage; reflexivity.
  - rewrite get_falsy in Ht by exact Ed. discriminate Ht.
Qed.

Lemma onWindowMessage_request (event : MessageEvent) :
  is_request event = true →
  truthy (data event) = true
  ∧ onWindowMessage (Return ()) event = Return (Some (request_of event)).
Proof. apply onWindowMessage_sends. Qed.

Lemma onWindowMessage_other (sendMessage : completion unit)
    (event : MessageEvent) :
  is_request event = false → onWindowMessage sendMessage event = Return None.
Proof.
  unfold is_request, onWindowMessage. intros Er.
  destruct (from_window event); [|reflexivity]. cbn [negb andb] in *.
  destruct (truthy (data event)) eqn:Ed; [|reflexivity].
  rewrite !prop_truthy by exact Ed. cbn [mbind completion_bind].
  rewrite Er. reflexivity.
Qed.

Lemma onResponse_request (event : MessageEvent) (response : value) :
  truthy (data event) = true →
  onResponse event response
  = Return (posted event
              (if truthy response then get response (js "result") else response)
              (if truthy response then get response (js "error") else response)).
Proof.
  intros Ed. unfold onResponse. rewrite !(prop_truthy (data event)) by exact Ed.
  cbn [mbind completion_bind].
  destruct (truthy response) eqn:Er; [|reflexivity].
  rewrite !prop_truthy by exact Er. reflexivity.
Qed.

(** X13. The listener of the content script reads every event without
    throwing.  For an event that does not come from the window itself, or
    whose data is not of the type FEELLESS_WALLET_REQUEST, it returns
    without calling the runtime.  For the other events it calls
    [chrome.runtime.sendMessage] once, with the [method] and the [payload]
    of the request, and it throws exactly when that call throws, with what
    the call throws: the listener has no [try] around the call, unlike the
    ping of line 95, which never throws.  The callback of the listener never
    throws, whatever response it is given ([undefined] included), and posts
    a message of type FEELLESS_WALLET_RESPONSE with the [method] and the
    [id] of the request. *)
Theorem bridge_throws_with_sendMessage (sendMessage : completion unit)
    (event : MessageEvent) :
  (is_request event = false → onWindowMessage sendMessage event = Return None)
  ∧ (is_request event = true →
     onWindowMessage sendMessage event
     = match sendMessage with
       | Return _ => Return (Some (request_of event))
       | Throw e => Throw e
       end
     ∧ ∀ response, ∃ res err,
         onResponse event response = Return (posted event res err))
  ∧ (∃ sent, onPingInterval sendMessage = Return sent
             ∧ (is_Some sent ↔ ∃ u, sendMessage = Return u)).
Proof.
  split; [apply onWindowMessage_other|]. split.
  - intros Er. destruct (onWindowMessage_sends sendMessage event Er) as [Ed ->].
    split; [reflexivity|]. intros response.
    rewrite onResponse_request by exact Ed. eauto.
  - unfold onPingInterval. destruct sendMessage as [u|e]; eexists;
      (split; [reflexivity|]); split; eauto.
    + intros [x Hx]. discriminate Hx.
    + intros [u Hu]. discriminate Hu.
Qed.

Lemma bridge_throws_with_sendMessage_witness :
  onWindowMessage (Throw (Error (js "Extension context invalidated.")))
    {| from_window := true;
       data := Obj [(js "type", Str (js "FEELLESS_WALLET_REQUEST"));
                    (js "method", Str (js "alive"))] |}
  = Throw (Error (js "Extension context invalidated."))
  ∧ ∀ response, ∃ res err,
      onResponse {| from_window := true;
                    data := Obj [(js "type", Str (js "FEELLESS_WALLET_REQUEST"));
                                 (js "method", Str (js "alive"))] |} response
      = Return (posted {| from_window := true;
                          data := Obj [(js "type",
                                        Str (js "FEELLESS_WALLET_REQUEST"));
                                       (js "method", Str (js "alive"))] |}
                  res err).
Proof.
  apply (proj1 (proj2 (bridge_throws_with_sendMessage
                  (Throw (Error (js "Extension context invalidated.")))
                  {| from_window := true;
                     data := Obj [(js "type", Str (js "FEELLESS_WALLET_REQUEST"));
                                  (js "method", Str (js "alive"))] |}))).
  reflexivity.
Defined.

End ContentScriptFacts.

(** * Facts about the way from the page to the dispatcher and back *)

Module RelayFacts.
Import Js Background ContentScript Relay BackgroundFacts ContentScriptFacts.

Lemma page_reply_first (event : MessageEvent) (answers : list (Z * message)) :
  truthy (data event) = true →
  page_reply event answers
  = Return (match head answers with
            | Some (t, r) => Some (t, posted event (result r) (error r))
            | None => None
            end).
Proof.
  intros Ed. destruct answers as [|[t r] rest]; [reflexivity|].
  cbn [page_reply head]. rewrite onResponse_request by exact Ed. reflexivity.
Qed.

(** The answer to a [signIn] request that fails the validation. *)
Lemma invalid_signIn_trace (m : message) (caller : nat) (rid : jsstring)
    (st : state) (evs : list Background.event) :
  is_str (method m) (js "signIn") = true →
  nonce_invalid m = true →
  fresh caller st evs = true →
  responses_to caller (snd (trace (Message m caller rid :: evs) st))
  = [(now st, nonce_error)].
Proof.
  intros Hm Hbad Hfresh. unfold fresh in Hfresh.
  apply andb_prop in Hfresh as [[Hl Ht]%andb_prop Hevs].
  apply (forallb_filter_nil caller) in Hl.
  apply (forallb_filter_nil caller) in Ht.
  assert (Hon : onMessage m caller rid st
                = (removeListener {| l_requestId := rid; l_sendResponse := caller |}
                     (addListener {| l_requestId := rid; l_sendResponse := caller |} st),
                   [(now st, console_log m);
                    (now st, sendResponse caller nonce_error)])).
  { unfold onMessage, supported. rewrite Hm, Hbad, !orb_true_r. reflexivity. }
  cbn [trace dispatch]. unfold deliver. rewrite Hon.
  set (st1 := removeListener _ _).
  pose proof (notify_responses caller (listeners st) m st1) as Hr.
  pose proof (notify_frame (listeners st) m st1) as [Ht2 Hn2].
  pose proof (notify_listeners caller (listeners st) m st1) as Hl2.
  destruct (notify (listeners st) m st1) as [st2 out2]. cbn [fst snd] in *.
  assert (Hq : quiet caller st2).
  { split.
    - rewrite Hl2.
      + unfold st1. cbn [removeListener addListener listeners].
        rewrite filter_swap, filter_app, Hl, filter_cons. cbn [l_sendResponse].
        rewrite decide_True by done. cbn [app]. rewrite filter_cons.
        unfold same_closure. cbn [l_sendResponse]. rewrite Nat.eqb_refl.
        rewrite decide_False by done. reflexivity.
      + intros h Hh Hmine. exfalso.
        eapply (filter_nil_not_elem_of _ _ h); [exact Hl|exact Hmine|exact Hh].
    - rewrite Ht2. exact Ht. }
  pose proof (quiet_run caller evs st2 Hq Hevs) as Hrun.
  destruct (trace evs st2) as [st3 out3]. cbn [snd] in *.
  rewrite !responses_to_app, Hr, Hl, Hrun.
  cbn [responses_to flat_map app]. rewrite Nat.eqb_refl. reflexivity.
Qed.

(** X14. From the page and back: a [signIn] request posted on the page
    whose [payload.nonce] is not an integer, or whose payload is missing,
    is answered in the same turn: the page is posted a
    FEELLESS_WALLET_RESPONSE with the [id] and the [method] of the request,
    no result and the error 'Nonce must be an integer'. *)
Theorem page_invalid_signIn (event : MessageEvent) (caller : nat)
    (rid : jsstring) (st : state) (evs : list Background.event) :
  is_request event = true →
  is_str (get (data event) (js "method")) (js "signIn") = true →
  Number_isInteger (get (get (data event) (js "payload")) (js "nonce")) = false →
  fresh caller st evs = true →
  round_trip event caller rid st evs
  = Return (Some (now st,
                  posted event Undefined (Str (js "Nonce must be an integer")))).
Proof.
  intros Hreq Hm Hn Hfresh. unfold round_trip.
  destruct (onWindowMessage_request event Hreq) as [Ed ->].
  cbn [mbind completion_bind].
  rewrite invalid_signIn_trace; auto.
  - rewrite page_reply_first by exact Ed. reflexivity.
  - unfold nonce_invalid, request_of. cbn [payload].
    destruct (truthy (get (data event) (js "payload"))) eqn:Ep; [|reflexivity].
    rewrite prop_truthy by exact Ep. rewrite Hn. reflexivity.
Qed.

Lemma page_invalid_signIn_witness :
  round_trip
    {| from_window := true;
       data := Obj [(js "type", Str (js "FEELLESS_WALLET_REQUEST"));
                    (js "method", Str (js "signIn"));
                    (js "payload", Obj [(js "nonce", Str (js "42"))]);
                    (js "id", Num (Int 7))] |}
    1 (js "k3x9") startup [Elapse 12000]
  = Return (Some (0,
      {| type := Str (js "FEELLESS_WALLET_RESPONSE");
         method := Str (js "signIn"); payload := Undefined;
         requestId := Undefined; id := Num (Int 7); result := Undefined;
         error := Str (js "Nonce must be an integer") |})).
Proof.
  apply (page_invalid_signIn
           {| from_window := true;
              data := Obj [(js "type", Str (js "FEELLESS_WALLET_REQUEST"));
                           (js "method", Str (js "signIn"));
                           (js "payload", Obj [(js "nonce", Str (js "42"))]);
                           (js "id", Num (Int 7))] |}
           1 (js "k3x9") startup [Elapse 12000]); reflexivity.
Defined.

(** X15. From the page and back: for a request that the dispatcher
    broadcasts, the page is posted the result and the error of the first
    answer of the dispatcher, which is the first matching panel response
    or the timeout error at 12000 ms, under the [id] and the [method] of
    the request; it is posted nothing as long as there is no answer. *)
Theorem page_first_answer (event : MessageEvent) (caller : nat)
    (rid : jsstring) (st : state) (evs : list Background.event) :
  is_request event = true →
  supported (request_of event) = true →
  is_str (method (request_of event)) (js "signIn")
    && nonce_invalid (request_of event) = false →
  fresh caller st evs = true →
  round_trip event caller rid st evs
  = Return (match first_answer rid (now st + 12000) (now st) evs with
            | Some (t, r) => Some (t, posted event (result r) (error r))
            | None => None
            end).
Proof.
  intros Hreq Hs Hv Hfresh. unfold round_trip.
  destruct (onWindowMessage_request event Hreq) as [Ed ->].
  cbn [mbind completion_bind]. rewrite page_reply_first by exact Ed.
  unfold fresh in Hfresh.
  apply andb_prop in Hfresh as [[Hl Ht]%andb_prop Hevs].
  cbn [trace dispatch].
  destruct (deliver_waiting caller (request_of event) rid st Hs Hv Hl Ht)
    as (Hr & Hw & Hn).
  destruct (deliver (request_of event) caller rid st) as [st1 out1].
  cbn [fst snd] in *.
  pose proof (waiting_run caller rid (now st + 12000) evs st1 Hw Hevs) as Hrun.
  destruct (trace evs st1) as [st2 out2]. cbn [snd] in *.
  rewrite responses_to_app, Hr, Hn in *. cbn [app]. rewrite Hrun.
  destruct (first_answer rid (now st + 12000) (now st) evs) as [[t r]|];
    reflexivity.
Qed.

Lemma page_first_answer_witness :
  round_trip
    {| from_window := true;
       data := Obj [(js "type", Str (js "FEELLESS_WALLET_REQUEST"));
                    (js "method", Str (js "getPublicKey"));
                    (js "id", Num (Int 7))] |}
    1 (js "k3x9") startup
    [Elapse 3000;
     Message (panel_answer (js "k3x9") (Obj [(js "publicKey", Str (js "04ab"))])
                Undefined) 2 (js "p0");
     Elapse 9000]
  = Return (Some (3000,
      {| type := Str (js "FEELLESS_WALLET_RESPONSE");
         method := Str (js "getPublicKey"); payload := Undefined;
         requestId := Undefined; id := Num (Int 7);
         result := Obj [(js "publicKey", Str (js "04ab"))];
         error := Undefined |})).
Proof.
  apply (page_first_answer
           {| from_window := true;
              data := Obj [(js "type", Str (js "FEELLESS_WALLET_REQUEST"));
                           (js "method", Str (js "getPublicKey"));
                           (js "id", Num (Int 7))] |}
           1 (js "k3x9") startup
           [Elapse 3000;
            Message (panel_answer (js "k3x9")
                       (Obj [(js "publicKey", Str (js "04ab"))]) Undefined)
              2 (js "p0");
            Elapse 9000]); reflexivity.
Defined.

End RelayFacts.

(** * Facts about the whole way of a request *)

Module ExtensionFacts.
Import Js ContentScript Relay Extension.
Import BackgroundFacts ResponseFacts ContentScriptFacts RelayFacts.

Lemma deliver_broadcasts (m : message) (caller : nat) (rid : jsstring)
    (st : Background.state) :
  Background.supported m = true →
  is_str (method m) (js "signIn") && Background.nonce_invalid m = false →
  Background.broadcasts (snd (Background.deliver m caller rid st))
  = [Background.reqMsg m rid].
Proof.
  intros Hs Hv. unfold Background.deliver, Background.onMessage. rewrite Hs, Hv.
  match goal with |- context [Background.notify ?hs m ?s] =>
    pose proof (notify_broadcasts hs m s) as Hb;
    destruct (Background.notify hs m s)
  end. cbn [snd] in *. rewrite broadcasts_app, Hb. reflexivity.
Qed.

Lemma getPublicKey_request (event : MessageEvent) :
  is_str (get (data event) (js "method")) (js "getPublicKey") = true →
  request_of event = Background.request (js "getPublicKey")
                       (get (data event) (js "payload")).
Proof.
  intros Hm. unfold request_of, Background.request.
  destruct (get (data event) (js "method")); try discriminate Hm.
  cbn in Hm. apply bool_decide_eq_true in Hm. subst s. reflexivity.
Qed.

(** X16. The whole way of a [getPublicKey] request: with a Wallet
    Client present, the provider on the page with what it holds rendered,
    and a non-empty generated identifier, when the user
    clicks Approve and the message of the panel reaches the dispatcher
    within 12000 ms, the page is posted the public key of the client as
    the result, under the [id] of its request; when the user clicks
    Reject, it is posted the error 'User denied'. *)
Theorem public_key_reaches_page (event : MessageEvent) (c : Panel.FeelessClient)
    (caller sender : nat) (rid : jsstring) (d : Background.state)
    (p : Panel.state) (wait : N) (later : list Background.event) :
  is_request event = true →
  is_str (get (data event) (js "method")) (js "getPublicKey") = true →
  Background.fresh caller d later = true →
  sender ≠ caller →
  rid ≠ [] →
  Z.of_N wait < 12000 →
  Panel.mounted p = true →
  Panel.renders p = true →
  ask event (Some c) caller sender rid d p [Panel.ClickApprove] wait later
  = Return (Some (Background.now d + Z.of_N wait,
                  posted event (Obj [(js "publicKey", Panel.getPublic c)])
                    Undefined))
  ∧ ask event (Some c) caller sender rid d p [Panel.ClickReject] wait later
    = Return (Some (Background.now d + Z.of_N wait,
                    posted event Undefined (Str (js "User denied")))).
Proof.
  intros Hreq Hm Hfresh Hsender Hrid Hwait Hmt Hrenders.
  destruct (onWindowMessage_request event Hreq) as [Ed Hsent].
  unfold ask. rewrite Hsent. cbn [mbind completion_bind].
  rewrite (getPublicKey_request event Hm).
  set (m := Background.request (js "getPublicKey") _).
  assert (Hs : Background.supported m = true) by reflexivity.
  assert (Hv : is_str (method m) (js "signIn") && Background.nonce_invalid m
               = false) by reflexivity.
  unfold Background.fresh in Hfresh.
  apply andb_prop in Hfresh as [[Hl Ht]%andb_prop _].
  destruct (deliver_waiting caller m rid d Hs Hv Hl Ht) as (Hr & Hw & Hn).
  pose proof (deliver_broadcasts m caller rid d Hs Hv) as Hb.
  destruct (Background.deliver m caller rid d) as [d1 log1].
  cbn [fst snd] in *. rewrite Hb. cbn [fmap list_fmap app].
  assert (Htruthy : truthy (Str rid) = true).
  { cbn. rewrite bool_decide_eq_false_2 by exact Hrid. reflexivity. }
  assert (Hgo : ∀ res err,
    (let '(_, log2) :=
       Background.trace
         (Background.Elapse wait
            :: Background.Message (Panel.panel_response (Str rid) res err)
                 sender [] :: later)
         d1 in
     page_reply event (Background.responses_to caller (log1 ++ log2)))
    = Return (Some (Background.now d + Z.of_N wait, posted event res err))).
  { intros res err. cbn [Background.trace Background.dispatch].
    pose proof (waiting_elapse caller rid _ wait d1 Hw) as He.
    destruct (Z.leb_spec (Background.now d + 12000)
                (Background.now d1 + Z.of_N wait)); [lia|].
    destruct He as (Hr1 & Hw1 & Hn1).
    destruct (Background.elapse wait d1) as [d2 log2]. cbn [fst snd] in *.
    destruct (waiting_message_match caller rid _
                (Panel.panel_response (Str rid) res err) sender [] d2 Hw1
                Hsender) as (Hr2 & _ & _).
    { unfold Background.matches.
      cbn [type requestId Panel.panel_response is_str].
      rewrite !bool_decide_eq_true_2 by reflexivity. reflexivity. }
    destruct (Background.deliver _ sender [] d2) as [d3 log3].
    destruct (Background.trace later d3) as [d4 log4].
    cbn [fst snd] in *.
    rewrite !responses_to_app, Hr, Hr1, Hr2. cbn [app].
    rewrite page_reply_first by exact Ed. cbn [head].
    rewrite Hn1, Hn. reflexivity. }
  assert (Hpresent :
    Panel.handlePanelRequest (Some c) (Background.reqMsg m rid) p
    = Return (Panel.setModal (Some (Panel.external_request Panel.GetPublicKey
                                      (Str rid))) p, [])) by reflexivity.
  assert (Hignored : Panel.step (Some c) (Panel.PanelMessage m) p = (p, [])).
  { rewrite PanelFacts.step_mounted by exact Hmt. cbn [Panel.handle].
    change (Panel.handlePanelRequest (Some c) m p) with (Return (p, []) :
      completion (Panel.state * list Panel.effect)).
    unfold Panel.render. cbn [fst]. rewrite Hrenders. reflexivity. }
  set (p1 := Panel.setModal (Some (Panel.external_request Panel.GetPublicKey
                                     (Str rid))) p).
  assert (Hshown :
    Panel.step (Some c) (Panel.PanelMessage (Background.reqMsg m rid)) p
    = (p1, [])).
  { rewrite PanelFacts.step_mounted by exact Hmt. cbn [Panel.handle].
    rewrite Hpresent. reflexivity. }
  assert (Hmt1 : Panel.mounted p1 = true) by exact Hmt.
  split; cbn [Panel.run]; rewrite Hignored, Hshown;
    rewrite (PanelFacts.step_mounted (Some c)) by exact Hmt1;
    cbn [Panel.handle]; unfold p1.
  - unfold Panel.handleApprove, Panel.respond, Panel.send_outcome.
    rewrite PanelFacts.setModal_Some.
    cbn [Panel.modal Panel.action Panel.a_type Panel.external_request
           Panel.external Panel.p_requestId andb].
    rewrite Htruthy. cbn [app to_dispatcher]. apply Hgo.
  - unfold Panel.handleReject, Panel.send_outcome.
    rewrite PanelFacts.setModal_Some.
    cbn [Panel.modal Panel.action Panel.a_type Panel.external_request
           Panel.external Panel.p_requestId Panel.reject andb].
    rewrite Htruthy. cbn [app to_dispatcher]. apply Hgo.
Qed.

Lemma public_key_reaches_page_witness :
  ask {| from_window := true;
         data := Obj [(js "type", Str (js "FEELLESS_WALLET_REQUEST"));
                      (js "method", Str (js "getPublicKey"));
                      (js "id", Num (Int 7))] |}
    (Some Panel.echo_client) 1 2 (js "k3x9") Background.startup Panel.initial
    [Panel.ClickApprove] 3000 [Background.Elapse 9000]
  = Return (Some (3000,
      {| type := Str (js "FEELLESS_WALLET_RESPONSE");
         method := Str (js "getPublicKey"); payload := Undefined;
         requestId := Undefined; id := Num (Int 7);
         result := Obj [(js "publicKey", Str (js "04ab"))];
         error := Undefined |})).
Proof.
  refine (proj1 (public_key_reaches_page
            {| from_window := true;
               data := Obj [(js "type", Str (js "FEELLESS_WALLET_REQUEST"));
                            (js "method", Str (js "getPublicKey"));
                            (js "id", Num (Int 7))] |}
            Panel.echo_client 1 2 (js "k3x9") Background.startup Panel.initial
            3000 [Background.Elapse 9000] _ _ _ _ _ _ _ _));
    try reflexivity; try discriminate; lia.
Defined.

Lemma to_dispatcher_silent (sender : nat) (out : list Panel.effect) :
  existsb Approval.sends out = false → to_dispatcher sender out = [].
Proof.
  induction out as [|e out IH]; [reflexivity|]. cbn [existsb].
  intros [He Hout]%orb_false_elim. destruct e; try discriminate He;
    cbn [to_dispatcher]; apply IH, Hout.
Qed.

(** X17. The whole way of a request while no Wallet Client is present:
    whatever happens at the panel, nothing comes back from it, and when no
    other message answers under the generated identifier the page is
    posted the error 'Timeout waiting for user response', 12000 ms after
    the request. *)
Theorem logged_out_page_times_out (event : MessageEvent) (caller sender : nat)
    (rid : jsstring) (d : Background.state) (p : Panel.state)
    (user : list Panel.event) (wait : N) (later : list Background.event) :
  is_request event = true →
  Background.supported (request_of event) = true →
  is_str (method (request_of event)) (js "signIn")
    && Background.nonce_invalid (request_of event) = false →
  Background.fresh caller d later = true →
  Background.silent rid later = true →
  Panel.reachable None p →
  12000 ≤ Z.of_N wait + Background.elapsed later →
  ask event None caller sender rid d p user wait later
  = Return (Some (Background.now d + 12000,
                  posted event Undefined
                    (Str (js "Timeout waiting for user response")))).
Proof.
  intros Hreq Hs Hv Hfresh Hsilent Hp Hlate.
  destruct (onWindowMessage_request event Hreq) as [Ed Hsent].
  unfold ask. rewrite Hsent. cbn [mbind completion_bind].
  pose proof (timeout_when_panel_silent (request_of event) caller rid d
                (Background.Elapse wait :: later) Hs Hv) as Htimeout.
  cbn [Background.trace Background.dispatch] in Htimeout.
  destruct (Background.deliver (request_of event) caller rid d) as [d1 log1].
  pose proof (ApprovalFacts.logged_out_run
                (Panel.PanelMessage (request_of event)
                   :: (Panel.PanelMessage <$> Background.broadcasts log1) ++ user)
                p
                (ApprovalFacts.logged_out_reachable p Hp)) as Hquiet.
  destruct (Panel.run None _ p) as [p1 out]. cbn [snd] in Hquiet.
  rewrite (to_dispatcher_silent sender out Hquiet). cbn [app].
  cbn [Background.trace Background.dispatch].
  destruct (Background.elapse wait d1) as [d2 log2].
  destruct (Background.trace later d2) as [d3 log3]. cbn [snd] in *.
  rewrite Htimeout.
  - rewrite page_reply_first by exact Ed. reflexivity.
  - exact Hfresh.
  - cbn [Background.silent forallb]. exact Hsilent.
  - cbn [Background.elapsed]. exact Hlate.
Qed.

Lemma logged_out_page_times_out_witness :
  ask {| from_window := true;
         data := Obj [(js "type", Str (js "FEELLESS_WALLET_REQUEST"));
                      (js "method", Str (js "send"));
                      (js "payload",
                       Obj [(js "amount", Num (Int 500));
                            (js "to", Str (js "addr123"));
                            (js "token", Str (js "USD"))]);
                      (js "id", Num (Int 7))] |}
    None 1 2 (js "k3x9") Background.startup Panel.initial
    [Panel.ClickApprove; Panel.Tick] 5000 [Background.Elapse 7000]
  = Return (Some (12000,
      {| type := Str (js "FEELLESS_WALLET_RESPONSE");
         method := Str (js "send"); payload := Undefined;
         requestId := Undefined; id := Num (Int 7); result := Undefined;
         error := Str (js "Timeout waiting for user response") |})).
Proof.
  apply (logged_out_page_times_out
           {| from_window := true;
              data := Obj [(js "type", Str (js "FEELLESS_WALLET_REQUEST"));
                           (js "method", Str (js "send"));
                           (js "payload",
                            Obj [(js "amount", Num (Int 500));
                                 (js "to", Str (js "addr123"));
                                 (js "token", Str (js "USD"))]);
                           (js "id", Num (Int 7))] |}
           1 2 (js "k3x9") Background.startup Panel.initial
           [Panel.ClickApprove; Panel.Tick] 5000 [Background.Elapse 7000]);
    first [reflexivity | apply Panel.reach_initial | cbn; lia].
Defined.

Lemma all_answers_quiet (rid : jsstring) (deadline t : Z)
    (evs : list Background.event) :
  Background.silent rid evs = true → t < deadline →
  Responses.all_answers rid deadline t evs
  = if deadline <=? t + Background.elapsed evs
    then [(deadline, Background.timeout_error)] else [].
Proof.
  revert t. induction evs as [|[m c r|ms] evs IH]; intros t Hs Ht;
    cbn [Responses.all_answers Background.elapsed Background.silent forallb]
      in *.
  - destruct (Z.leb_spec deadline (t + 0)); [lia|reflexivity].
  - apply andb_prop in Hs as [Hm Hs]. apply negb_true_iff in Hm. rewrite Hm.
    apply IH; assumption.
  - apply andb_prop in Hs as [_ Hs].
    assert (He : 0 ≤ Background.elapsed evs).
    { clear. induction evs as [|[]]; cbn; lia. }
    pose proof (N2Z.is_nonneg ms) as Hms.
    destruct (Z.leb_spec deadline (t + Z.of_N ms)) as [Hle|Hgt].
    + destruct (Z.leb_spec deadline (t + (Z.of_N ms + Background.elapsed evs)));
        [reflexivity|lia].
    + rewrite IH by assumption.
      replace (t + Z.of_N ms + Background.elapsed evs)
        with (t + (Z.of_N ms + Background.elapsed evs)) by lia.
      reflexivity.
Qed.

Lemma logged_out_ignores (request : message) (p : Panel.state) :
  Panel.reachable None p →
  Panel.step None (Panel.PanelMessage request) p = (p, []).
Proof.
  intros Hp. pose proof (PanelFacts.reachable_on_page None p Hp) as Hpage.
  unfold Panel.on_page in Hpage. unfold Panel.step.
  destruct (Panel.mounted p); [|reflexivity]. cbn [Panel.handle].
  assert (E : Panel.handlePanelRequest None request p = Return (p, [])).
  { unfold Panel.handlePanelRequest.
    destruct (is_str (type request) (js "feeless-wallet-panel-request"));
      reflexivity. }
  rewrite E. unfold Panel.render. cbn [fst]. rewrite Hpage. reflexivity.
Qed.

(** C4. Without a Wallet Client the panel drops the request that the
    dispatcher broadcasts for a caller: its state is unchanged and it
    sends nothing, then and whatever happens at the panel afterwards.  So
    the dispatcher forwards nothing, and unless another message answers
    under the generated identifier the caller gets nothing until 12000 ms
    have passed and then the error 'Timeout waiting for user response',
    once.  This holds for every supported method, [alive] included. *)
Theorem logged_out_caller_times_out (m : message) (caller sender : nat)
    (rid : jsstring) (d : Background.state) (p : Panel.state)
    (user : list Panel.event) (wait : N) (later : list Background.event) :
  Background.supported m = true →
  is_str (method m) (js "signIn") && Background.nonce_invalid m = false →
  Background.fresh caller d later = true →
  Background.silent rid later = true →
  Panel.reachable None p →
  Panel.step None (Panel.PanelMessage (Background.reqMsg m rid)) p = (p, [])
  ∧ existsb Approval.sends
      (snd (Panel.run None
              (Panel.PanelMessage m
                 :: Panel.PanelMessage (Background.reqMsg m rid) :: user) p))
    = false
  ∧ call m None caller sender rid d p user wait later
    = if 12000 <=? Z.of_N wait + Background.elapsed later
      then [(Background.now d + 12000, Background.timeout_error)]
      else [].
Proof.
  intros Hs Hv Hfresh Hsilent Hp.
  split; [apply logged_out_ignores, Hp|].
  split; [apply ApprovalFacts.logged_out_run,
            ApprovalFacts.logged_out_reachable, Hp|].
  unfold call.
  destruct (request_trace caller m rid d (Background.Elapse wait :: later)
              Hs Hv Hfresh) as [Htrace _].
  cbn [Background.trace Background.dispatch] in Htrace.
  destruct (Background.deliver m caller rid d) as [d1 log1].
  pose proof (ApprovalFacts.logged_out_run
                (Panel.PanelMessage m
                   :: (Panel.PanelMessage <$> Background.broadcasts log1) ++ user)
                p (ApprovalFacts.logged_out_reachable p Hp)) as Hquiet.
  destruct (Panel.run None _ p) as [p1 out]. cbn [snd] in Hquiet.
  rewrite (to_dispatcher_silent sender out Hquiet). cbn [app].
  cbn [Background.trace Background.dispatch].
  destruct (Background.elapse wait d1) as [d2 log2].
  destruct (Background.trace later d2) as [d3 log3]. cbn [snd] in *.
  rewrite Htrace.
  rewrite all_answers_quiet by (cbn [Background.silent forallb]; auto; lia).
  cbn [Background.elapsed].
  replace (Background.now d + 12000
             <=? Background.now d + (Z.of_N wait + Background.elapsed later))
    with (12000 <=? Z.of_N wait + Background.elapsed later); [reflexivity|].
  destruct (Z.leb_spec 12000 (Z.of_N wait + Background.elapsed later)),
    (Z.leb_spec (Background.now d + 12000)
       (Background.now d + (Z.of_N wait + Background.elapsed later)));
    lia || reflexivity.
Qed.

Lemma logged_out_caller_times_out_witness :
  call (Background.request (js "send")
          (Obj [(js "amount", Num (Int 500)); (js "to", Str (js "addr123"));
                (js "token", Str (js "USD"))]))
    None 1 2 (js "k3x9") Background.startup Panel.initial
    [Panel.ClickApprove; Panel.Tick] 5000 [Background.Elapse 7000]
  = [(12000, Background.timeout_error)].
Proof.
  refine (proj2 (proj2 (logged_out_caller_times_out
            (Background.request (js "send")
               (Obj [(js "amount", Num (Int 500)); (js "to", Str (js "addr123"));
                     (js "token", Str (js "USD"))]))
            1 2 (js "k3x9") Background.startup Panel.initial
            [Panel.ClickApprove; Panel.Tick] 5000 [Background.Elapse 7000]
            _ _ _ _ _)));
    first [reflexivity | apply Panel.reach_initial].
Defined.

End ExtensionFacts.

(** * Facts about the login screen *)

Module LoginFacts.
Import Js Storage LoginScreen StorageFacts.

Lemma truthy_filled (st : login_form) :
  negb (truthy (Str (privateKey st))) || negb (truthy (Str (wsNode st)))
  || negb (truthy (Str (httpNode st))) = negb (filled st).
Proof.
  unfold filled. cbn [truthy].
  destruct (bool_decide (privateKey st = [])),
    (bool_decide (wsNode st = [])), (bool_decide (httpNode st = []));
    reflexivity.
Qed.

(** The record of the three fields of the form. *)
Lemma mount_effect_saved (c : WalletCredentials) (localStorage : storage) :
  mount_effect (with_credentials c localStorage)
  = Some (Some (JString (Storage.privateKey c)),
          Some (JString (Storage.wsNode c)),
          Some (JString (Storage.httpNode c))).
Proof.
  unfold mount_effect, with_credentials.
  rewrite lookup_insert_eq, stringify_truthy, JSON_parse_stringify.
  reflexivity.
Qed.

(** X18. [handleLogin] with all three fields filled in saves them when
    the store takes them, that is when the area with the record in it is
    within the quota: it then calls [onLogin] with them, and the next mount
    of the login screen gets the same three strings back from the store
    for its fields, however the call of [onLogin] ended.  When the store
    refuses the record, nothing is saved, [onLogin] is not called, the
    message of the QuotaExceededError is shown and the promise is
    rejected.  With a field left empty it saves nothing, calls nothing and
    shows 'Please fill in all fields'. *)
Theorem login_saves_and_prefills (quota : N) (onLogin : thrown)
    (st : login_form) (localStorage : storage) :
  (filled st = true →
   (usage (with_credentials (entered st) localStorage) ≤ quota)%N →
   snd (fst (fst (handleLogin quota onLogin st localStorage)))
     = with_credentials (entered st) localStorage
   ∧ snd (fst (handleLogin quota onLogin st localStorage))
     = [call_onLogin (privateKey st) (wsNode st) (httpNode st)]
   ∧ mount_effect (snd (fst (fst (handleLogin quota onLogin st localStorage))))
     = Some (Some (JString (privateKey st)), Some (JString (wsNode st)),
             Some (JString (httpNode st))))
  ∧ (filled st = true →
     (quota < usage (with_credentials (entered st) localStorage))%N →
     handleLogin quota onLogin st localStorage
     = ({| privateKey := privateKey st; wsNode := wsNode st;
           httpNode := httpNode st; loading := false;
           error := Some (MessageOf QuotaExceededError) |},
        localStorage, [], true))
  ∧ (filled st = false →
     handleLogin quota onLogin st localStorage
     = ({| privateKey := privateKey st; wsNode := wsNode st;
           httpNode := httpNode st; loading := loading st;
           error := Some (Text (js "Please fill in all fields")) |},
        localStorage, [], false)).
Proof.
  unfold handleLogin. rewrite truthy_filled.
  change {| Storage.privateKey := privateKey st; Storage.wsNode := wsNode st;
            Storage.httpNode := httpNode st |} with (entered st).
  rewrite saveWalletCredentials_spec.
  split; [|split]; intros ->; cbn [negb]; try reflexivity; intros Hq.
  - destruct (N.leb_spec (usage (with_credentials (entered st) localStorage))
                quota); [|lia].
    pose proof (mount_effect_saved (entered st) localStorage) as Hm.
    destruct onLogin; cbn [fst snd]; auto.
  - destruct (N.leb_spec (usage (with_credentials (entered st) localStorage))
                quota); [lia|]. reflexivity.
Qed.

Lemma login_saves_and_prefills_witness :
  mount_effect
    (snd (fst (fst (handleLogin five_mebi Returns
       {| privateKey := js "5f3a"; wsNode := js "ws://localhost:6061";
          httpNode := js "http://localhost:8000"; loading := false;
          error := None |} ∅))))
  = Some (Some (JString (js "5f3a")), Some (JString (js "ws://localhost:6061")),
          Some (JString (js "http://localhost:8000"))).
Proof.
  refine (proj2 (proj2 (proj1 (login_saves_and_prefills five_mebi Returns
    {| privateKey := js "5f3a"; wsNode := js "ws://localhost:6061";
       httpNode := js "http://localhost:8000"; loading := false;
       error := None |} ∅) _ _))).
  - reflexivity.
  - vm_compute. discriminate.
Defined.

Lemma destructure_returns (v : json) :
  v ≠ JNull → ∃ fields, destructure v = Return fields.
Proof. destruct v; intros Hv; try (eexists; reflexivity). congruence. Qed.

(** X19. The effect that fills in the login screen reads the store by
    itself, and it agrees with [getWalletCredentials]: it sets no field
    exactly when [getWalletCredentials] returns [null], and otherwise it
    sets the fields to the three properties of the value that
    [getWalletCredentials] returns. *)
Theorem mount_effect_agrees (localStorage : storage) :
  (mount_effect localStorage = None
   ↔ getWalletCredentials localStorage = Return JNull)
  ∧ (∀ v, getWalletCredentials localStorage = Return v → v ≠ JNull →
          ∃ fields, destructure v = Return fields
                    ∧ mount_effect localStorage = Some fields).
Proof.
  unfold mount_effect, getWalletCredentials.
  destruct (localStorage !! js "wallet_credentials") as [stored|];
    [|split; [tauto|intros v [= <-] Hv; congruence]].
  destruct (truthy (Str stored)); cbn [negb];
    [|split; [tauto|intros v [= <-] Hv; congruence]].
  destruct (JSON_parse stored) as [v|e]; cbn [mbind completion_bind];
    [|split; [tauto|intros v [= <-] Hv; congruence]].
  split.
  - destruct v; cbn [destructure]; split; intros H;
      try reflexivity; try discriminate H.
  - intros v' [= <-] Hv. destruct (destructure_returns v Hv) as [fields Hf].
    exists fields. rewrite Hf. split; reflexivity.
Qed.

Lemma mount_effect_agrees_witness :
  mount_effect {[ js "wallet_credentials" := js "null" ]} = None.
Proof.
  apply (proj1 (mount_effect_agrees {[ js "wallet_credentials" := js "null" ]})).
  reflexivity.
Defined.

End LoginFacts.

(** * The stored form of the credentials *)

Module CredentialFacts.
Import Js Storage StorageFacts.

(** X20. Two different credential records are never stored as the same
    string: the stores that hold them differ, and so do the stores that
    [saveWalletCredentials] returns for them, whatever the quota. *)
Theorem distinct_credentials (c1 c2 : WalletCredentials)
    (localStorage : storage) :
  c1 ≠ c2 →
  JSON_stringify c1 ≠ JSON_stringify c2
  ∧ with_credentials c1 localStorage ≠ with_credentials c2 localStorage
  ∧ ∀ quota saved,
      saveWalletCredentials quota c1 localStorage = Return saved →
      saveWalletCredentials quota c2 localStorage ≠ Return saved.
Proof.
  intros Hne.
  assert (Hs : JSON_stringify c1 ≠ JSON_stringify c2).
  { intros H. apply Hne. apply (f_equal JSON_parse) in H.
    rewrite !JSON_parse_stringify in H. injection H as H1 H2 H3.
    destruct c1, c2. cbn in *. congruence. }
  assert (Hw : with_credentials c1 localStorage
               ≠ with_credentials c2 localStorage).
  { unfold with_credentials. intros H.
    apply (f_equal (lookup (js "wallet_credentials"))) in H.
    rewrite !lookup_insert_eq in H. congruence. }
  split; [exact Hs|]. split; [exact Hw|].
  intros quota saved. rewrite !saveWalletCredentials_spec.
  destruct (_ <=? _)%N; [|discriminate].
  destruct (_ <=? _)%N; [|discriminate]. congruence.
Qed.

Lemma distinct_credentials_witness :
  JSON_stringify {| privateKey := js "a,b"; wsNode := js "c"; httpNode := js "d" |}
  ≠ JSON_stringify {| privateKey := js "a"; wsNode := js "b,c"; httpNode := js "d" |}.
Proof.
  apply (distinct_credentials
           {| privateKey := js "a,b"; wsNode := js "c"; httpNode := js "d" |}
           {| privateKey := js "a"; wsNode := js "b,c"; httpNode := js "d" |} ∅).
  discriminate.
Defined.

End CredentialFacts.

(** * Facts about the screens *)

Module AppFacts.
Import Js App.

Lemma step_keeps (ev : app_event) (st : app_state) :
  (screen st ≠ login → is_Some (client st)) →
  (screen (app_step ev st) ≠ login → is_Some (client (app_step ev st)))
  ∧ (screen st ≠ login → screen (app_step ev st) ≠ login).
Proof.
  intros Hinv. destruct ev as [c success|t token|]; cbn [app_step].
  - unfold init_settled. destruct success; cbn; [|tauto].
    split; [eauto|discriminate].
  - unfold rendered. destruct (screen st) eqn:Es, (client st) eqn:Ec;
      cbn; rewrite ?Es, ?Ec; try tauto;
      split; eauto; destruct t; discriminate.
  - unfold rendered. destruct (screen st) eqn:Es, (client st) eqn:Ec;
      cbn; rewrite ?Es, ?Ec; try tauto; split; eauto; discriminate.
Qed.

(** X21. Whatever the order in which logins settle and the user
    navigates, the page is never blank: the login screen is shown, or a
    wallet screen together with a Wallet Client; and once another screen
    than the login screen is shown, the login screen does not come back. *)
Theorem app_never_blank (evs1 evs2 : list app_event) :
  is_Some (rendered (app_run evs1 launched))
  ∧ (screen (app_run evs1 launched) ≠ login →
     screen (app_run evs2 (app_run evs1 launched)) ≠ login).
Proof.
  assert (Hinv : ∀ evs st, (screen st ≠ login → is_Some (client st)) →
            (screen (app_run evs st) ≠ login → is_Some (client (app_run evs st)))
            ∧ (screen st ≠ login → screen (app_run evs st) ≠ login)).
  { induction evs as [|ev evs IH]; intros st Hst; [tauto|].
    unfold app_run in *. cbn [fold_left].
    destruct (step_keeps ev st Hst) as [H1 H2].
    destruct (IH (app_step ev st) H1) as [H3 H4]. split; auto. }
  assert (H0 : screen launched ≠ login → is_Some (client launched))
    by (intros H; exfalso; apply H; reflexivity).
  destruct (Hinv evs1 launched H0) as [H1 _].
  split.
  - unfold rendered. destruct (screen (app_run evs1 launched)) eqn:Es; [eauto| | |];
      (destruct H1 as [c ->]; [discriminate|eauto]).
  - apply (Hinv evs2 (app_run evs1 launched) H1).
Qed.

Lemma app_never_blank_witness :
  screen (app_run [Back; InitSettled 2 false]
            (app_run [InitSettled 1 true; Navigate to_send None] launched))
  ≠ login.
Proof.
  apply (proj2 (app_never_blank [InitSettled 1 true; Navigate to_send None]
                  [Back; InitSettled 2 false])).
  discriminate.
Defined.

End AppFacts.

(** * Facts about the mint screen *)

Module MintFacts.
Import Js MintScreen NumberFacts.

Lemma upper_lower (name : jsstring) :
  forallb is_upper name = true →
  lower <$> name = js "flss" → name = js "FLSS".
Proof.
  intros Hu Hl.
  assert (Hinj : ∀ c d, is_upper c = true → lower c = d → c = (d - 32)%N).
  { intros c d Hc <-. unfold lower. rewrite Hc. lia. }
  do 5 (destruct name as [|? name]; try discriminate Hl).
  cbn [forallb] in Hu. repeat apply andb_prop in Hu as [? Hu].
  injection Hl as Hl1 Hl2 Hl3 Hl4.
  repeat match goal with
  | Hc : is_upper ?c = true, He : lower ?c = _ |- _ =>
      apply (Hinj _ _ Hc) in He; subst c
  end. reflexivity.
Qed.

(** X22. [validateTokenName] accepts exactly the names of 1 to 19
    letters A to Z other than FLSS. *)
Theorem validateTokenName_accepts (name : jsstring) :
  validateTokenName name = None
  ↔ (1 ≤ length name ≤ 19)%nat ∧ forallb is_upper name = true
    ∧ name ≠ js "FLSS".
Proof.
  unfold validateTokenName. split.
  - repeat case_bool_decide; try discriminate.
    destruct (Nat.leb_spec 20 (length name)); [discriminate|].
    destruct (forallb is_upper name) eqn:Hu; [|discriminate]. intros _.
    repeat split; auto.
    + destruct name; [congruence|cbn; lia].
    + lia.
    + intros ->. auto.
  - intros ([H1 H2] & Hu & Hne).
    rewrite bool_decide_eq_false_2 by (intros ->; cbn in H1; lia).
    rewrite bool_decide_eq_false_2
      by (intros Hl; apply Hne, upper_lower; assumption).
    destruct (Nat.leb_spec 20 (length name)); [lia|]. rewrite Hu. reflexivity.
Qed.

Lemma validateTokenName_accepts_witness :
  validateTokenName (js "ABC") = None.
Proof.
  apply (proj2 (validateTokenName_accepts (js "ABC"))).
  split; [cbn; lia|]. split; [reflexivity|discriminate].
Defined.

Lemma digit_range (c : N) :
  Storage.is_digit c = true → (48 ≤ c ≤ 57)%N.
Proof.
  unfold Storage.is_digit. intros [H1 H2]%andb_prop.
  apply N.leb_le in H1. apply N.leb_le in H2. lia.
Qed.

Lemma digit_value_digit (c : N) :
  Storage.is_digit c = true → digit_value 10 c = Some (Z.of_N c - 48).
Proof.
  intros Hc. pose proof (digit_range c Hc) as Hr. unfold digit_value.
  unfold Storage.is_digit in Hc. rewrite Hc.
  destruct (Z.ltb_spec (Z.of_N c - 48) 10); [reflexivity|lia].
Qed.

Lemma read_digits_decimal (s : jsstring) (a : Z) :
  forallb Storage.is_digit s = true →
  read_digits 10 s (Some a)
  = Some (fold_left (fun acc c => 10 * acc + (Z.of_N c - 48)) s a).
Proof.
  revert a. induction s as [|c s IH]; intros a Hs; [reflexivity|].
  cbn [forallb] in Hs. apply andb_prop in Hs as [Hc Hs].
  cbn [read_digits fold_left]. rewrite digit_value_digit by exact Hc.
  apply IH, Hs.
Qed.

Lemma parseInt_digits (value : jsstring) :
  all_digits value = true →
  parseInt value
  = if round53 (decimal_value value) <? 2 ^ 1024
    then PNum false (round53 (decimal_value value))
    else PInfinity false.
Proof.
  unfold all_digits. intros [Hne Hd]%andb_prop.
  destruct value as [|c value]; [discriminate Hne|].
  cbn [forallb] in Hd. apply andb_prop in Hd as [Hc Hd].
  pose proof (digit_range c Hc) as Hr.
  assert (Hread : read_digits 10 (c :: value) None
                  = Some (decimal_value (c :: value))).
  { cbn [read_digits]. rewrite digit_value_digit by exact Hc.
    rewrite read_digits_decimal by exact Hd. reflexivity. }
  assert (Hspace : is_space c = false).
  { unfold is_space.
    repeat match goal with
    | |- context [(?a <=? ?b)%N] => destruct (N.leb_spec a b); try lia
    | |- context [(?a =? ?b)%N] => destruct (N.eqb_spec a b); try lia
    end; reflexivity. }
  unfold parseInt. cbn [trim_start]. rewrite Hspace. unfold strip_sign.
  destruct (N.eqb_spec c 45); [lia|]. destruct (N.eqb_spec c 43); [lia|].
  assert (Hradix : strip_radix (c :: value) = (10, c :: value)).
  { unfold strip_radix. destruct value as [|x value]; [reflexivity|].
    cbn [forallb] in Hd. apply andb_prop in Hd as [Hx _].
    pose proof (digit_range x Hx).
    destruct (N.eqb_spec x 120); [lia|]. destruct (N.eqb_spec x 88); [lia|].
    rewrite andb_false_r. reflexivity. }
  rewrite Hradix, Hread. reflexivity.
Qed.

Lemma fold_digits_nonneg (s : jsstring) (a : Z) :
  0 ≤ a → forallb Storage.is_digit s = true →
  0 ≤ fold_left (fun acc c => 10 * acc + (Z.of_N c - 48)) s a.
Proof.
  revert a. induction s as [|c s IH]; intros a Ha Hs; [exact Ha|].
  cbn [forallb] in Hs. apply andb_prop in Hs as [Hc Hs].
  pose proof (digit_range c Hc). cbn [fold_left]. apply IH; [lia|exact Hs].
Qed.

Lemma decimal_value_nonneg (s : jsstring) :
  all_digits s = true → 0 ≤ decimal_value s.
Proof.
  unfold all_digits. intros [_ Hs]%andb_prop.
  apply fold_digits_nonneg; [lia|exact Hs].
Qed.

Lemma round53_safe (y : Z) : 0 ≤ y ≤ MAX_SAFE_INTEGER → round53 y = y.
Proof.
  unfold MAX_SAFE_INTEGER. intros Hy. apply round53_small.
  destruct (Z.eq_dec y 0) as [->|Hne]; [reflexivity|].
  apply Z.log2_lt_pow2; lia.
Qed.

Lemma round53_unsafe (y : Z) : MAX_SAFE_INTEGER < y → MAX_SAFE_INTEGER < round53 y.
Proof.
  unfold MAX_SAFE_INTEGER. intros Hy.
  assert (53 ≤ Z.log2 y) by (apply Z.log2_le_pow2; lia).
  pose proof (round53_large y). lia.
Qed.

Lemma parseInt_accepted (value : jsstring) :
  all_digits value = true →
  decimal_value value ≤ MAX_SAFE_INTEGER →
  parseInt value = PNum false (decimal_value value).
Proof.
  intros Hd Hle. pose proof (decimal_value_nonneg value Hd) as H0.
  rewrite parseInt_digits by exact Hd.
  rewrite round53_safe by lia.
  destruct (Z.ltb_spec (decimal_value value) (2 ^ 1024)) as [_|Hbig];
    [reflexivity|].
  exfalso. unfold MAX_SAFE_INTEGER in Hle.
  assert (2 ^ 53 < 2 ^ 1024) by (apply Z.pow_lt_mono_r; lia). lia.
Qed.

Lemma unsafe_digits (value : jsstring) :
  all_digits value = true →
  unsafe (parseInt value) = (MAX_SAFE_INTEGER <? decimal_value value).
Proof.
  intros Hd. destruct (Z.ltb_spec MAX_SAFE_INTEGER (decimal_value value)) as [Hgt|Hle].
  - rewrite parseInt_digits by exact Hd.
    pose proof (round53_unsafe _ Hgt) as Hr.
    destruct (round53 (decimal_value value) <? 2 ^ 1024); cbn [unsafe negb andb];
      [|reflexivity].
    destruct (Z.ltb_spec MAX_SAFE_INTEGER (round53 (decimal_value value)));
      [reflexivity|lia].
  - rewrite parseInt_accepted by assumption. cbn [unsafe negb andb].
    destruct (Z.ltb_spec MAX_SAFE_INTEGER (decimal_value value)); [lia|reflexivity].
Qed.

(** What [handleAirdropChange] and [handleMiningRewardChange] do with
    their field: [None] leaves it as it is. *)
Lemma amount_change (value : jsstring) :
  (bool_decide (value = []) || all_digits value)
  && negb (unsafe (if bool_decide (value = []) then PNum false 0
                   else parseInt value))
  = accepted value.
Proof.
  unfold accepted. case_bool_decide as Hv; cbn [orb andb].
  - reflexivity.
  - destruct (all_digits value) eqn:Hd; cbn [andb]; [|reflexivity].
    rewrite unsafe_digits by exact Hd.
    destruct (Z.ltb_spec MAX_SAFE_INTEGER (decimal_value value)),
      (Z.leb_spec (decimal_value value) MAX_SAFE_INTEGER); try lia; reflexivity.
Qed.

(** What the two handlers do with their fields. *)
Lemma amount_handlers (value : jsstring) (st : mint_form) :
  (accepted value = true →
   airdrop (handleAirdropChange value st) = value
   ∧ error (handleAirdropChange value st) = None
   ∧ miningReward (handleMiningRewardChange value st) = value
   ∧ error (handleMiningRewardChange value st) = None)
  ∧ (accepted value = false →
     airdrop (handleAirdropChange value st) = airdrop st
     ∧ miningReward (handleMiningRewardChange value st) = miningReward st)
  ∧ (accepted (airdrop st) = true →
     accepted (airdrop (handleAirdropChange value st)) = true)
  ∧ (accepted (miningReward st) = true →
     accepted (miningReward (handleMiningRewardChange value st)) = true).
Proof.
  pose proof (amount_change value) as H.
  unfold handleAirdropChange, handleMiningRewardChange.
  destruct (bool_decide (value = []) || all_digits value);
    cbn [andb] in H; [|rewrite <- H; repeat split; auto; discriminate].
  destruct (unsafe _); cbn [negb] in H; rewrite <- H;
    repeat split; auto; discriminate.
Qed.

Lemma accepted_value (s : jsstring) :
  accepted s = true → s ≠ [] →
  all_digits s = true ∧ decimal_value s ≤ MAX_SAFE_INTEGER
  ∧ parseInt s = PNum false (decimal_value s).
Proof.
  unfold accepted. intros H Hs.
  rewrite bool_decide_eq_false_2 in H by exact Hs. cbn [orb] in H.
  apply andb_prop in H as [Hd Hle]. apply Z.leb_le in Hle.
  auto using parseInt_accepted.
Qed.

Lemma handleMint_fields (st : mint_form) :
  airdrop (fst (handleMint st)) = airdrop st
  ∧ miningReward (fst (handleMint st)) = miningReward st.
Proof.
  unfold handleMint.
  repeat match goal with
  | |- context [match ?x with _ => _ end] => destruct x
  end; split; reflexivity.
Qed.

(** Whatever happens to the form, the two amount fields hold what their
    handlers take. *)
Lemma mint_run_accepted (evs : list mint_event) (st : mint_form) :
  accepted (airdrop st) = true → accepted (miningReward st) = true →
  accepted (airdrop (fst (mint_run evs st))) = true
  ∧ accepted (miningReward (fst (mint_run evs st))) = true.
Proof.
  revert st. induction evs as [|ev evs IH]; intros st Ha Hr; [auto|].
  cbn [mint_run].
  assert (Hstep : accepted (airdrop (fst (mint_step ev st))) = true
                  ∧ accepted (miningReward (fst (mint_step ev st))) = true).
  { destruct ev as [v|e|v|v|b| |[[|]|m|]]; cbn [mint_step fst]; auto.
    - split; [apply amount_handlers, Ha|].
      unfold handleAirdropChange.
      repeat match goal with
      | |- context [if ?x then _ else _] => destruct x
      end; exact Hr.
    - split; [|apply amount_handlers, Hr].
      unfold handleMiningRewardChange.
      repeat match goal with
      | |- context [if ?x then _ else _] => destruct x
      end; exact Ha.
    - destruct (handleMint_fields st) as [-> ->]. auto. }
  destruct (mint_step ev st) as [st1 out1]. cbn [fst] in Hstep.
  destruct Hstep as [Ha1 Hr1]. specialize (IH st1 Ha1 Hr1).
  destruct (mint_run evs st1). exact IH.
Qed.

(** X23. [handleAirdropChange] and [handleMiningRewardChange] take a
    value into their field exactly when it is empty or a string of decimal
    digits that denotes an integer up to 2^53 - 1, and clear the error
    then; any other value leaves the field as it was.  So, whatever
    happens to the form, a field never comes to hold anything else. *)
Theorem amount_fields_accepted (value : jsstring) (st : mint_form)
    (evs : list mint_event) :
  (accepted value = true →
   airdrop (handleAirdropChange value st) = value
   ∧ error (handleAirdropChange value st) = None
   ∧ miningReward (handleMiningRewardChange value st) = value
   ∧ error (handleMiningRewardChange value st) = None)
  ∧ (accepted value = false →
     airdrop (handleAirdropChange value st) = airdrop st
     ∧ miningReward (handleMiningRewardChange value st) = miningReward st)
  ∧ accepted (airdrop (fst (mint_run evs empty_form))) = true
  ∧ accepted (miningReward (fst (mint_run evs empty_form))) = true.
Proof.
  destruct (amount_handlers value st) as (H1 & H2 & _).
  split; [exact H1|]. split; [exact H2|].
  apply mint_run_accepted; reflexivity.
Qed.

Lemma amount_fields_accepted_witness :
  airdrop (handleAirdropChange (js "9007199254740991") empty_form)
    = js "9007199254740991"
  ∧ airdrop (handleAirdropChange (js "9007199254740992") empty_form) = [].
Proof.
  split.
  - apply (proj1 (amount_fields_accepted (js "9007199254740991") empty_form [])).
    vm_compute. reflexivity.
  - apply (proj1 (proj2 (amount_fields_accepted (js "9007199254740992")
                           empty_form []))).
    vm_compute. reflexivity.
Defined.

(** X24. Whatever has happened to the form before, with a valid token
    name and an airdrop amount filled in, [handleMint] calls [mintToken]
    with exactly the integers the fields denote, nothing being lost to
    rounding: the airdrop alone when mining is off, and the mining reward
    with it when mining is on and the reward is positive; a reward of 0 is
    refused with 'Mining reward must be a positive number'. *)
Theorem handleMint_exact (evs : list mint_event) (st : mint_form) :
  st = fst (mint_run evs empty_form) →
  validateTokenName (tokenName st) = None →
  airdrop st ≠ [] →
  (enableMining st = false →
   handleMint st
   = (submitted st,
      [call_mintToken (tokenName st)
         (PNum false (decimal_value (airdrop st))) None]))
  ∧ (enableMining st = true → miningReward st ≠ [] →
     0 < decimal_value (miningReward st) →
     handleMint st
     = (submitted st,
        [call_mintToken (tokenName st)
           (PNum false (decimal_value (airdrop st)))
           (Some (PNum false (decimal_value (miningReward st))))]))
  ∧ (enableMining st = true → miningReward st ≠ [] →
     decimal_value (miningReward st) = 0 →
     handleMint st
     = (setError (Some (js "Mining reward must be a positive number")) st, [])).
Proof.
  intros Hst Hname Hne.
  destruct (mint_run_accepted evs empty_form eq_refl eq_refl) as [Ha Hr].
  rewrite <- Hst in Ha, Hr. clear Hst.
  destruct (accepted_value _ Ha Hne) as (Hda & Hla & Hpa).
  pose proof (decimal_value_nonneg _ Hda) as H0.
  assert (Hsafe : ∀ v, 0 ≤ v ≤ MAX_SAFE_INTEGER →
            unsafe (PNum false v) = false).
  { intros v Hv. cbn. destruct (Z.ltb_spec MAX_SAFE_INTEGER v); [lia|reflexivity]. }
  unfold handleMint. rewrite Hname.
  rewrite bool_decide_eq_false_2 by exact Hne. rewrite Hpa.
  cbn [isNaN negative_ orb andb]. rewrite Hsafe by lia.
  unfold submitted.
  split; [intros He; rewrite He; reflexivity|].
  split; intros He Hrne Hv; rewrite He;
    rewrite bool_decide_eq_false_2 by exact Hrne;
    destruct (accepted_value _ Hr Hrne) as (Hdr & Hlr & ->);
    cbn [isNaN not_positive orb].
  - destruct (Z.eqb_spec (decimal_value (miningReward st)) 0); [lia|].
    rewrite Hsafe by lia. reflexivity.
  - rewrite Hv. reflexivity.
Qed.

Lemma handleMint_exact_witness :
  handleMint {| tokenName := js "ABC"; airdrop := js "007"; miningReward := [];
                enableMining := false; loading := false; error := None |}
  = ({| tokenName := js "ABC"; airdrop := js "007"; miningReward := [];
        enableMining := false; loading := true; error := None |},
     [call_mintToken (js "ABC") (PNum false 7) None]).
Proof.
  refine (proj1 (handleMint_exact
            [AirdropChange (js "007"); AirdropChange (js "7e2");
             TokenNameChange (js "ABC")]
            {| tokenName := js "ABC"; airdrop := js "007"; miningReward := [];
               enableMining := false; loading := false; error := None |}
            _ _ _) _); try reflexivity. discriminate.
Defined.

Lemma digit_value_nonneg (radix : Z) (c : N) (v : Z) :
  digit_value radix c = Some v → 0 ≤ v.
Proof.
  unfold digit_value.
  destruct ((48 <=? c) && (c <=? 57))%N eqn:E1;
    [|destruct ((97 <=? c) && (c <=? 122))%N eqn:E2;
      [|destruct ((65 <=? c) && (c <=? 90))%N eqn:E3]];
    try (apply andb_prop in E1 as [E1 _]; apply N.leb_le in E1);
    try (apply andb_prop in E2 as [E2 _]; apply N.leb_le in E2);
    try (apply andb_prop in E3 as [E3 _]; apply N.leb_le in E3);
    match goal with |- context [?v <? radix] =>
      destruct (Z.ltb_spec v radix)
    end; intros [= <-]; lia.
Qed.

Lemma read_digits_nonneg (radix : Z) (s : jsstring) (acc : option Z) (n : Z) :
  0 ≤ radix → (∀ a, acc = Some a → 0 ≤ a) →
  read_digits radix s acc = Some n → 0 ≤ n.
Proof.
  intros Hr. revert acc. induction s as [|c s IH]; intros acc Hacc; cbn.
  - apply Hacc.
  - destruct (digit_value radix c) as [v|] eqn:Ev; [|apply Hacc].
    apply IH. intros a [= <-]. apply digit_value_nonneg in Ev.
    destruct acc as [a|]; [specialize (Hacc a eq_refl)|]; nia.
Qed.

Lemma round53_nonneg (y : Z) : 0 ≤ y → 0 ≤ round53 y.
Proof.
  intros Hy. destruct (Z.lt_ge_cases (Z.log2 y) 53) as [Hs|Hl].
  - rewrite round53_small by exact Hs. exact Hy.
  - pose proof (round53_large y Hl). lia.
Qed.

Lemma parseInt_nonneg (s : jsstring) (negative : bool) (m : Z) :
  parseInt s = PNum negative m → 0 ≤ m.
Proof.
  unfold parseInt. destruct (strip_sign (trim_start s)) as [neg s1].
  assert (Hradix : 0 ≤ fst (strip_radix s1)).
  { unfold strip_radix. destruct s1 as [|c [|x s2]]; cbn; try lia.
    destruct ((c =? 48) && ((x =? 120) || (x =? 88)))%N; cbn; lia. }
  destruct (strip_radix s1) as [radix s2]. cbn [fst] in Hradix.
  destruct (read_digits radix s2 None) as [mathInt|] eqn:E; [|discriminate].
  apply read_digits_nonneg in E; [|exact Hradix|discriminate].
  destruct (round53 mathInt <? 2 ^ 1024); [|discriminate].
  intros [= _ <-]. apply round53_nonneg, E.
Qed.

(** The numbers that pass the guards of [handleMint]. *)
Lemma passes_airdrop (s : jsstring) :
  isNaN (parseInt s) || negative_ (parseInt s) = false →
  unsafe (parseInt s) = false →
  ∃ negative n, parseInt s = PNum negative n
                ∧ 0 ≤ n ≤ MAX_SAFE_INTEGER ∧ (negative = true → n = 0).
Proof.
  intros H1 H2. destruct (parseInt s) as [|neg|neg n] eqn:E; try discriminate H1.
  - destruct neg; discriminate.
  - pose proof (parseInt_nonneg s neg n E) as Hn. exists neg, n.
    split; [reflexivity|]. cbn in H1, H2. destruct neg; cbn in H1, H2.
    + destruct (Z.ltb_spec 0 n); [discriminate H1|].
      split; [unfold MAX_SAFE_INTEGER; lia|lia].
    + destruct (Z.ltb_spec MAX_SAFE_INTEGER n); [discriminate H2|].
      split; [lia|discriminate].
Qed.

Lemma passes_reward (s : jsstring) :
  isNaN (parseInt s) || not_positive (parseInt s) = false →
  unsafe (parseInt s) = false →
  ∃ n, parseInt s = PNum false n ∧ 1 ≤ n ≤ MAX_SAFE_INTEGER.
Proof.
  intros H1 H2. destruct (parseInt s) as [|neg|neg n] eqn:E; try discriminate H1.
  - destruct neg; discriminate.
  - pose proof (parseInt_nonneg s neg n E) as Hn.
    cbn in H1, H2. destruct neg; [discriminate H1|]. cbn in H1, H2.
    exists n. split; [reflexivity|].
    destruct (Z.eqb_spec n 0); [discriminate H1|].
    destruct (Z.ltb_spec MAX_SAFE_INTEGER n); [discriminate H2|]. lia.
Qed.

(** X25. Whatever the fields hold, [handleMint] calls [mintToken] only
    with a token name that [validateTokenName] accepts, an airdrop that is
    an integer from 0 to 2^53 - 1, and, when mining is enabled, a mining
    reward from 1 to 2^53 - 1 (and none when it is not). *)
Theorem handleMint_calls_valid (st : mint_form) (token : jsstring) (a : parsed)
    (r : option parsed) :
  call_mintToken token a r ∈ snd (handleMint st) →
  validateTokenName token = None
  ∧ (∃ negative n, a = PNum negative n ∧ 0 ≤ n ≤ MAX_SAFE_INTEGER
                   ∧ (negative = true → n = 0))
  ∧ match r with
    | None => enableMining st = false
    | Some reward =>
        enableMining st = true
        ∧ ∃ n, reward = PNum false n ∧ 1 ≤ n ≤ MAX_SAFE_INTEGER
    end.
Proof.
  unfold handleMint.
  destruct (validateTokenName (tokenName st)) eqn:Hname;
    [intros Hin; inversion Hin|].
  case_bool_decide; [intros Hin; inversion Hin|].
  destruct (isNaN (parseInt (airdrop st)) || negative_ (parseInt (airdrop st)))
    eqn:H1; [intros Hin; inversion Hin|].
  destruct (unsafe (parseInt (airdrop st))) eqn:H2; [intros Hin; inversion Hin|].
  pose proof (passes_airdrop _ H1 H2) as Ha.
  destruct (enableMining st).
  - case_bool_decide; [intros Hin; inversion Hin|].
    destruct (isNaN (parseInt (miningReward st))
              || not_positive (parseInt (miningReward st))) eqn:H3;
      [intros Hin; inversion Hin|].
    destruct (unsafe (parseInt (miningReward st))) eqn:H4;
      [intros Hin; inversion Hin|].
    pose proof (passes_reward _ H3 H4) as Hr.
    cbn [snd]. intros [= -> -> ->]%list_elem_of_singleton. auto.
  - cbn [snd]. intros [= -> -> ->]%list_elem_of_singleton. auto.
Qed.

Lemma handleMint_calls_valid_witness :
  validateTokenName (js "ABC") = None.
Proof.
  apply (handleMint_calls_valid
           {| tokenName := js "ABC"; airdrop := js " +0x1F"; miningReward := js "2";
              enableMining := true; loading := false; error := None |}
           (js "ABC") (PNum false 31) (Some (PNum false 2))).
  vm_compute. apply list_elem_of_here.
Defined.

End MintFacts.
